(** * PRoot, [src/execve/elf.c]: ELF header, program headers, RPATH/RUNPATH

    A shallow embedding of the five functions of [elf.c] ([open_elf],
    [find_program_header], [is_host_elf], [add_xpaths], [read_ldso_rpaths])
    over an explicit model of the process state they act on: the files that
    can be opened, the descriptor table with one file offset per descriptor,
    [errno], the memory handed out by talloc and the diagnostic sink.

    C integer types are the ones of Linux on x86_64: [int] has 32 bits,
    [off_t], [size_t] and [uint64_t] have 64, values wrap as the compiler
    makes them wrap, and multi-byte fields are little-endian. *)

From Stdlib Require Import ZArith List Lia Bool String.
From coqutil Require Import Byte Word.LittleEndianList.
From stdpp Require Import base option list gmap strings.
Import ListNotations.
Local Open Scope Z_scope.

(** ** Machine integers *)

Definition UINT64_MAX : Z := 2 ^ 64 - 1.

(** Conversion to [uint64_t]. *)
Definition to_uint64 (z : Z) : Z := z mod 2 ^ 64.

(** Conversion to a signed type of [n] bits (two's complement wrap). *)
Definition to_signed (n : Z) (z : Z) : Z := (z + 2 ^ (n - 1)) mod 2 ^ n - 2 ^ (n - 1).

(** [(int) x] and the conversion to [off_t]. *)
Definition to_int (z : Z) : Z := to_signed 32 z.
Definition to_off_t (z : Z) : Z := to_signed 64 z.

(** ** Error numbers, as Linux defines them *)

Definition EPERM : Z := 1.
Definition ENOENT : Z := 2.
Definition EIO : Z := 5.
Definition ENOEXEC : Z := 8.
Definition EBADF : Z := 9.
Definition ENOMEM : Z := 12.
Definition EINVAL : Z := 22.
Definition ENOTSUP : Z := 95.

(** ** The process state *)

(** An open file description: the bytes of the file and the file offset. *)
Record OpenFile : Type := mkOpenFile {
  of_data : list byte;
  of_pos : Z
}.

(** [faults] lists what the operating system does to the coming system
    calls, one entry per call of open, lseek or read: [Some e] makes the
    call fail with [errno = e] (error numbers are positive), [None] lets
    it behave as the file system says; when the list is used up every call
    behaves normally.
    [alloc_faults] does the same for the talloc allocations ([true]: the
    allocation returns NULL).  [uninit] is the supply of bytes found in
    memory that was never written (fresh talloc blocks, uninitialised
    locals); zeros follow once it is used up.  [force_foreign] is the
    [static int] of [is_host_elf]; it starts at [-1]. *)
Record World : Type := mkWorld {
  fs : gmap string (list byte);
  fds : list (option OpenFile);
  errno : Z;
  faults : list (option positive);
  alloc_faults : list bool;
  uninit : list byte;
  notices : list string;
  env : list (string * string);
  force_foreign : Z
}.

Definition set_fds (v : list (option OpenFile)) (w : World) : World :=
  mkWorld (fs w) v (errno w) (faults w) (alloc_faults w) (uninit w)
          (notices w) (env w) (force_foreign w).

Definition set_errno (v : Z) (w : World) : World :=
  mkWorld (fs w) (fds w) v (faults w) (alloc_faults w) (uninit w)
          (notices w) (env w) (force_foreign w).

Definition set_faults (v : list (option positive)) (w : World) : World :=
  mkWorld (fs w) (fds w) (errno w) v (alloc_faults w) (uninit w)
          (notices w) (env w) (force_foreign w).

Definition set_alloc_faults (v : list bool) (w : World) : World :=
  mkWorld (fs w) (fds w) (errno w) (faults w) v (uninit w)
          (notices w) (env w) (force_foreign w).

Definition set_uninit (v : list byte) (w : World) : World :=
  mkWorld (fs w) (fds w) (errno w) (faults w) (alloc_faults w) v
          (notices w) (env w) (force_foreign w).

Definition set_notices (v : list string) (w : World) : World :=
  mkWorld (fs w) (fds w) (errno w) (faults w) (alloc_faults w) (uninit w)
          v (env w) (force_foreign w).

Definition set_force_foreign (v : Z) (w : World) : World :=
  mkWorld (fs w) (fds w) (errno w) (faults w) (alloc_faults w) (uninit w)
          (notices w) (env w) v.

(** The open file behind descriptor [fd], if any. *)
Definition fd_lookup (w : World) (fd : Z) : option OpenFile :=
  if fd <? 0 then None else mjoin (fds w !! Z.to_nat fd).

(** The outcome the operating system forces on the next system call. *)
Definition next_fault (w : World) : option positive * World :=
  match faults w with
  | [] => (None, w)
  | f :: rest => (f, set_faults rest w)
  end.

(** The lowest descriptor number that is not in use. *)
Fixpoint lowest_free (t : list (option OpenFile)) : nat :=
  match t with
  | Some _ :: rest => S (lowest_free rest)
  | _ => O
  end.

(** The table with [f] on that lowest descriptor. *)
Definition install (t : list (option OpenFile)) (f : OpenFile) : list (option OpenFile) :=
  let i := lowest_free t in
  if (i <? length t)%nat then <[i := Some f]> t else t ++ [Some f].

(** ** System calls: open(2), close(2), lseek(2), read(2) *)

(** [open(path, O_RDONLY)]: the new descriptor, or [-1] with [errno] set. *)
Definition open (w : World) (path : string) : Z * World :=
  let '(f, w) := next_fault w in
  match f with
  | Some e => (-1, set_errno (Z.pos e) w)
  | None =>
    match fs w !! path with
    | None => (-1, set_errno ENOENT w)
    | Some data =>
      (Z.of_nat (lowest_free (fds w)),
       set_fds (install (fds w) (mkOpenFile data 0)) w)
    end
  end.

(** [close(fd)]. *)
Definition close (w : World) (fd : Z) : Z * World :=
  match fd_lookup w fd with
  | None => (-1, set_errno EBADF w)
  | Some _ => (0, set_fds (<[Z.to_nat fd := None]> (fds w)) w)
  end.

(** [lseek(fd, offset, SEEK_SET)], [offset] already an [off_t]: the new
    offset, or [-1] with [errno] set.  Seeking past the end is allowed. *)
Definition lseek (w : World) (fd : Z) (offset : Z) : Z * World :=
  let '(f, w) := next_fault w in
  match f with
  | Some e => (-1, set_errno (Z.pos e) w)
  | None =>
    match fd_lookup w fd with
    | None => (-1, set_errno EBADF w)
    | Some file =>
      if offset <? 0 then (-1, set_errno EINVAL w)
      else (offset,
            set_fds (<[Z.to_nat fd := Some (mkOpenFile (of_data file) offset)]> (fds w)) w)
    end
  end.

(** The [count] bytes of [data] from offset [pos] on, or fewer at the end
    of the file; none at or past the end (nor at a negative offset, which
    no descriptor has). *)
Definition file_bytes (data : list byte) (pos count : Z) : list byte :=
  if (pos <? 0) || (Z.of_nat (length data) <=? pos) then []
  else take (Z.to_nat count) (drop (Z.to_nat pos) data).

(** [read(fd, buf, count)]: the number of bytes read and the bytes, which
    the caller stores at [buf]; [-1] with [errno] set on failure.  At most
    what is left of the file is read, and the offset moves by that much. *)
Definition read (w : World) (fd : Z) (count : Z) : Z * list byte * World :=
  let '(f, w) := next_fault w in
  match f with
  | Some e => (-1, [], set_errno (Z.pos e) w)
  | None =>
    match fd_lookup w fd with
    | None => (-1, [], set_errno EBADF w)
    | Some file =>
      let got := file_bytes (of_data file) (of_pos file) count in
      let n := Z.of_nat (length got) in
      (n, got,
       set_fds (<[Z.to_nat fd := Some (mkOpenFile (of_data file) (of_pos file + n))]> (fds w)) w)
    end
  end.

(** ** Memory *)

(** [n] bytes of memory that was never written. *)
Definition indeterminate (n : nat) (w : World) : list byte * World :=
  (take n (uninit w ++ repeat Byte.x00 n), set_uninit (drop n (uninit w)) w).

(** Storing [src] at the start of the buffer [dst] (what [read] does to
    the caller's buffer): the rest of [dst] keeps its bytes. *)
Definition store (dst src : list byte) : list byte :=
  src ++ drop (length src) dst.

(** Whether the next allocation fails. *)
Definition next_alloc (w : World) : bool * World :=
  match alloc_faults w with
  | [] => (false, w)
  | b :: rest => (b, set_alloc_faults rest w)
  end.

(** [talloc_array(ctx, char, size)]: a fresh block, or NULL. *)
Definition talloc_array (w : World) (size : Z) : option (list byte) * World :=
  let '(fail, w) := next_alloc w in
  if fail then (None, w)
  else let '(block, w) := indeterminate (Z.to_nat size) w in (Some block, w).

(** [talloc_realloc(ctx, ptr, char, size)]: the block resized to [size]
    bytes, old bytes kept and new ones indeterminate, or NULL, in which
    case the old block is untouched.  A NULL [ptr] is the empty block. *)
Definition talloc_realloc (w : World) (old : list byte) (size : Z) : option (list byte) * World :=
  let '(fail, w) := next_alloc w in
  if fail then (None, w)
  else
    let '(more, w) := indeterminate (Z.to_nat size - length old) w in
    (Some (take (Z.to_nat size) (old ++ more)), w).

(** Modelled from the spec: [notice(tracee, severity, origin, message,
    ...)] of [cli/notice.c], which is not among the sources: the message
    goes to the diagnostic sink, fire and forget (the values formatted
    into it are left out). *)
Definition notice (w : World) (message : string) : World :=
  set_notices (notices w ++ [message]) w.

(** ** The layout of ELF structures

    [execve/elf.h] is not among the sources.  It declares the unions
    [ElfHeader], [ProgramHeader] and [DynamicEntry] (one member per
    class), the enums [SegmentType] and [DynamicType] and the access
    macros.  The spec asks for the layout of the ELF format bit-exact,
    with one layout per class behind a uniform field access; the offsets
    and widths below are those of the ELF format.  A structure is the
    block of bytes that read(2) fills. *)

(** Modelled from the spec: [sizeof(ElfHeader)] of [execve/elf.h], the
    size of the larger member of the union (the 64-bit header). *)
Definition sizeof_ElfHeader : Z := 64.

(** Modelled from the spec: [sizeof(ProgramHeader32)] of [execve/elf.h]. *)
Definition sizeof_ProgramHeader32 : Z := 32.

(** Modelled from the spec: [sizeof(ProgramHeader64)] of [execve/elf.h]. *)
Definition sizeof_ProgramHeader64 : Z := 56.

(** Modelled from the spec: [sizeof(ProgramHeader)] of [execve/elf.h],
    the union of both. *)
Definition sizeof_ProgramHeader : Z := 56.

(** Modelled from the spec: [sizeof(DynamicEntry32)] of [execve/elf.h]. *)
Definition sizeof_DynamicEntry32 : Z := 8.

(** Modelled from the spec: [sizeof(DynamicEntry64)] of [execve/elf.h]. *)
Definition sizeof_DynamicEntry64 : Z := 16.

(** Modelled from the spec: [sizeof(DynamicEntry)] of [execve/elf.h], the
    union of both. *)
Definition sizeof_DynamicEntry : Z := 16.

(** Modelled from the spec: the [SegmentType] of a loadable segment, from
    [execve/elf.h]. *)
Definition PT_LOAD : Z := 1.

(** Modelled from the spec: the [SegmentType] of the dynamic segment,
    from [execve/elf.h]. *)
Definition PT_DYNAMIC : Z := 2.

(** Modelled from the spec: the [DynamicType] of the string-table pointer,
    from [execve/elf.h]. *)
Definition DT_STRTAB : Z := 5.

(** Modelled from the spec: the [DynamicType] of an RPATH entry, from
    [execve/elf.h]. *)
Definition DT_RPATH : Z := 15.

(** Modelled from the spec: the [DynamicType] of a RUNPATH entry, from
    [execve/elf.h]. *)
Definition DT_RUNPATH : Z := 29.

(** The unsigned little-endian field of [size] bytes at [offset]. *)
Definition field (buf : list byte) (offset size : nat) : Z :=
  le_combine (take size (drop offset buf)).

(** Modelled from the spec: the macro [ELF_IDENT(header, index)] of
    [execve/elf.h], byte [index] of [e_ident]. *)
Definition ELF_IDENT (header : list byte) (index : nat) : Z := field header index 1.

(** Modelled from the spec: the macro [ELF_CLASS] of [execve/elf.h], the
    class byte of [e_ident]. *)
Definition ELF_CLASS (header : list byte) : Z := ELF_IDENT header 4.

(** Modelled from the spec: the macro [IS_CLASS32] of [execve/elf.h]. *)
Definition IS_CLASS32 (header : list byte) : bool := ELF_CLASS header =? 1.

(** Modelled from the spec: the macro [IS_CLASS64] of [execve/elf.h]. *)
Definition IS_CLASS64 (header : list byte) : bool := ELF_CLASS header =? 2.

(** Modelled from the spec: the fields the code reads of [ElfHeader32]
    and [ElfHeader64] ([execve/elf.h]). *)
Inductive ElfField : Type := e_machine | e_phoff | e_phentsize | e_phnum.

(** Modelled from the spec: offset and width of a field in [ElfHeader32]
    ([execve/elf.h]). *)
Definition ElfHeader32 (name : ElfField) : nat * nat :=
  match name with
  | e_machine => (18, 2)
  | e_phoff => (28, 4)
  | e_phentsize => (42, 2)
  | e_phnum => (44, 2)
  end%nat.

(** Modelled from the spec: offset and width of a field in [ElfHeader64]
    ([execve/elf.h]). *)
Definition ElfHeader64 (name : ElfField) : nat * nat :=
  match name with
  | e_machine => (18, 2)
  | e_phoff => (32, 8)
  | e_phentsize => (54, 2)
  | e_phnum => (56, 2)
  end%nat.

(** Modelled from the spec: the macro [ELF_FIELD(header, name)] of
    [execve/elf.h], the field of the member of the header's class; the
    value has the wider of the two types. *)
Definition ELF_FIELD (header : list byte) (name : ElfField) : Z :=
  if IS_CLASS64 header
  then field header (ElfHeader64 name).1 (ElfHeader64 name).2
  else field header (ElfHeader32 name).1 (ElfHeader32 name).2.

(** Modelled from the spec: the fields the code reads of
    [ProgramHeader32] and [ProgramHeader64] ([execve/elf.h]). *)
Inductive ProgramField : Type := p_type | p_offset | p_vaddr | p_filesz | p_memsz.

(** Modelled from the spec: offset and width of a field in
    [ProgramHeader32] ([execve/elf.h]). *)
Definition ProgramHeader32 (name : ProgramField) : nat * nat :=
  match name with
  | p_type => (0, 4)
  | p_offset => (4, 4)
  | p_vaddr => (8, 4)
  | p_filesz => (16, 4)
  | p_memsz => (20, 4)
  end%nat.

(** Modelled from the spec: offset and width of a field in
    [ProgramHeader64] ([execve/elf.h]). *)
Definition ProgramHeader64 (name : ProgramField) : nat * nat :=
  match name with
  | p_type => (0, 4)
  | p_offset => (8, 8)
  | p_vaddr => (16, 8)
  | p_filesz => (32, 8)
  | p_memsz => (40, 8)
  end%nat.

(** Modelled from the spec: the macro [PROGRAM_FIELD(ehdr, phdr, name)]
    of [execve/elf.h]; the value is a [uint64_t] for both classes, but
    for [p_type]. *)
Definition PROGRAM_FIELD (header program_header : list byte) (name : ProgramField) : Z :=
  if IS_CLASS64 header
  then field program_header (ProgramHeader64 name).1 (ProgramHeader64 name).2
  else field program_header (ProgramHeader32 name).1 (ProgramHeader32 name).2.

(** Modelled from the spec: the fields of [DynamicEntry32] and
    [DynamicEntry64] ([execve/elf.h]). *)
Inductive DynamicField : Type := d_tag | d_val.

(** Modelled from the spec: the macro [DYNAMIC_FIELD(ehdr, dynent, name)]
    of [execve/elf.h].  [d_tag] is signed ([int32_t], [int64_t]) and
    [d_val] unsigned; each follows the other in the entry. *)
Definition DYNAMIC_FIELD (header dynamic_entry : list byte) (name : DynamicField) : Z :=
  match name with
  | d_tag =>
    if IS_CLASS64 header
    then to_signed 64 (field dynamic_entry 0 8)
    else to_signed 32 (field dynamic_entry 0 4)
  | d_val =>
    if IS_CLASS64 header
    then field dynamic_entry 8 8
    else field dynamic_entry 4 4
  end.

(** Modelled from the spec: the macro [KNOWN_PHENTSIZE(header, size)] of
    [execve/elf.h], whether [size] is the size of a program header of the
    header's class. *)
Definition KNOWN_PHENTSIZE (header : list byte) (size : Z) : bool :=
  (IS_CLASS32 header && (size =? sizeof_ProgramHeader32))
  || (IS_CLASS64 header && (size =? sizeof_ProgramHeader64)).

(** ** [open_elf] *)

(** The test of lines 65 to 79 on the header just read, [status] being
    what read(2) returned (not negative): the status it leaves. *)
Definition check_elf_header (status : Z) (elf_header : list byte) : Z :=
  if (status <? sizeof_ElfHeader)
     || negb (ELF_IDENT elf_header 0 =? 0x7f)
     || negb (ELF_IDENT elf_header 1 =? 69)    (* 'E' *)
     || negb (ELF_IDENT elf_header 2 =? 76)    (* 'L' *)
     || negb (ELF_IDENT elf_header 3 =? 70)    (* 'F' *)
  then - ENOEXEC
  else if negb (IS_CLASS32 elf_header) && negb (IS_CLASS64 elf_header)
  then - ENOEXEC
  else 0.

(** Returns the status (the descriptor, or a negative error), the caller's
    header buffer as the call leaves it, and the new process state. *)
Definition open_elf (w : World) (t_path : string) (elf_header : list byte)
  : Z * list byte * World :=
  let '(fd, w) := open w t_path in
  if fd <? 0 then (- errno w, elf_header, w)
  else
    let '(status, got, w) := read w fd sizeof_ElfHeader in
    let elf_header := store elf_header got in
    let status :=
      if status <? 0 then - errno w
      else check_elf_header status elf_header in
    (* end: *)
    if status <? 0 then
      let '(_, w) := close w fd in
      (status, elf_header, w)
    else (fd, elf_header, w).

(** ** [find_program_header] *)

(** Lines 143 to 157: whether the entry just read ends the search. *)
Definition entry_found (elf_header program_header : list byte) (type address : Z) : bool :=
  if PROGRAM_FIELD elf_header program_header p_type =? type then
    if address =? UINT64_MAX then true
    else
      let start := PROGRAM_FIELD elf_header program_header p_vaddr in
      let end_ := to_uint64 (start + PROGRAM_FIELD elf_header program_header p_memsz) in
      (start <? end_) && (start <=? address) && (address <=? end_)
  else false.

(** The [for] loop of lines 138 to 158, with [n] entries left to read. *)
Fixpoint find_program_header_loop (n : nat) (w : World) (fd : Z)
    (elf_header : list byte) (elf_phentsize : Z) (program_header : list byte)
    (type address : Z) : Z * list byte * World :=
  match n with
  | O => (0, program_header, w)
  | S n' =>
    let '(status, got, w) := read w fd elf_phentsize in
    let program_header := store program_header got in
    if negb (status =? elf_phentsize) then
      ((if status <? 0 then - errno w else - ENOTSUP), program_header, w)
    else if entry_found elf_header program_header type address then
      (1, program_header, w)
    else
      find_program_header_loop n' w fd elf_header elf_phentsize program_header
                               type address
  end.

(** Returns the status ([1] found, [0] not found, negative error) and the
    caller's [program_header] buffer as the call leaves it. *)
Definition find_program_header (w : World) (fd : Z) (elf_header : list byte)
    (program_header : list byte) (type address : Z) : Z * list byte * World :=
  let elf_phnum := ELF_FIELD elf_header e_phnum in
  let elf_phentsize := ELF_FIELD elf_header e_phentsize in
  let elf_phoff := ELF_FIELD elf_header e_phoff in
  if 0xffff <=? elf_phnum then
    (- ENOTSUP, program_header,
     notice w "%d: big PH tables are not yet supported.")
  else if negb (KNOWN_PHENTSIZE elf_header elf_phentsize) then
    (- ENOTSUP, program_header,
     notice w "%d: unsupported size of program header.")
  else
    let '(ret, w) := lseek w fd (to_off_t elf_phoff) in
    let status := to_int ret in
    if status <? 0 then (- errno w, program_header, w)
    else
      find_program_header_loop (Z.to_nat elf_phnum) w fd elf_header
                               elf_phentsize program_header type address.

(** ** [is_host_elf] *)

(** Modelled from the spec: [tracee/tracee.h] is not among the sources;
    these are the members of [Tracee] that the functions read.  [qemu] is
    the emulator's command line (NULL when emulation is not active for
    the session), [verbose] the verbosity level. *)
Record Tracee : Type := mkTracee {
  qemu : option (list string);
  verbose : Z
}.

(** A pointer used as a condition. *)
Definition is_non_null {A : Type} (p : option A) : bool :=
  match p with Some _ => true | None => false end.

(** [getenv(name)]. *)
Fixpoint getenv_in (e : list (string * string)) (name : string) : option string :=
  match e with
  | [] => None
  | (k, v) :: rest => if String.eqb k name then Some v else getenv_in rest name
  end.

Definition getenv (w : World) (name : string) : option string :=
  getenv_in (env w) name.

(** Modelled from the spec: the macro [VERBOSE(tracee, level, message,
    ...)] of [cli/notice.h], which is not among the sources: a notice
    when the verbosity reaches [level]. *)
Definition VERBOSE (w : World) (tracee : Tracee) (level : Z) (message : string) : World :=
  if level <=? verbose tracee then notice w message else w.

(** The loop of lines 187 to 192 over the array [host_elf_machine], from
    the element the list starts with: it ends at the first zero.  (The
    initializer [HOST_ELF_MACHINE] ends with a zero; a list without one is
    an array the loop would leave.) *)
Fixpoint host_elf_machine_loop (host_elf_machine : list Z) (elf_machine : Z) : bool :=
  match host_elf_machine with
  | [] => false
  | m :: rest =>
    if m =? 0 then false
    else if m =? elf_machine then true
    else host_elf_machine_loop rest elf_machine
  end.

(** The value of [getenv("PROOT_FORCE_FOREIGN_BINARY") != NULL]. *)
Definition force_foreign_toggle (w : World) : Z :=
  if is_non_null (getenv w "PROOT_FORCE_FOREIGN_BINARY") then 1 else 0.

(** Lines 175 and 176: [force_foreign] is computed on first use. *)
Definition memoize_force_foreign (w : World) : World :=
  if force_foreign w <? 0 then set_force_foreign (force_foreign_toggle w) w else w.

Section HostElf.

(** [HOST_ELF_MACHINE] comes from [arch.h], which is not among the
    sources: one initializer per host architecture, a zero at its end
    (for x86_64, [{62, 3, 6, 0}]). *)
Variable HOST_ELF_MACHINE : list Z.

Definition is_host_elf (w : World) (tracee : Tracee) (host_path : string) : bool * World :=
  let host_elf_machine := HOST_ELF_MACHINE in
  let w := memoize_force_foreign w in
  if (0 <? force_foreign w) || negb (is_non_null (qemu tracee)) then (false, w)
  else
    let '(elf_header, w) := indeterminate (Z.to_nat sizeof_ElfHeader) w in
    let '(fd, elf_header, w) := open_elf w host_path elf_header in
    if fd <? 0 then (false, w)
    else
      let '(_, w) := close w fd in
      let elf_machine := ELF_FIELD elf_header e_machine in
      if host_elf_machine_loop host_elf_machine elf_machine
      then (true, VERBOSE w tracee 1 "'%s' is a host ELF")
      else (false, w).

End HostElf.

(** ** [add_xpaths] *)

(** [strnlen(s, maxlen)] on the bytes [s]. *)
Fixpoint strnlen (s : list byte) (maxlen : nat) : nat :=
  match maxlen, s with
  | S m, b :: rest => if Byte.eqb b Byte.x00 then O else S (strnlen rest m)
  | _, _ => O
  end.

(** The C string a buffer holds: its bytes before the first NUL. *)
Definition c_string (buf : list byte) : list byte :=
  take (strnlen buf (length buf)) buf.

(** The [do ... while] loop of lines 218 to 231.  [len] and [paths] are
    the variables [length] and [paths] on entry of the body ([paths] NULL
    is the empty block); the result is the status (negative: the function
    returns it), and [paths] and [length] when the loop ends.  [fuel]
    bounds the number of turns: [None] when it does not suffice. *)
Fixpoint read_paths (fuel : nat) (w : World) (fd : Z) (paths : list byte) (len : nat)
  : option (Z * list byte * nat * World) :=
  match fuel with
  | O => None
  | S fuel' =>
    let size := (len + 1024)%nat in
    let '(tmp, w) := talloc_realloc w paths (Z.of_nat size) in
    match tmp with
    | None => Some (- ENOMEM, paths, len, w)
    | Some paths =>
      let '(status, got, w) := read w fd 1024 in
      if status <? 0 then Some (status, paths, len, w)
      else
        let paths := take len paths ++ store (drop len paths) got in
        let len := (len + strnlen (drop len paths) 1024)%nat in
        if (len =? size)%nat then read_paths fuel' w fd paths len
        else Some (status, paths, len, w)
    end
  end.

(** A number of turns that always suffices ([read_paths_fuel] below): a
    turn that is followed by another one uses up unwritten memory that
    holds no NUL, or 1024 bytes of the file. *)
Definition paths_fuel (w : World) (fd : Z) : nat :=
  S (length (uninit w)
     + match fd_lookup w fd with
       | Some file => length (of_data file)
       | None => 0
       end).

(** The accumulator [*xpaths] is NULL ([None]) or a C string, given by its
    bytes before the terminator. *)
Definition add_xpaths (w : World) (fd : Z) (offset : Z) (xpaths : option (list byte))
  : Z * option (list byte) * World :=
  let '(ret, w) := lseek w fd (to_off_t offset) in
  let status := to_int ret in
  if status <? 0 then (- errno w, xpaths, w)
  else
    match read_paths (paths_fuel w fd) w fd [] 0 with
    | None => (- ENOMEM, xpaths, w)    (* not reached, see [read_paths_fuel] *)
    | Some (status, paths, len, w) =>
      if status <? 0 then (status, xpaths, w)
      else
        match xpaths with
        | None =>
          let '(block, w) := talloc_array w (Z.of_nat len + 1) in
          match block with
          | None => (- ENOMEM, None, w)
          | Some _ => (0, Some (c_string paths), w)                 (* strcpy *)
          end
        | Some old =>
          let len := (len + length old + 1)%nat in
          let '(tmp, w) := talloc_realloc w (old ++ [Byte.x00]) (Z.of_nat len + 1) in
          match tmp with
          | None => (- ENOMEM, Some old, w)
          | Some _ =>
            (0, Some (old ++ [Byte.x3a] ++ c_string paths), w)      (* strcat, twice *)
          end
        end
    end.

(** ** [read_ldso_rpaths] *)

(** What the code embedded in [FOREACH_DYNAMIC_ENTRY] does after an entry:
    go on with the next one, [break], or [return status]. *)
Inductive Flow (S : Type) : Type :=
| Next (s : S) (w : World)
| Break (s : S) (w : World)
| Return (status : Z) (s : S) (w : World).
Arguments Next {S} s w.
Arguments Break {S} s w.
Arguments Return {S} status s w.

(** The macro [FOREACH_DYNAMIC_ENTRY(type, embedded_code)], with [n]
    entries left from index [i] on.  [s] is what [embedded_code] updates
    ([strtab_address], or an accumulator); [embedded_code] gets [value].
    The result is [Some status] when the function returns inside the loop,
    [None] when the loop is over. *)
Fixpoint FOREACH_DYNAMIC_ENTRY {S : Type} (n : nat) (i : Z) (w : World) (fd : Z)
    (elf_header : list byte)
    (offsetof_dynamic_segment sizeof_dynamic_entry : Z)
    (type : Z) (embedded_code : Z -> S -> World -> Flow S) (s : S)
  : option Z * S * World :=
  match n with
  | O => (None, s, w)
  | S n' =>
    let '(dynamic_entry, w) := indeterminate (Z.to_nat sizeof_DynamicEntry) w in
    let '(ret, w) :=
      lseek w fd (to_off_t (to_uint64 (offsetof_dynamic_segment + i * sizeof_dynamic_entry))) in
    let status := to_int ret in
    if status <? 0 then (Some (- errno w), s, w)
    else
      let '(status, got, w) := read w fd sizeof_dynamic_entry in
      if status <? 0 then (Some status, s, w)
      else
        let dynamic_entry := store dynamic_entry got in
        if negb (DYNAMIC_FIELD elf_header dynamic_entry d_tag =? type) then
          FOREACH_DYNAMIC_ENTRY n' (i + 1) w fd elf_header offsetof_dynamic_segment
                                sizeof_dynamic_entry type embedded_code s
        else
          let value := DYNAMIC_FIELD elf_header dynamic_entry d_val in
          match embedded_code value s w with
          | Next s w =>
            FOREACH_DYNAMIC_ENTRY n' (i + 1) w fd elf_header offsetof_dynamic_segment
                                  sizeof_dynamic_entry type embedded_code s
          | Break s w => (None, s, w)
          | Return status s w => (Some status, s, w)
          end
  end.

(** The code embedded at lines 322 to 325. *)
Definition strtab_code (value : Z) (strtab_address : Z) (w : World) : Flow Z :=
  Break value w.

(** The code embedded at lines 339 to 346 and 348 to 355; [xpaths] is
    [*rpaths] or [*runpaths]. *)
Definition xpaths_code (fd : Z) (strtab_offset : Z)
    (value : Z) (xpaths : option (list byte)) (w : World) : Flow (option (list byte)) :=
  if (strtab_offset <? 0) || (UINT64_MAX - value <? to_uint64 strtab_offset) then
    Return (- ENOEXEC) xpaths w
  else
    let '(status, xpaths, w) := add_xpaths w fd (to_uint64 (strtab_offset + value)) xpaths in
    if status <? 0 then Return status xpaths w
    else Next xpaths w.

Definition read_ldso_rpaths (w : World) (fd : Z) (elf_header : list byte)
    (rpaths runpaths : option (list byte))
  : Z * option (list byte) * option (list byte) * World :=
  let '(dynamic_segment, w) := indeterminate (Z.to_nat sizeof_ProgramHeader) w in
  let '(strtab_segment, w) := indeterminate (Z.to_nat sizeof_ProgramHeader) w in
  let strtab_address := UINT64_MAX in
  let '(status, dynamic_segment, w) :=
    find_program_header w fd elf_header dynamic_segment PT_DYNAMIC UINT64_MAX in
  if status <=? 0 then (status, rpaths, runpaths, w)
  else
    let offsetof_dynamic_segment := PROGRAM_FIELD elf_header dynamic_segment p_offset in
    let sizeof_dynamic_segment := PROGRAM_FIELD elf_header dynamic_segment p_filesz in
    let sizeof_dynamic_entry :=
      if IS_CLASS32 elf_header then sizeof_DynamicEntry32 else sizeof_DynamicEntry64 in
    if negb (sizeof_dynamic_segment mod sizeof_dynamic_entry =? 0) then
      (- ENOEXEC, rpaths, runpaths, w)
    else
      let entries := Z.to_nat (sizeof_dynamic_segment / sizeof_dynamic_entry) in
      match FOREACH_DYNAMIC_ENTRY entries 0 w fd elf_header offsetof_dynamic_segment
                                  sizeof_dynamic_entry DT_STRTAB strtab_code strtab_address with
      | (Some status, _, w) => (status, rpaths, runpaths, w)
      | (None, strtab_address, w) =>
        if strtab_address =? UINT64_MAX then (0, rpaths, runpaths, w)
        else
          let '(status, strtab_segment, w) :=
            find_program_header w fd elf_header strtab_segment PT_LOAD strtab_address in
          if status <? 0 then (status, rpaths, runpaths, w)
          else
            let strtab_offset :=
              to_off_t (to_uint64 (PROGRAM_FIELD elf_header strtab_segment p_offset
                                   + to_uint64 (strtab_address
                                                - PROGRAM_FIELD elf_header strtab_segment p_vaddr))) in
            match FOREACH_DYNAMIC_ENTRY entries 0 w fd elf_header offsetof_dynamic_segment
                                        sizeof_dynamic_entry DT_RPATH
                                        (xpaths_code fd strtab_offset) rpaths with
            | (Some status, rpaths, w) => (status, rpaths, runpaths, w)
            | (None, rpaths, w) =>
              match FOREACH_DYNAMIC_ENTRY entries 0 w fd elf_header offsetof_dynamic_segment
                                          sizeof_dynamic_entry DT_RUNPATH
                                          (xpaths_code fd strtab_offset) runpaths with
              | (Some status, runpaths, w) => (status, rpaths, runpaths, w)
              | (None, runpaths, w) => (0, rpaths, runpaths, w)
              end
            end
      end.

(** ** ELF images to run the functions on *)

Definition bytes_of (s : string) : list byte := list_byte_of_string s.

(** The header of a 64-bit and of a 32-bit image. *)
Definition elf64_header (machine phoff phentsize phnum : Z) : list byte :=
  [Byte.x7f] ++ bytes_of "ELF" ++ [Byte.x02; Byte.x01; Byte.x01] ++ repeat Byte.x00 9
  ++ le_split 2 2 ++ le_split 2 machine ++ le_split 4 1
  ++ le_split 8 0 ++ le_split 8 phoff ++ le_split 8 0
  ++ le_split 4 0 ++ le_split 2 64 ++ le_split 2 phentsize ++ le_split 2 phnum
  ++ le_split 2 0 ++ le_split 2 0 ++ le_split 2 0.

Definition elf32_header (machine phoff phentsize phnum : Z) : list byte :=
  [Byte.x7f] ++ bytes_of "ELF" ++ [Byte.x01; Byte.x01; Byte.x01] ++ repeat Byte.x00 9
  ++ le_split 2 2 ++ le_split 2 machine ++ le_split 4 1
  ++ le_split 4 0 ++ le_split 4 phoff ++ le_split 4 0
  ++ le_split 4 0 ++ le_split 2 52 ++ le_split 2 phentsize ++ le_split 2 phnum
  ++ le_split 2 0 ++ le_split 2 0 ++ le_split 2 0 ++ repeat Byte.x00 12.

Definition phdr64 (type offset vaddr filesz memsz : Z) : list byte :=
  le_split 4 type ++ le_split 4 0 ++ le_split 8 offset ++ le_split 8 vaddr
  ++ le_split 8 vaddr ++ le_split 8 filesz ++ le_split 8 memsz ++ le_split 8 0.

Definition phdr32 (type offset vaddr filesz memsz : Z) : list byte :=
  le_split 4 type ++ le_split 4 offset ++ le_split 4 vaddr ++ le_split 4 vaddr
  ++ le_split 4 filesz ++ le_split 4 memsz ++ le_split 4 0 ++ le_split 4 0.

Definition dyn64 (tag val : Z) : list byte := le_split 8 tag ++ le_split 8 val.
Definition dyn32 (tag val : Z) : list byte := le_split 4 tag ++ le_split 4 val.

(** Descriptors 0, 1 and 2 of a process (nothing can be read from them
    here). *)
Definition standard_fds : list (option OpenFile) :=
  [Some (mkOpenFile [] 0); Some (mkOpenFile [] 0); Some (mkOpenFile [] 0)].

(** A process with the file [data] open on descriptor 3, at offset 0. *)
Definition world_of (data : list byte) : World :=
  mkWorld ∅ (standard_fds ++ [Some (mkOpenFile data 0)]) 0 [] [] [] [] [] (-1).

(** * Vocabulary of the statements *)

(** The [size] bytes of [data] at [offset] (fewer at the end of the file). *)
Definition bytes_at (data : list byte) (offset size : Z) : list byte :=
  take (Z.to_nat size) (drop (Z.to_nat offset) data).

(** Descriptor [fd] is open on [data] at offset [pos], and the coming
    system calls behave normally. *)
Definition at_offset (w : World) (fd : Z) (data : list byte) (pos : Z) : Prop :=
  faults w = [] /\ fd_lookup w fd = Some (mkOpenFile data pos).

(** The code takes a seek to [offset] for a success: the offset is an
    [off_t] that is not negative, and not negative either once cut down
    to an [int]. *)
Definition seek_ok (offset : Z) : Prop :=
  0 <= offset < 2 ^ 63 /\ 0 <= to_int offset.

(** Entry [i] of the program header table at [phoff], entries of [size]
    bytes. *)
Definition table_entry (data : list byte) (phoff size : Z) (i : nat) : list byte :=
  bytes_at data (phoff + Z.of_nat i * size) size.

(** [sizeof_dynamic_entry] for the class of the header, and entry [i] of
    the dynamic section at [off]. *)
Definition dynamic_entry_size (elf_header : list byte) : Z :=
  if IS_CLASS32 elf_header then sizeof_DynamicEntry32 else sizeof_DynamicEntry64.

Definition dynamic_entry (data elf_header : list byte) (off i : Z) : list byte :=
  bytes_at data (off + i * dynamic_entry_size elf_header) (dynamic_entry_size elf_header).

(** The header has the magic number and a known class. *)
Definition valid_elf_header (elf_header : list byte) : Prop :=
  ELF_IDENT elf_header 0 = 0x7f /\ ELF_IDENT elf_header 1 = 69
  /\ ELF_IDENT elf_header 2 = 76 /\ ELF_IDENT elf_header 3 = 70
  /\ (ELF_CLASS elf_header = 1 \/ ELF_CLASS elf_header = 2).

(** [m] is in the array before its first zero. *)
Definition accepted_machine (host_elf_machine : list Z) (m : Z) : Prop :=
  exists i : nat,
    host_elf_machine !! i = Some m /\ m <> 0
    /\ forall j : nat, (j < i)%nat -> host_elf_machine !! j <> Some 0.

(** The system calls leave the environment and the memo alone. *)
Definition same_settings (w w' : World) : Prop :=
  env w' = env w /\ force_foreign w' = force_foreign w.

(** What bounds the number of turns of the loop of [add_xpaths]: the
    unwritten memory left, plus the bytes of the file from the offset of
    [fd] on. *)
Definition paths_measure (w : World) (fd : Z) : nat :=
  (length (uninit w)
   + match fd_lookup w fd with
     | Some file =>
       if (of_pos file <? 0)%Z then 0
       else length (of_data file) - Z.to_nat (of_pos file)
     | None => 0
     end)%nat.

(** ** What [read_ldso_rpaths] is to produce *)

(** What [add_xpaths] makes of the accumulator and the text it read. *)
Definition merge (xpaths : option (list byte)) (text : list byte) : list byte :=
  match xpaths with
  | None => text
  | Some old => old ++ bytes_of ":" ++ text
  end.

(** The string of the string table that the entry [entry] names: the
    bytes from [strtab_offset + d_val] up to the next NUL. *)
Definition path_list (data hdr : list byte) (strtab_offset : Z) (entry : list byte) : list byte :=
  c_string (drop (Z.to_nat (strtab_offset + DYNAMIC_FIELD hdr entry d_val)) data).

(** The accumulator after the [n] entries of the dynamic section from
    index [i] on: the path list of each entry tagged [type] is merged, in
    the order of the table. *)
Fixpoint merged_paths (data hdr : list byte) (off strtab_offset type : Z)
    (n : nat) (i : Z) (xpaths : option (list byte)) : option (list byte) :=
  match n with
  | O => xpaths
  | S n' =>
    let entry := dynamic_entry data hdr off i in
    merged_paths data hdr off strtab_offset type n' (i + 1)
      (if DYNAMIC_FIELD hdr entry d_tag =? type
       then Some (merge xpaths (path_list data hdr strtab_offset entry))
       else xpaths)
  end.

(** [hdr] is the header of the image [data]; entry [k] of its program
    header table is the first PT_DYNAMIC one, entry [s] of the dynamic
    section the first DT_STRTAB one, and entry [l] of the table the first
    PT_LOAD one that contains the address that entry [s] gives. *)

Section Image.

Variables (hdr data : list byte) (k l : nat) (s : Z).

(** The dynamic section: its offset and the number of its entries. *)
Definition dynamic_offset : Z :=
  PROGRAM_FIELD hdr (table_entry data (ELF_FIELD hdr e_phoff) (ELF_FIELD hdr e_phentsize) k)
                p_offset.

Definition dynamic_count : Z :=
  PROGRAM_FIELD hdr (table_entry data (ELF_FIELD hdr e_phoff) (ELF_FIELD hdr e_phentsize) k)
                p_filesz
  / dynamic_entry_size hdr.

(** The address of the string table, and its offset in the file as lines
    336 and 337 compute it. *)
Definition strtab_address_of : Z :=
  DYNAMIC_FIELD hdr (dynamic_entry data hdr dynamic_offset s) d_val.

Definition strtab_offset_of : Z :=
  let segment :=
    table_entry data (ELF_FIELD hdr e_phoff) (ELF_FIELD hdr e_phentsize) l in
  to_off_t (to_uint64 (PROGRAM_FIELD hdr segment p_offset
                       + to_uint64 (strtab_address_of - PROGRAM_FIELD hdr segment p_vaddr))).

(** The tables lie in the file at offsets that can be sought, and every
    RPATH or RUNPATH entry names a string that ends in the file. *)
Definition readable_image : Prop :=
  let phnum := ELF_FIELD hdr e_phnum in
  let size := ELF_FIELD hdr e_phentsize in
  let phoff := ELF_FIELD hdr e_phoff in
  let entry := table_entry data phoff size in
  let dyn := dynamic_entry data hdr dynamic_offset in
  (phnum < 0xffff /\ KNOWN_PHENTSIZE hdr size = true /\ seek_ok phoff
   /\ phoff + phnum * size <= Z.of_nat (length data))
  /\ (Z.of_nat k < phnum
      /\ PROGRAM_FIELD hdr (entry k) p_type = PT_DYNAMIC
      /\ forall j : nat, (j < k)%nat -> PROGRAM_FIELD hdr (entry j) p_type <> PT_DYNAMIC)
  /\ (PROGRAM_FIELD hdr (entry k) p_filesz mod dynamic_entry_size hdr = 0
      /\ forall j, 0 <= j < dynamic_count ->
           seek_ok (dynamic_offset + j * dynamic_entry_size hdr)
           /\ dynamic_offset + (j + 1) * dynamic_entry_size hdr <= Z.of_nat (length data))
  /\ (0 <= s < dynamic_count
      /\ DYNAMIC_FIELD hdr (dyn s) d_tag = DT_STRTAB
      /\ (forall j, 0 <= j < s -> DYNAMIC_FIELD hdr (dyn j) d_tag <> DT_STRTAB)
      /\ strtab_address_of <> UINT64_MAX)
  /\ (Z.of_nat l < phnum
      /\ entry_found hdr (entry l) PT_LOAD strtab_address_of = true
      /\ forall j : nat, (j < l)%nat ->
           entry_found hdr (entry j) PT_LOAD strtab_address_of = false)
  /\ (0 <= strtab_offset_of
      /\ forall j, 0 <= j < dynamic_count ->
           DYNAMIC_FIELD hdr (dyn j) d_tag = DT_RPATH
           \/ DYNAMIC_FIELD hdr (dyn j) d_tag = DT_RUNPATH ->
           seek_ok (strtab_offset_of + DYNAMIC_FIELD hdr (dyn j) d_val)
           /\ In Byte.x00
                 (drop (Z.to_nat (strtab_offset_of + DYNAMIC_FIELD hdr (dyn j) d_val)) data)).

(** The path lists of the entries tagged [type], merged into [xpaths] in
    the order of the dynamic section. *)
Definition paths_of (type : Z) (xpaths : option (list byte)) : option (list byte) :=
  merged_paths data hdr dynamic_offset strtab_offset_of type (Z.to_nat dynamic_count) 0 xpaths.

End Image.

(** ** Images and processes of the examples *)

(** The same process, with the system calls failing as [f] says and the
    allocations as [a] says. *)
Definition with_faults (f : list (option positive)) (a : list bool) (w : World) : World :=
  set_faults f (set_alloc_faults a w).

(** The status of [find_program_header] on the image [data], open on
    descriptor 3. *)
Definition locate (data : list byte) (type address : Z) : Z :=
  (find_program_header (world_of data) 3 (take 64 data)
                       (repeat Byte.x00 56) type address).1.1.

(** An image with one PT_LOAD segment, from 0x1000 to 0x3000, and one
    whose only segment is empty. *)
Definition one_load_segment : list byte :=
  elf64_header 62 64 56 1 ++ phdr64 PT_LOAD 0 0x1000 0x2000 0x2000.

Definition empty_load_segment : list byte :=
  elf64_header 62 64 56 1 ++ phdr64 PT_LOAD 0 0x1000 0 0.

(** A file that holds "/lib" and its terminator. *)
Definition lib_file : list byte := bytes_of "/lib" ++ [Byte.x00].

(** An image with the RUNPATH entries "/usr/lib" and "/lib", in that
    order: a PT_LOAD segment that maps the file at 0x1000, the dynamic
    section at offset 176 and the string table at offset 224. *)
Definition two_runpaths : list byte :=
  elf64_header 62 64 56 2
  ++ phdr64 PT_LOAD 0 0x1000 0x200 0x200
  ++ phdr64 PT_DYNAMIC 176 0x10b0 48 48
  ++ dyn64 DT_STRTAB 0x10e0 ++ dyn64 DT_RUNPATH 0 ++ dyn64 DT_RUNPATH 9
  ++ bytes_of "/usr/lib" ++ [Byte.x00] ++ bytes_of "/lib" ++ [Byte.x00].

(** An image whose DT_STRTAB entry gives the address 0x9000, which the
    only PT_LOAD segment (0x1000 to 0x1200) does not contain; the DT_RPATH
    entry has the value 32, and "/opt/lib" lies at offset 208. *)
Definition stray_strtab : list byte :=
  elf64_header 62 64 56 2
  ++ phdr64 PT_LOAD 0 0x1000 0x200 0x200
  ++ phdr64 PT_DYNAMIC 176 0x9000 32 32
  ++ dyn64 DT_STRTAB 0x9000 ++ dyn64 DT_RPATH 32
  ++ bytes_of "/opt/lib" ++ [Byte.x00].


(** An image without a PT_DYNAMIC entry, and one whose dynamic section
    has no DT_STRTAB entry. *)
Definition static_image : list byte :=
  elf64_header 62 64 56 1 ++ phdr64 PT_LOAD 0 0x1000 0x200 0x200.

Definition no_strtab : list byte :=
  elf64_header 62 64 56 2
  ++ phdr64 PT_LOAD 0 0x1000 0x200 0x200
  ++ phdr64 PT_DYNAMIC 176 0x10b0 16 16
  ++ dyn64 DT_RPATH 0.

(** An image that announces 0xffff program headers, and [two_runpaths]
    cut in the middle of its first program header. *)
Definition big_table : list byte :=
  elf64_header 62 64 56 0xffff ++ phdr64 PT_LOAD 0 0x1000 0x200 0x200.

Definition cut_table : list byte := take 100 two_runpaths.

(** A text file of 70 bytes. *)
Definition motd : list byte :=
  bytes_of "Welcome. This file is a plain text file: it is not an ELF image at all".

(** A process that can open [two_runpaths] as "/bin/true" and [motd] as
    "/etc/motd". *)
Definition host_world : World :=
  mkWorld (<[ "/etc/motd"%string := motd ]> {[ "/bin/true"%string := two_runpaths ]})
          standard_fds 0 [] [] [] [] [] (-1).

(** A tracee under emulation, and the machines of an x86_64 host. *)
Definition host_tracee : Tracee := mkTracee (Some ["qemu-arm"%string]) 0.

Definition x86_64_machines : list Z := [62; 3; 6; 0].

(** ** Vocabulary of the further properties *)

(** From [w] to [w'] nothing happened to the files and to the descriptors
    but a move of the file offset of [fd]: the same files exist, the other
    descriptors are as they were, and [fd] is open on the same bytes (or
    not open, as before). *)
Definition moved_only (fd : Z) (w w' : World) : Prop :=
  fs w' = fs w
  /\ (forall fd', fd' <> fd -> fd_lookup w' fd' = fd_lookup w fd')
  /\ of_data <$> fd_lookup w' fd = of_data <$> fd_lookup w fd.

(** The same files exist and every descriptor is what it was. *)
Definition same_descriptors (w w' : World) : Prop :=
  fs w' = fs w /\ forall fd, fd_lookup w' fd = fd_lookup w fd.

(** The bytes of a C string: none is NUL. *)
Definition no_nul (s : list byte) : Prop := Forall (fun c => c <> Byte.x00) s.

(** An accumulator is NULL or a C string. *)
Definition c_string_or_null (xpaths : option (list byte)) : Prop :=
  match xpaths with
  | None => True
  | Some s => no_nul s
  end.

(** [xpaths'] holds what [xpaths] held, and maybe more after it. *)
Definition extends (xpaths xpaths' : option (list byte)) : Prop :=
  match xpaths with
  | None => True
  | Some old => exists more, xpaths' = Some (old ++ more)
  end.

(** The process after a change of its environment. *)
Definition set_env (v : list (string * string)) (w : World) : World :=
  mkWorld (fs w) (fds w) (errno w) (faults w) (alloc_faults w) (uninit w)
          (notices w) v (force_foreign w).

(** An image whose dynamic section has 20 bytes, which is no multiple of
    the size of an entry, and one whose DT_STRTAB entry has the value
    [2^64 - 1], before a DT_RPATH entry that names "/lib". *)
Definition odd_dynamic : list byte :=
  elf64_header 62 64 56 1
  ++ phdr64 PT_DYNAMIC 120 0x1078 20 20
  ++ dyn64 DT_RPATH 0 ++ bytes_of "/lib".

Definition strtab_all_ones : list byte :=
  elf64_header 62 64 56 2
  ++ phdr64 PT_LOAD 0 0x1000 0x200 0x200
  ++ phdr64 PT_DYNAMIC 176 0x10b0 32 32
  ++ dyn64 DT_STRTAB UINT64_MAX ++ dyn64 DT_RPATH 0
  ++ bytes_of "/lib" ++ [Byte.x00].


(** A 64-bit image of 2 GiB and 56 bytes whose program header table, of
    one PT_LOAD entry, lies at offset [2^31], after the header and zeros. *)
Definition far_image : list byte :=
  elf64_header 62 (2 ^ 31) 56 1
  ++ repeat Byte.x00 (Z.to_nat (2 ^ 31 - 64))
  ++ phdr64 PT_LOAD 0 0x1000 0x200 0x200.




(** * Proofs *)

(** ** Integers and fields *)

Lemma to_signed_small n z : 0 < n -> 0 <= z < 2 ^ (n - 1) -> to_signed n z = z.
Proof.
  intros Hn Hz. unfold to_signed.
  assert (2 ^ n = 2 * 2 ^ (n - 1)) as E.
  { rewrite <- Z.pow_succ_r by lia. f_equal. lia. }
  rewrite Z.mod_small by lia. lia.
Qed.

Lemma to_uint64_small z : 0 <= z <= UINT64_MAX -> to_uint64 z = z.
Proof. unfold to_uint64, UINT64_MAX. intros. apply Z.mod_small. lia. Qed.

Lemma field_bound buf offset size : 0 <= field buf offset size < 2 ^ (8 * Z.of_nat size).
Proof.
  unfold field.
  pose proof (le_combine_bound (take size (drop offset buf))) as [H0 H1].
  split; [exact H0|].
  eapply Z.lt_le_trans; [exact H1|].
  apply Z.pow_le_mono_r; [lia|].
  rewrite length_take. lia.
Qed.

Lemma PROGRAM_FIELD_range hdr ph name : 0 <= PROGRAM_FIELD hdr ph name <= UINT64_MAX.
Proof.
  unfold PROGRAM_FIELD, UINT64_MAX.
  destruct (IS_CLASS64 hdr), name; simpl;
    match goal with |- context [field ?b ?o ?s] => pose proof (field_bound b o s) as H end;
    simpl in H; lia.
Qed.

Lemma ELF_FIELD_range hdr name : 0 <= ELF_FIELD hdr name <= UINT64_MAX.
Proof.
  unfold ELF_FIELD, UINT64_MAX.
  destruct (IS_CLASS64 hdr), name; simpl;
    match goal with |- context [field ?b ?o ?s] => pose proof (field_bound b o s) as H end;
    simpl in H; lia.
Qed.

Lemma field_store dst src offset size :
  (offset + size <= length src)%nat ->
  field (store dst src) offset size = field src offset size.
Proof.
  intros H. unfold field, store.
  rewrite drop_app_le by lia.
  rewrite take_app_le; [reflexivity|]. rewrite length_drop. lia.
Qed.

(** ** The descriptor table *)

Lemma fd_lookup_insert w fd fd' x :
  0 <= fd ->
  fd_lookup (set_fds (<[Z.to_nat fd := x]> (fds w)) w) fd' =
  if decide (fd' = fd /\ is_Some (fds w !! Z.to_nat fd)) then x else fd_lookup w fd'.
Proof.
  intros Hfd. unfold fd_lookup. simpl fds.
  destruct (Z.ltb_spec fd' 0) as [Hneg|Hpos].
  { destruct (decide _) as [[-> _]|_]; [lia|reflexivity]. }
  rewrite list_lookup_insert.
  destruct (decide (Z.to_nat fd = Z.to_nat fd' /\ _)) as [[He Hl]|Hn].
  - assert (fd' = fd) as -> by lia.
    rewrite decide_True; [reflexivity|].
    split; [reflexivity|]. apply lookup_lt_is_Some. exact Hl.
  - rewrite decide_False; [reflexivity|].
    intros [-> Hs]. apply Hn. split; [reflexivity|].
    apply lookup_lt_is_Some. exact Hs.
Qed.

Lemma fd_lookup_Some_inv w fd file :
  fd_lookup w fd = Some file -> 0 <= fd /\ fds w !! Z.to_nat fd = Some (Some file).
Proof.
  unfold fd_lookup. destruct (Z.ltb_spec fd 0); [discriminate|].
  destruct (fds w !! Z.to_nat fd) as [[f|]|]; simpl; intros [= ->]. auto.
Qed.

Lemma lowest_free_free (t : list (option OpenFile)) :
  mjoin (t !! lowest_free t) = None.
Proof. induction t as [|[f|] t IH]; simpl; auto. Qed.

Lemma install_lookup (t : list (option OpenFile)) f (i : nat) :
  mjoin (install t f !! i) = if decide (i = lowest_free t) then Some f else mjoin (t !! i).
Proof.
  unfold install. pose proof (lowest_free_free t) as Hfree.
  destruct (Nat.ltb_spec (lowest_free t) (length t)) as [Hlt|Hge].
  - rewrite list_lookup_insert.
    destruct (decide (i = lowest_free t)) as [->|Hne].
    + rewrite decide_True by auto. reflexivity.
    + rewrite decide_False; [reflexivity|]. intros [? _]. congruence.
  - assert (lowest_free t = length t) as Hl.
    { clear -Hge. induction t as [|[?|] t IH]; simpl in *; lia. }
    destruct (decide (i = lowest_free t)) as [->|Hne].
    + rewrite Hl, lookup_app_r, Nat.sub_diag by lia. reflexivity.
    + rewrite lookup_app.
      destruct (t !! i) eqn:E; [reflexivity|].
      apply lookup_ge_None in E.
      destruct (i - length t)%nat eqn:E'; [lia|]. reflexivity.
Qed.

(** What the system calls do to the descriptor table. *)

Lemma open_fd_lookup w path fd w1 fd' :
  open w path = (fd, w1) -> 0 <= fd ->
  fd_lookup w fd = None
  /\ (exists data, fs w !! path = Some data /\ fd_lookup w1 fd = Some (mkOpenFile data 0))
  /\ (fd' <> fd -> fd_lookup w1 fd' = fd_lookup w fd').
Proof.
  unfold open, next_fault. intros H Hfd.
  assert (forall w0, fds w0 = fds w -> fs w0 = fs w ->
            match fs w0 !! path with
            | Some data => (Z.of_nat (lowest_free (fds w0)),
                            set_fds (install (fds w0) (mkOpenFile data 0)) w0)
            | None => (-1, set_errno ENOENT w0)
            end = (fd, w1) ->
            fd_lookup w fd = None
            /\ (exists data, fs w !! path = Some data
                             /\ fd_lookup w1 fd = Some (mkOpenFile data 0))
            /\ (fd' <> fd -> fd_lookup w1 fd' = fd_lookup w fd')) as Hcore.
  { intros w0 Hfds Hfs H0. rewrite Hfs, Hfds in H0.
    destruct (fs w !! path) as [data|]; [|injection H0 as <- _; lia].
    injection H0 as <- <-.
    unfold fd_lookup. simpl fds.
    destruct (Z.ltb_spec (Z.of_nat (lowest_free (fds w))) 0); [lia|].
    rewrite Nat2Z.id. split; [apply lowest_free_free|]. split.
    - exists data. split; [reflexivity|]. rewrite install_lookup, decide_True by reflexivity.
      reflexivity.
    - intros Hne. destruct (Z.ltb_spec fd' 0); [reflexivity|].
      rewrite install_lookup, decide_False by lia. reflexivity. }
  destruct (faults w) as [|[e|] rest].
  - apply (Hcore w); auto.
  - injection H as <- _. lia.
  - apply (Hcore (set_faults rest w)); auto.
Qed.

Lemma next_fault_fds w : fds (next_fault w).2 = fds w.
Proof. unfold next_fault. destruct (faults w); reflexivity. Qed.

Lemma fd_lookup_next_fault w fd : fd_lookup (next_fault w).2 fd = fd_lookup w fd.
Proof. unfold fd_lookup. rewrite next_fault_fds. reflexivity. Qed.

Lemma file_bytes_length data pos count :
  (length (file_bytes data pos count) <= Z.to_nat count)%nat.
Proof.
  unfold file_bytes. destruct (_ || _); simpl; [lia|]. rewrite length_take. lia.
Qed.

(** The two outcomes of read(2). *)
Lemma read_inv w fd count n got w1 :
  read w fd count = (n, got, w1) ->
  (n = -1 /\ got = [] /\ fds w1 = fds w /\ 0 < errno w1)
  \/ (exists file,
        fd_lookup w fd = Some file
        /\ got = file_bytes (of_data file) (of_pos file) count
        /\ n = Z.of_nat (length got)
        /\ w1 = set_fds (<[Z.to_nat fd := Some (mkOpenFile (of_data file) (of_pos file + n))]>
                           (fds w)) (next_fault w).2).
Proof.
  unfold read. destruct (next_fault w) as [f w0] eqn:E.
  assert (w0 = (next_fault w).2) as -> by (rewrite E; reflexivity).
  destruct f as [e|].
  - intros [= <- <- <-]. left. rewrite <- (next_fault_fds w). simpl. auto with lia.
  - rewrite fd_lookup_next_fault, next_fault_fds.
    destruct (fd_lookup w fd) as [file|].
    + intros [= <- <- <-]. right. exists file. auto.
    + intros [= <- <- <-]. left. rewrite <- (next_fault_fds w). simpl.
      unfold EBADF. auto with lia.
Qed.

Lemma read_fd_lookup w fd count status got w1 fd' :
  read w fd count = (status, got, w1) ->
  (fd' <> fd -> fd_lookup w1 fd' = fd_lookup w fd')
  /\ (is_Some (fd_lookup w fd) -> is_Some (fd_lookup w1 fd)).
Proof.
  intros H. apply read_inv in H as [(_ & _ & Hfds & _)|(file & Hf & _ & _ & ->)].
  - unfold fd_lookup. rewrite Hfds. auto.
  - apply fd_lookup_Some_inv in Hf as [Hfd Hf].
    rewrite <- (next_fault_fds w), !fd_lookup_insert, !fd_lookup_next_fault by assumption.
    rewrite next_fault_fds. split.
    + intros Hne. rewrite decide_False by tauto. reflexivity.
    + intros _. rewrite decide_True; [eauto|]. rewrite Hf. eauto.
Qed.

Lemma read_count w fd count n got w1 :
  read w fd count = (n, got, w1) -> 0 <= count ->
  n <= count /\ (length got <= Z.to_nat count)%nat.
Proof.
  intros H Hc. apply read_inv in H as [(-> & -> & _)|(file & _ & -> & -> & _)].
  - simpl. lia.
  - pose proof (file_bytes_length (of_data file) (of_pos file) count). lia.
Qed.

Lemma close_fd_lookup w fd ret w1 fd' :
  close w fd = (ret, w1) ->
  fd_lookup w1 fd' = if decide (fd' = fd) then None else fd_lookup w fd'.
Proof.
  unfold close. intros H.
  destruct (fd_lookup w fd) as [file|] eqn:E.
  - injection H as _ <-. apply fd_lookup_Some_inv in E as [Hfd E].
    rewrite fd_lookup_insert by assumption.
    destruct (decide (fd' = fd)) as [->|Hne].
    + rewrite decide_True; [reflexivity|]. rewrite E. eauto.
    + rewrite decide_False by tauto. reflexivity.
  - injection H as _ <-. destruct (decide (fd' = fd)) as [->|Hne].
    + exact E.
    + reflexivity.
Qed.

(** ** [open_elf] *)

Lemma check_elf_header_spec status elf_header :
  0 <= status ->
  (check_elf_header status elf_header = 0
   /\ sizeof_ElfHeader <= status /\ valid_elf_header elf_header)
  \/ (check_elf_header status elf_header = - ENOEXEC
      /\ ~ (sizeof_ElfHeader <= status /\ valid_elf_header elf_header)).
Proof.
  intros Hs. unfold check_elf_header, valid_elf_header, IS_CLASS32, IS_CLASS64.
  destruct (Z.ltb_spec status sizeof_ElfHeader); simpl; [right; split; [reflexivity|lia]|].
  destruct (Z.eqb_spec (ELF_IDENT elf_header 0) 127); simpl; [|right; split; [reflexivity|tauto]].
  destruct (Z.eqb_spec (ELF_IDENT elf_header 1) 69); simpl; [|right; split; [reflexivity|tauto]].
  destruct (Z.eqb_spec (ELF_IDENT elf_header 2) 76); simpl; [|right; split; [reflexivity|tauto]].
  destruct (Z.eqb_spec (ELF_IDENT elf_header 3) 70); simpl; [|right; split; [reflexivity|tauto]].
  destruct (Z.eqb_spec (ELF_CLASS elf_header) 1); simpl; [left; tauto|].
  destruct (Z.eqb_spec (ELF_CLASS elf_header) 2); simpl; [left; tauto|].
  right; split; [reflexivity|tauto].
Qed.

(** C6: once the file is open, [open_elf] fails with [ENOEXEC] when fewer
    bytes than the header has were read, when the first four bytes are not
    0x7F 'E' 'L' 'F', and when the class is neither 1 (32-bit) nor 2
    (64-bit), and with [-errno] when the read fails; whenever it fails
    after the open, the descriptor is closed and the table of descriptors
    is as before the call.  When the read gives a whole header with the
    magic number and a known class, [open_elf] succeeds: it returns the
    descriptor that open(2) gave, still open, and the header read is in
    the caller's buffer.  These are the only two outcomes. *)
Theorem open_elf_spec w t_path elf_header0 fd w1 n got w2 :
  open w t_path = (fd, w1) -> 0 <= fd ->
  read w1 fd sizeof_ElfHeader = (n, got, w2) ->
  let elf_header := store elf_header0 got in
  let '(status, elf_header', w') := open_elf w t_path elf_header0 in
  elf_header' = elf_header
  /\ (0 <= n -> n < sizeof_ElfHeader -> status = - ENOEXEC)
  /\ (0 <= n -> ~ (ELF_IDENT elf_header 0 = 0x7f /\ ELF_IDENT elf_header 1 = 69
                   /\ ELF_IDENT elf_header 2 = 76 /\ ELF_IDENT elf_header 3 = 70) ->
      status = - ENOEXEC)
  /\ (0 <= n -> ELF_CLASS elf_header <> 1 -> ELF_CLASS elf_header <> 2 ->
      status = - ENOEXEC)
  /\ (n < 0 -> status = - errno w2 /\ status < 0)
  /\ (n = sizeof_ElfHeader -> valid_elf_header elf_header ->
      status = fd /\ w' = w2 /\ is_Some (fd_lookup w' fd))
  /\ (status < 0 ->
      fd_lookup w' fd = None /\ forall fd', fd_lookup w' fd' = fd_lookup w fd')
  /\ (0 <= status ->
      status = fd /\ w' = w2 /\ n = sizeof_ElfHeader /\ valid_elf_header elf_header
      /\ is_Some (fd_lookup w' fd)).
Proof.
  intros Ho Hfd Hr elf_header.
  unfold open_elf. rewrite Ho.
  destruct (Z.ltb_spec fd 0) as [|_]; [lia|].
  rewrite Hr. fold elf_header.
  pose proof (fun fd' => open_fd_lookup w t_path fd w1 fd' Ho Hfd) as Hopen.
  pose proof (fun fd' => read_fd_lookup w1 fd _ n got w2 fd' Hr) as Hread.
  assert (forall w', (close w2 fd).2 = w' ->
            fd_lookup w' fd = None
            /\ forall fd', fd_lookup w' fd' = fd_lookup w fd') as Hclosed.
  { intros w' Hc.
    assert (forall fd', fd_lookup w' fd' = fd_lookup w fd') as Hall.
    { intros fd'. destruct (close w2 fd) as [r w3] eqn:Ec. simpl in Hc. subst w3.
      rewrite (close_fd_lookup _ _ _ _ fd' Ec).
      destruct (decide (fd' = fd)) as [->|Hne].
      - symmetry. apply (Hopen fd).
      - rewrite (proj1 (Hread fd')) by assumption. apply (Hopen fd'). assumption. }
    split; [|exact Hall]. rewrite Hall. apply (Hopen fd). }
  assert (is_Some (fd_lookup w2 fd)) as Hstill.
  { apply (proj2 (Hread fd)). destruct (Hopen fd) as (_ & (data & _ & ->) & _). eauto. }
  pose proof (read_count w1 fd _ n got w2 Hr ltac:(discriminate)) as [Hn64 _].
  change sizeof_ElfHeader with 64 in Hn64.
  destruct (Z.ltb_spec n 0) as [Hn|Hn].
  - (* the read failed *)
    assert (0 < errno w2) as He.
    { apply read_inv in Hr as [(_ & _ & _ & He)|(file & _ & _ & -> & _)]; [exact He|lia]. }
    destruct (Z.ltb_spec (- errno w2) 0) as [_|?]; [|lia].
    destruct (close w2 fd) as [r w3] eqn:Ec.
    split; [reflexivity|]. do 3 (split; [intros; lia|]).
    split; [intros _; split; [reflexivity|lia]|].
    split; [unfold sizeof_ElfHeader; intros; lia|].
    split; [|intros; lia].
    intros _. apply Hclosed. reflexivity.
  - destruct (check_elf_header_spec n elf_header Hn) as [(-> & Hsz & Hv)|(-> & Hbad)].
    + simpl. split; [reflexivity|].
      unfold sizeof_ElfHeader in *.
      destruct Hv as (H0 & H1 & H2 & H3 & Hcl).
      split; [intros; lia|]. split; [tauto|]. split; [intros; lia|].
      split; [intros; lia|].
      split; [intros _ _; split; [reflexivity|]; split; [reflexivity|exact Hstill]|].
      split; [intros; lia|]. intros _.
      split; [reflexivity|]. split; [reflexivity|]. split; [lia|].
      split; [unfold valid_elf_header; tauto|].
      exact Hstill.
    + change (- ENOEXEC <? 0) with true. cbv iota.
      destruct (close w2 fd) as [r w3] eqn:Ec.
      split; [reflexivity|]. do 3 (split; [intros; reflexivity|]).
      split; [intros; lia|].
      split; [intros Hfull Hv; exfalso; apply Hbad; split; [lia|exact Hv]|].
      split; [|unfold ENOEXEC; intros; lia].
      intros _. apply Hclosed. reflexivity.
Qed.

Lemma open_elf_spec_witness :
  (let '(status, elf_header', w') := open_elf host_world "/bin/true" (repeat Byte.x00 64) in
   status = 3 /\ elf_header' = take 64 two_runpaths /\ is_Some (fd_lookup w' 3))
  /\ (let '(status, elf_header', w') := open_elf host_world "/etc/motd" (repeat Byte.x00 64) in
      status = - ENOEXEC
      /\ fd_lookup w' 3 = None
      /\ forall fd', fd_lookup w' fd' = fd_lookup host_world fd').
Proof.
  split.
  - pose proof (open_elf_spec host_world "/bin/true" (repeat Byte.x00 64)
                  3 (open host_world "/bin/true").2
                  64 (take 64 two_runpaths)
                  (read (open host_world "/bin/true").2 3 64).2
                  ltac:(vm_compute; reflexivity) ltac:(vm_compute; discriminate)
                  ltac:(vm_compute; reflexivity)) as H.
    destruct (open_elf host_world "/bin/true" (repeat Byte.x00 64)) as [[status h] w'].
    destruct H as (H1 & _ & _ & _ & _ & Hok & _).
    destruct Hok as (Hs & _ & Hopen).
    + reflexivity.
    + vm_compute. repeat split; auto.
    + split; [exact Hs|]. split; [exact H1|]. exact Hopen.
  - pose proof (open_elf_spec host_world "/etc/motd" (repeat Byte.x00 64)
                  3 (open host_world "/etc/motd").2
                  64 (take 64 motd)
                  (read (open host_world "/etc/motd").2 3 64).2
                  ltac:(vm_compute; reflexivity) ltac:(vm_compute; discriminate)
                  ltac:(vm_compute; reflexivity)) as H.
    destruct (open_elf host_world "/etc/motd" (repeat Byte.x00 64)) as [[status h] w'].
    destruct H as (_ & _ & Hmagic & _ & _ & _ & Hclosed & _).
    assert (status = - ENOEXEC) as Hs.
    { apply Hmagic; [discriminate|]. vm_compute. intros (H & _). discriminate. }
    split; [exact Hs|]. apply Hclosed. rewrite Hs. reflexivity.
Defined.

(** ** Address containment *)

Lemma entry_found_address hdr ph type address :
  address <> UINT64_MAX ->
  entry_found hdr ph type address = true <->
  PROGRAM_FIELD hdr ph p_type = type
  /\ PROGRAM_FIELD hdr ph p_vaddr
     < to_uint64 (PROGRAM_FIELD hdr ph p_vaddr + PROGRAM_FIELD hdr ph p_memsz)
  /\ PROGRAM_FIELD hdr ph p_vaddr <= address
  /\ address <= to_uint64 (PROGRAM_FIELD hdr ph p_vaddr + PROGRAM_FIELD hdr ph p_memsz).
Proof.
  intros Haddr. unfold entry_found.
  destruct (Z.eqb_spec (PROGRAM_FIELD hdr ph p_type) type) as [Ht|Ht].
  - destruct (Z.eqb_spec address UINT64_MAX) as [|_]; [contradiction|].
    cbv zeta. rewrite !andb_true_iff, Z.ltb_lt, !Z.leb_le. tauto.
  - split; [discriminate|]. intros [? _]. contradiction.
Qed.

Lemma find_program_header_loop_step n w fd hdr phentsize ph type address got w1 :
  read w fd phentsize = (phentsize, got, w1) ->
  find_program_header_loop (S n) w fd hdr phentsize ph type address =
  if entry_found hdr (store ph got) type address
  then (1, store ph got, w1)
  else find_program_header_loop n w1 fd hdr phentsize (store ph got) type address.
Proof.
  intros Hr. simpl. rewrite Hr. rewrite Z.eqb_refl. reflexivity.
Qed.

(** C3: when [find_program_header] has read an entry and is asked for an
    address [A] (not the wildcard), it reports that entry exactly when the
    entry has the requested type, [vaddr < end] and [vaddr <= A <= end], with
    [end = vaddr + memsz] computed in [uint64_t]; otherwise the search goes
    on with the next entry.  Both ends match, and an entry with [memsz = 0]
    matches no address. *)
Theorem find_program_header_containment
    n w fd hdr phentsize ph0 type address got w1 :
  address <> UINT64_MAX ->
  read w fd phentsize = (phentsize, got, w1) ->
  let ph := store ph0 got in
  let vaddr := PROGRAM_FIELD hdr ph p_vaddr in
  let memsz := PROGRAM_FIELD hdr ph p_memsz in
  let end_ := (vaddr + memsz) mod 2 ^ 64 in
  let contains :=
    PROGRAM_FIELD hdr ph p_type = type /\ vaddr < end_ /\ vaddr <= address <= end_ in
  let this_entry := (1, ph, w1) in
  let next_entries := find_program_header_loop n w1 fd hdr phentsize ph type address in
  (entry_found hdr ph type address = true <-> contains)
  /\ (contains ->
      find_program_header_loop (S n) w fd hdr phentsize ph0 type address = this_entry)
  /\ (~ contains ->
      find_program_header_loop (S n) w fd hdr phentsize ph0 type address = next_entries)
  /\ (memsz = 0 -> ~ contains)
  /\ locate one_load_segment PT_LOAD 0x1000 = 1
  /\ locate one_load_segment PT_LOAD 0x3000 = 1
  /\ locate one_load_segment PT_LOAD 0x3001 = 0
  /\ locate one_load_segment PT_LOAD 0xfff = 0
  /\ locate empty_load_segment PT_LOAD 0x1000 = 0.
Proof.
  intros Haddr Hr ph vaddr memsz end_ contains this_entry next_entries.
  pose proof (entry_found_address hdr ph type address Haddr) as Hiff.
  fold vaddr memsz in Hiff. unfold to_uint64 in Hiff. fold end_ in Hiff.
  assert (entry_found hdr ph type address = true <-> contains) as Hc
    by (unfold contains; rewrite Hiff; tauto).
  pose proof (find_program_header_loop_step n w fd hdr phentsize ph0 type address got w1 Hr)
    as Hstep. fold ph in Hstep.
  split; [exact Hc|].
  split.
  { intros H. apply Hc in H. rewrite Hstep, H. reflexivity. }
  split.
  { intros H. rewrite Hstep. destruct (entry_found hdr ph type address); [|reflexivity].
    exfalso. apply H, Hc. reflexivity. }
  split.
  { intros Hz (_ & Hlt & _).
    unfold end_ in Hlt. rewrite Hz, Z.add_0_r in Hlt.
    pose proof (PROGRAM_FIELD_range hdr ph p_vaddr) as Hv. fold vaddr in Hv.
    unfold UINT64_MAX in Hv. rewrite Z.mod_small in Hlt by lia. lia. }
  repeat split; vm_compute; reflexivity.
Qed.

Lemma find_program_header_containment_witness :
  find_program_header_loop
    1 (world_of (phdr64 PT_LOAD 0 0x1000 0x2000 0x2000)) 3 (elf64_header 62 64 56 1) 56
    (repeat Byte.x00 56) PT_LOAD 0x3000
  = (1, phdr64 PT_LOAD 0 0x1000 0x2000 0x2000,
     (read (world_of (phdr64 PT_LOAD 0 0x1000 0x2000 0x2000)) 3 56).2).
Proof.
  apply (find_program_header_containment
           0 (world_of (phdr64 PT_LOAD 0 0x1000 0x2000 0x2000)) 3
           (elf64_header 62 64 56 1) 56 (repeat Byte.x00 56) PT_LOAD 0x3000
           (phdr64 PT_LOAD 0 0x1000 0x2000 0x2000)).
  - vm_compute. discriminate.
  - vm_compute. reflexivity.
  - vm_compute. repeat split; discriminate.
Defined.

(** ** Reading a file when the operating system raises no error *)

Lemma seek_ok_small offset : 0 <= offset < 2 ^ 31 -> seek_ok offset.
Proof.
  intros H. split; [lia|]. unfold to_int. rewrite to_signed_small; simpl; lia.
Qed.

Lemma file_bytes_bytes_at data pos count :
  0 <= pos -> file_bytes data pos count = bytes_at data pos count.
Proof.
  intros Hp. unfold file_bytes, bytes_at.
  destruct (Z.ltb_spec pos 0); [lia|]. simpl.
  destruct (Z.leb_spec (Z.of_nat (length data)) pos); [|reflexivity].
  rewrite drop_ge by lia. rewrite take_nil. reflexivity.
Qed.

Lemma bytes_at_length data offset size :
  0 <= offset -> 0 <= size -> offset + size <= Z.of_nat (length data) ->
  Z.of_nat (length (bytes_at data offset size)) = size.
Proof.
  intros. unfold bytes_at. rewrite length_take, length_drop. lia.
Qed.

Lemma at_offset_set w fd data pos data' pos' :
  at_offset w fd data pos ->
  at_offset (set_fds (<[Z.to_nat fd := Some (mkOpenFile data' pos')]> (fds w)) w) fd data' pos'.
Proof.
  intros [Hf Hl]. split; [exact Hf|].
  apply fd_lookup_Some_inv in Hl as [Hfd Hl].
  rewrite fd_lookup_insert by assumption. rewrite decide_True; [reflexivity|].
  rewrite Hl. eauto.
Qed.

Lemma read_at w fd data pos count :
  at_offset w fd data pos -> 0 <= pos ->
  exists w1,
    read w fd count
    = (Z.of_nat (length (bytes_at data pos count)), bytes_at data pos count, w1)
    /\ at_offset w1 fd data (pos + Z.of_nat (length (bytes_at data pos count)))
    /\ alloc_faults w1 = alloc_faults w.
Proof.
  intros Hat Hp. pose proof Hat as [Hf Hl]. unfold read, next_fault. rewrite Hf, Hl. simpl.
  rewrite file_bytes_bytes_at by assumption.
  eexists. split; [reflexivity|]. split; [|reflexivity].
  apply (at_offset_set w fd data pos). exact Hat.
Qed.

Lemma lseek_at w fd data pos offset :
  at_offset w fd data pos -> seek_ok offset ->
  exists w1,
    lseek w fd (to_off_t offset) = (offset, w1)
    /\ at_offset w1 fd data offset
    /\ alloc_faults w1 = alloc_faults w.
Proof.
  intros Hat [Ho _]. pose proof Hat as [Hf Hl].
  unfold to_off_t. rewrite to_signed_small by (simpl; lia).
  unfold lseek, next_fault. rewrite Hf, Hl. simpl.
  destruct (Z.ltb_spec offset 0); [lia|].
  eexists. split; [reflexivity|]. split; [|reflexivity].
  apply (at_offset_set w fd data pos). exact Hat.
Qed.

(** ** [find_program_header] on a table that can be read *)

Lemma KNOWN_PHENTSIZE_inv hdr size :
  KNOWN_PHENTSIZE hdr size = true ->
  (IS_CLASS32 hdr = true /\ IS_CLASS64 hdr = false /\ size = 32)
  \/ (IS_CLASS32 hdr = false /\ IS_CLASS64 hdr = true /\ size = 56).
Proof.
  unfold KNOWN_PHENTSIZE, IS_CLASS32, IS_CLASS64, sizeof_ProgramHeader32, sizeof_ProgramHeader64.
  destruct (Z.eqb_spec (ELF_CLASS hdr) 1) as [E|E]; simpl.
  - rewrite E. simpl. destruct (Z.eqb_spec size 32); [auto|discriminate].
  - destruct (Z.eqb_spec (ELF_CLASS hdr) 2); simpl; [|discriminate].
    destruct (Z.eqb_spec size 56); [auto|discriminate].
Qed.

(** The fields of a program header lie in its first [e_phentsize] bytes. *)
Lemma PROGRAM_FIELD_store hdr size ph got name :
  KNOWN_PHENTSIZE hdr size = true -> Z.of_nat (length got) = size ->
  PROGRAM_FIELD hdr (store ph got) name = PROGRAM_FIELD hdr got name.
Proof.
  intros Hk Hl. unfold PROGRAM_FIELD.
  destruct (KNOWN_PHENTSIZE_inv _ _ Hk) as [(_ & -> & ->)|(_ & -> & ->)];
    destruct name; simpl; apply field_store; lia.
Qed.

Lemma entry_found_store hdr size ph got type address :
  KNOWN_PHENTSIZE hdr size = true -> Z.of_nat (length got) = size ->
  entry_found hdr (store ph got) type address = entry_found hdr got type address.
Proof.
  intros Hk Hl. unfold entry_found.
  rewrite !(PROGRAM_FIELD_store hdr size) by assumption. reflexivity.
Qed.

Lemma store_take ph got : take (length got) (store ph got) = got.
Proof. unfold store. apply take_app_length. Qed.

Section Table.

Variables (fd : Z) (data : list byte) (hdr : list byte).
Variables (phoff size : Z) (type address : Z).
Hypothesis known : KNOWN_PHENTSIZE hdr size = true.
Hypothesis phoff_pos : 0 <= phoff.

Lemma size_pos : 0 < size.
Proof. destruct (KNOWN_PHENTSIZE_inv _ _ known) as [(_ & _ & ->)|(_ & _ & ->)]; lia. Qed.

Lemma table_entry_length i :
  phoff + (Z.of_nat i + 1) * size <= Z.of_nat (length data) ->
  Z.of_nat (length (table_entry data phoff size i)) = size.
Proof.
  intros H. pose proof size_pos. apply bytes_at_length; nia.
Qed.

(** No entry from [i] on, [n] of them, ends the search: the loop reads
    them all and reports 0. *)
Lemma find_program_header_loop_none n : forall i w ph,
  at_offset w fd data (phoff + Z.of_nat i * size) ->
  phoff + (Z.of_nat i + Z.of_nat n) * size <= Z.of_nat (length data) ->
  (forall j, (i <= j < i + n)%nat -> entry_found hdr (table_entry data phoff size j) type address = false) ->
  exists ph' w',
    find_program_header_loop n w fd hdr size ph type address = (0, ph', w')
    /\ at_offset w' fd data (phoff + (Z.of_nat i + Z.of_nat n) * size)
    /\ (match n with
        | O => ph' = ph
        | S m => take (Z.to_nat size) ph' = table_entry data phoff size (i + m)
        end)
    /\ alloc_faults w' = alloc_faults w.
Proof.
  pose proof size_pos as Hsz.
  induction n as [|n IH]; intros i w ph Hat Hlen Hnone.
  - exists ph, w. simpl. rewrite Z.add_0_r. auto.
  - destruct (read_at w fd data _ size Hat ltac:(nia)) as (w1 & Hr & Hat1 & Ha1).
    fold (table_entry data phoff size i) in Hr, Hat1.
    assert (Z.of_nat (length (table_entry data phoff size i)) = size) as Hl by (apply table_entry_length; nia).
    rewrite Hl in Hr, Hat1.
    rewrite (find_program_header_loop_step _ _ _ _ _ _ _ _ _ _ Hr).
    rewrite (entry_found_store hdr size) by assumption.
    rewrite (Hnone i) by lia.
    destruct (IH (S i) w1 (store ph (table_entry data phoff size i)))
      as (ph' & w' & Hloop & Hat' & Hph & Ha').
    + replace (phoff + Z.of_nat (S i) * size) with (phoff + Z.of_nat i * size + size) by lia.
      exact Hat1.
    + nia.
    + intros j Hj. apply Hnone. lia.
    + exists ph', w'. split; [exact Hloop|]. split; [|split; [|congruence]].
      * replace (phoff + (Z.of_nat i + Z.of_nat (S n)) * size)
          with (phoff + (Z.of_nat (S i) + Z.of_nat n) * size) by lia. exact Hat'.
      * destruct n as [|m].
        -- subst ph'. rewrite Nat.add_0_r. rewrite <- Hl at 1. rewrite Nat2Z.id.
           apply store_take.
        -- rewrite Hph. f_equal. lia.
Qed.

(** Entry [k] is the first one from [i] on that ends the search: the loop
    reports 1 with that entry in [program_header]. *)
Lemma find_program_header_loop_first n : forall i k w ph,
  at_offset w fd data (phoff + Z.of_nat i * size) ->
  (i <= k < i + n)%nat ->
  phoff + (Z.of_nat k + 1) * size <= Z.of_nat (length data) ->
  entry_found hdr (table_entry data phoff size k) type address = true ->
  (forall j, (i <= j < k)%nat -> entry_found hdr (table_entry data phoff size j) type address = false) ->
  exists ph' w',
    find_program_header_loop n w fd hdr size ph type address = (1, ph', w')
    /\ at_offset w' fd data (phoff + (Z.of_nat k + 1) * size)
    /\ take (Z.to_nat size) ph' = table_entry data phoff size k
    /\ alloc_faults w' = alloc_faults w.
Proof.
  pose proof size_pos as Hsz.
  induction n as [|n IH]; intros i k w ph Hat Hk Hlen Hfound Hnone; [lia|].
  destruct (read_at w fd data _ size Hat ltac:(nia)) as (w1 & Hr & Hat1 & Ha1).
  fold (table_entry data phoff size i) in Hr, Hat1.
  assert (Z.of_nat (length (table_entry data phoff size i)) = size) as Hl by (apply table_entry_length; nia).
  rewrite Hl in Hr, Hat1.
  rewrite (find_program_header_loop_step _ _ _ _ _ _ _ _ _ _ Hr).
  rewrite (entry_found_store hdr size) by assumption.
  destruct (decide (k = i)) as [->|Hne].
  - rewrite Hfound. exists (store ph (table_entry data phoff size i)), w1.
    split; [reflexivity|]. split; [|split; [|exact Ha1]].
    + replace (phoff + (Z.of_nat i + 1) * size) with (phoff + Z.of_nat i * size + size) by lia.
      exact Hat1.
    + rewrite <- Hl at 1. rewrite Nat2Z.id. apply store_take.
  - rewrite (Hnone i) by lia. rewrite <- Ha1.
    apply (IH (S i) k w1); auto; try lia.
    + replace (phoff + Z.of_nat (S i) * size) with (phoff + Z.of_nat i * size + size) by lia.
      exact Hat1.
    + intros j Hj. apply Hnone. lia.
Qed.

End Table.

Lemma entry_found_wildcard hdr ph type :
  entry_found hdr ph type UINT64_MAX = (PROGRAM_FIELD hdr ph p_type =? type).
Proof. unfold entry_found. destruct (_ =? type); reflexivity. Qed.

(** The table stops short in entry [k], and no entry before it ends the
    search: the read of entry [k] is short and the loop reports ENOTSUP. *)
Lemma find_program_header_loop_short fd data hdr phoff size type address n :
  KNOWN_PHENTSIZE hdr size = true -> 0 <= phoff ->
  forall i k w ph,
  at_offset w fd data (phoff + Z.of_nat i * size) ->
  (i <= k < i + n)%nat ->
  phoff + Z.of_nat k * size <= Z.of_nat (length data)
                            < phoff + (Z.of_nat k + 1) * size ->
  (forall j, (i <= j < k)%nat ->
             entry_found hdr (table_entry data phoff size j) type address = false) ->
  exists ph' w',
    find_program_header_loop n w fd hdr size ph type address = (- ENOTSUP, ph', w').
Proof.
  intros known Hphoff. pose proof (size_pos hdr size known) as Hsz.
  induction n as [|n IH]; intros i k w ph Hat Hk Hlen Hnone; [lia|].
  destruct (read_at w fd data _ size Hat ltac:(nia)) as (w1 & Hr & Hat1 & _).
  fold (table_entry data phoff size i) in Hr, Hat1.
  destruct (decide (k = i)) as [->|Hne].
  - assert (Z.of_nat (length (table_entry data phoff size i)) < size) as Hshort.
    { unfold table_entry, bytes_at. rewrite length_take, length_drop. lia. }
    simpl. rewrite Hr.
    destruct (Z.eqb_spec (Z.of_nat (length (table_entry data phoff size i))) size); [lia|].
    simpl. destruct (Z.ltb_spec (Z.of_nat (length (table_entry data phoff size i))) 0); [lia|].
    eauto.
  - assert (Z.of_nat (length (table_entry data phoff size i)) = size) as Hl
      by (apply (table_entry_length _ hdr); auto; nia).
    rewrite Hl in Hr, Hat1.
    rewrite (find_program_header_loop_step _ _ _ _ _ _ _ _ _ _ Hr).
    rewrite (entry_found_store hdr size) by assumption.
    rewrite (Hnone i) by lia.
    apply (IH (S i) k w1); auto; try lia.
    + replace (phoff + Z.of_nat (S i) * size) with (phoff + Z.of_nat i * size + size) by lia.
      exact Hat1.
    + intros j Hj. apply Hnone. lia.
Qed.

(** What a read that does not return a whole entry makes of the loop. *)
Lemma find_program_header_loop_bad_read n w fd hdr size ph type address status got w1 :
  read w fd size = (status, got, w1) -> status <> size ->
  find_program_header_loop (S n) w fd hdr size ph type address
  = ((if status <? 0 then - errno w1 else - ENOTSUP), store ph got, w1).
Proof.
  intros Hr Hne. simpl. rewrite Hr.
  destruct (Z.eqb_spec status size); [contradiction|]. reflexivity.
Qed.

(** What [find_program_header] does when the seek to the table is taken
    for a success ([seek_ok]): it returns [-ENOTSUP] without a system call
    when [e_phnum >= 0xffff] or [e_phentsize] is not the size of the
    class.  Otherwise, when the table can be sought and read and the
    address is the wildcard, it returns 1 with the first entry of the
    requested type in [program_header], and 0, which no error equals, when
    the table has no entry of that type.  A read that returns fewer bytes
    than an entry has yields [-ENOTSUP] (so does a table that the file
    cuts short), and a negative read yields [-errno]. *)
Theorem find_program_header_spec w fd hdr ph type :
  let phnum := ELF_FIELD hdr e_phnum in
  let size := ELF_FIELD hdr e_phentsize in
  let phoff := ELF_FIELD hdr e_phoff in
  (0xffff <= phnum \/ KNOWN_PHENTSIZE hdr size = false ->
   forall address, exists w',
     find_program_header w fd hdr ph type address = (- ENOTSUP, ph, w')
     /\ fds w' = fds w /\ faults w' = faults w)
  /\ (phnum < 0xffff -> KNOWN_PHENTSIZE hdr size = true ->
      forall data pos, at_offset w fd data pos -> seek_ok phoff ->
      let entry := table_entry data phoff size in
      (forall k : nat,
          Z.of_nat k < phnum ->
          phoff + (Z.of_nat k + 1) * size <= Z.of_nat (length data) ->
          PROGRAM_FIELD hdr (entry k) p_type = type ->
          (forall j : nat, (j < k)%nat -> PROGRAM_FIELD hdr (entry j) p_type <> type) ->
          exists ph' w',
            find_program_header w fd hdr ph type UINT64_MAX = (1, ph', w')
            /\ take (Z.to_nat size) ph' = entry k)
      /\ (phoff + phnum * size <= Z.of_nat (length data) ->
          (forall j : nat, Z.of_nat j < phnum -> PROGRAM_FIELD hdr (entry j) p_type <> type) ->
          exists ph' w',
            find_program_header w fd hdr ph type UINT64_MAX = (0, ph', w'))
      /\ (forall k : nat,
          Z.of_nat k < phnum ->
          phoff + Z.of_nat k * size <= Z.of_nat (length data)
                                    < phoff + (Z.of_nat k + 1) * size ->
          (forall j : nat, (j < k)%nat -> PROGRAM_FIELD hdr (entry j) p_type <> type) ->
          exists ph' w',
            find_program_header w fd hdr ph type UINT64_MAX = (- ENOTSUP, ph', w')))
  /\ (forall n w0 address status got w1,
        read w0 fd size = (status, got, w1) -> status <> size ->
        find_program_header_loop (S n) w0 fd hdr size ph type address
        = ((if status <? 0 then - errno w1 else - ENOTSUP), store ph got, w1)).
Proof.
  intros phnum size phoff.
  split; [|split].
  - intros Hbad address. unfold find_program_header. fold phnum size.
    destruct (Z.leb_spec 0xffff phnum) as [Hn|Hn].
    + eexists. split; [reflexivity|]. split; reflexivity.
    + destruct Hbad as [?|Hk]; [lia|]. rewrite Hk. simpl.
      eexists. split; [reflexivity|]. split; reflexivity.
  - intros Hn Hk data pos Hat Hseek entry.
    pose proof (ELF_FIELD_range hdr e_phoff) as Hoff. fold phoff in Hoff.
    pose proof (ELF_FIELD_range hdr e_phnum) as Hnum. fold phnum in Hnum.
    destruct (lseek_at w fd data pos phoff Hat Hseek) as (w1 & Hl & Hat1 & _).
    assert (forall address,
              find_program_header w fd hdr ph type address
              = find_program_header_loop (Z.to_nat phnum) w1 fd hdr size ph type address) as Hfph.
    { intros address. unfold find_program_header. fold phnum size phoff.
      destruct (Z.leb_spec 0xffff phnum); [lia|]. rewrite Hk. simpl.
      rewrite Hl. destruct Hseek as [_ Hint].
      destruct (Z.ltb_spec (to_int phoff) 0); [lia|]. reflexivity. }
    assert (at_offset w1 fd data (phoff + Z.of_nat 0 * size)) as Hat0
      by (simpl; rewrite Z.add_0_r; exact Hat1).
    split; [|split].
    + intros k Hlt Hlen Hty Hnone. rewrite Hfph.
      destruct (find_program_header_loop_first fd data hdr phoff size type UINT64_MAX
                  Hk ltac:(lia) (Z.to_nat phnum) 0%nat k w1 ph Hat0)
        as (ph' & w' & Hloop & _ & Hph & _); try lia.
      * rewrite entry_found_wildcard. apply Z.eqb_eq. exact Hty.
      * intros j Hj. rewrite entry_found_wildcard. apply Z.eqb_neq, Hnone. lia.
      * eauto.
    + intros Hlen Hnone. rewrite Hfph.
      destruct (find_program_header_loop_none fd data hdr phoff size type UINT64_MAX
                  Hk ltac:(lia) (Z.to_nat phnum) 0%nat w1 ph Hat0)
        as (ph' & w' & Hloop & _).
      * rewrite Z2Nat.id by lia. exact Hlen.
      * intros j Hj. rewrite entry_found_wildcard. apply Z.eqb_neq, Hnone. lia.
      * eauto.
    + intros k Hlt Hlen Hnone. rewrite Hfph.
      apply (find_program_header_loop_short fd data hdr phoff size type UINT64_MAX
               (Z.to_nat phnum) Hk ltac:(lia) 0%nat k w1 ph Hat0); try lia.
      intros j Hj. rewrite entry_found_wildcard. apply Z.eqb_neq, Hnone. lia.
  - intros n w0 address status got w1. apply find_program_header_loop_bad_read.
Qed.

Lemma find_program_header_spec_witness :
  (exists ph' w',
     find_program_header (world_of two_runpaths) 3 (take 64 two_runpaths)
                         (repeat Byte.x00 56) PT_DYNAMIC UINT64_MAX = (1, ph', w')
     /\ take 56 ph' = phdr64 PT_DYNAMIC 176 0x10b0 48 48)
  /\ (exists ph' w',
        find_program_header (world_of static_image) 3 (take 64 static_image)
                            (repeat Byte.x00 56) PT_DYNAMIC UINT64_MAX = (0, ph', w'))
  /\ (exists ph' w',
        find_program_header (world_of cut_table) 3 (take 64 cut_table)
                            (repeat Byte.x00 56) PT_DYNAMIC UINT64_MAX = (- ENOTSUP, ph', w'))
  /\ (exists w',
        find_program_header (world_of big_table) 3 (take 64 big_table)
                            (repeat Byte.x00 56) PT_DYNAMIC UINT64_MAX
        = (- ENOTSUP, repeat Byte.x00 56, w')
        /\ fds w' = fds (world_of big_table) /\ faults w' = faults (world_of big_table)).
Proof.
  split; [|split; [|split]].
  - apply (proj1 (proj1 (proj2 (find_program_header_spec
                                  (world_of two_runpaths) 3 (take 64 two_runpaths)
                                  (repeat Byte.x00 56) PT_DYNAMIC))
                        ltac:(vm_compute; reflexivity) ltac:(vm_compute; reflexivity)
                        two_runpaths 0 ltac:(split; reflexivity)
                        ltac:(apply seek_ok_small; vm_compute; split; [discriminate|reflexivity]))
                 1%nat).
    + vm_compute. reflexivity.
    + vm_compute. discriminate.
    + vm_compute. reflexivity.
    + intros j Hj. assert (j = 0%nat) as -> by lia. vm_compute. discriminate.
  - apply (proj1 (proj2 (proj1 (proj2 (find_program_header_spec
                                  (world_of static_image) 3 (take 64 static_image)
                                  (repeat Byte.x00 56) PT_DYNAMIC))
                        ltac:(vm_compute; reflexivity) ltac:(vm_compute; reflexivity)
                        static_image 0 ltac:(split; reflexivity)
                        ltac:(apply seek_ok_small; vm_compute; split; [discriminate|reflexivity])))).
    + vm_compute. discriminate.
    + intros j Hj. assert (j = 0%nat) as ->.
      { change (ELF_FIELD (take 64 static_image) e_phnum) with 1 in Hj. lia. }
      vm_compute. discriminate.
  - apply (proj2 (proj2 (proj1 (proj2 (find_program_header_spec
                                  (world_of cut_table) 3 (take 64 cut_table)
                                  (repeat Byte.x00 56) PT_DYNAMIC))
                        ltac:(vm_compute; reflexivity) ltac:(vm_compute; reflexivity)
                        cut_table 0 ltac:(split; reflexivity)
                        ltac:(apply seek_ok_small; vm_compute; split; [discriminate|reflexivity])))
                 0%nat).
    + vm_compute. reflexivity.
    + vm_compute. split; [discriminate|reflexivity].
    + intros j Hj. lia.
  - apply (proj1 (find_program_header_spec
                    (world_of big_table) 3 (take 64 big_table)
                    (repeat Byte.x00 56) PT_DYNAMIC)).
    left. vm_compute. discriminate.
Defined.

(** ** A table at an offset from [2^31] on *)

(** Line 134 cuts the result of lseek(2) down to an [int]: an offset in
    [[2^31, 2^32)] is sought with success and taken for a failure. *)
Lemma find_program_header_int_seek w fd hdr ph type address data pos :
  ELF_FIELD hdr e_phnum < 0xffff ->
  KNOWN_PHENTSIZE hdr (ELF_FIELD hdr e_phentsize) = true ->
  at_offset w fd data pos ->
  2 ^ 31 <= ELF_FIELD hdr e_phoff < 2 ^ 32 ->
  exists w',
    find_program_header w fd hdr ph type address = (- errno w, ph, w')
    /\ at_offset w' fd data (ELF_FIELD hdr e_phoff)
    /\ errno w' = errno w.
Proof.
  intros Hnum Hknown [Hf Hfd] Hoff. unfold find_program_header.
  destruct (Z.leb_spec 0xffff (ELF_FIELD hdr e_phnum)); [lia|].
  rewrite Hknown. simpl negb. cbv iota.
  assert (to_off_t (ELF_FIELD hdr e_phoff) = ELF_FIELD hdr e_phoff) as ->.
  { apply to_signed_small; lia. }
  unfold lseek, next_fault. rewrite Hf, Hfd.
  destruct (Z.ltb_spec (ELF_FIELD hdr e_phoff) 0); [lia|].
  assert ((to_int (ELF_FIELD hdr e_phoff) <? 0) = true) as ->.
  { apply Z.ltb_lt. unfold to_int, to_signed.
    replace (ELF_FIELD hdr e_phoff + 2 ^ (32 - 1))
      with (ELF_FIELD hdr e_phoff - 2 ^ 31 + 1 * 2 ^ 32) by lia.
    rewrite Z.mod_add by lia. rewrite Z.mod_small by lia. lia. }
  eexists. split; [reflexivity|]. split; [|reflexivity].
  apply at_offset_set with (data := data) (pos := pos). split; assumption.
Qed.

(** The header of [far_image] and the one entry of its table. *)
Lemma far_image_header : take 64 far_image = elf64_header 62 (2 ^ 31) 56 1.
Proof.
  unfold far_image.
  assert (length (elf64_header 62 (2 ^ 31) 56 1) = 64%nat) as Hlen by (vm_compute; reflexivity).
  rewrite take_app_length' by exact Hlen. reflexivity.
Qed.

Lemma far_image_table :
  table_entry far_image (2 ^ 31) 56 0 = phdr64 PT_LOAD 0 0x1000 0x200 0x200.
Proof.
  unfold table_entry, bytes_at, far_image.
  assert (length (elf64_header 62 (2 ^ 31) 56 1) = 64%nat) as Hlen by (vm_compute; reflexivity).
  rewrite app_assoc.
  rewrite drop_app_length'.
  - vm_compute. reflexivity.
  - rewrite length_app, Hlen, repeat_length. lia.
Qed.

Lemma far_image_fields :
  ELF_FIELD (elf64_header 62 (2 ^ 31) 56 1) e_phnum = 1
  /\ ELF_FIELD (elf64_header 62 (2 ^ 31) 56 1) e_phentsize = 56
  /\ ELF_FIELD (elf64_header 62 (2 ^ 31) 56 1) e_phoff = 2 ^ 31
  /\ KNOWN_PHENTSIZE (elf64_header 62 (2 ^ 31) 56 1) 56 = true
  /\ PROGRAM_FIELD (elf64_header 62 (2 ^ 31) 56 1)
                   (phdr64 PT_LOAD 0 0x1000 0x200 0x200) p_type = PT_LOAD.
Proof. vm_compute. repeat split; reflexivity. Qed.

(** The search on any file whose header is the one of [far_image]. *)
Lemma find_program_header_far w data pos ph type address :
  at_offset w 3 data pos ->
  exists w',
    find_program_header w 3 (elf64_header 62 (2 ^ 31) 56 1) ph type address
    = (- errno w, ph, w')
    /\ at_offset w' 3 data (2 ^ 31) /\ errno w' = errno w.
Proof.
  intros Hat. destruct far_image_fields as (Hnum & Hsize & Hoff & Hknown & _).
  destruct (find_program_header_int_seek w 3 (elf64_header 62 (2 ^ 31) 56 1)
              ph type address data pos) as (w' & E & Hat' & He).
  - rewrite Hnum. lia.
  - rewrite Hsize. exact Hknown.
  - exact Hat.
  - rewrite Hoff. lia.
  - exists w'. rewrite Hoff in Hat'. auto.
Qed.

(** C5: the image [far_image] has its program header table at offset
    [2^31]: one entry, of type PT_LOAD, of the size of the class.  The
    seek of line 134 to that offset succeeds, but [(int) lseek(...)] is
    negative, so [find_program_header] returns [-errno] with the [errno]
    that was there before the call and reads no entry.  Asked for the
    first PT_LOAD entry it returns 0, "not found", in a process whose
    [errno] is 0, and [-EIO] in one whose last failure was EIO: it does
    not find the entry the table holds, and what it returns as an error
    or as "not found" depends on nothing the file holds. *)
Theorem find_program_header_far_table :
  let hdr := take 64 far_image in
  let entry := table_entry far_image (ELF_FIELD hdr e_phoff) (ELF_FIELD hdr e_phentsize) 0 in
  (ELF_FIELD hdr e_phnum = 1 /\ ELF_FIELD hdr e_phoff = 2 ^ 31
   /\ KNOWN_PHENTSIZE hdr (ELF_FIELD hdr e_phentsize) = true)
  /\ (entry = phdr64 PT_LOAD 0 0x1000 0x200 0x200
      /\ PROGRAM_FIELD hdr entry p_type = PT_LOAD)
  /\ (forall ph, exists w',
        find_program_header (world_of far_image) 3 hdr ph PT_LOAD UINT64_MAX = (0, ph, w')
        /\ at_offset w' 3 far_image (2 ^ 31))
  /\ (forall ph, exists w',
        find_program_header (set_errno EIO (world_of far_image)) 3 hdr ph PT_LOAD UINT64_MAX
        = (- EIO, ph, w')).
Proof.
  intros hdr entry. subst entry hdr. rewrite far_image_header.
  destruct far_image_fields as (Hnum & Hsize & Hoff & Hknown & Htype).
  rewrite Hsize, Hoff, far_image_table.
  split; [auto|]. split; [auto|]. split.
  - intros ph.
    destruct (find_program_header_far (world_of far_image) far_image 0 ph PT_LOAD UINT64_MAX)
      as (w' & E & Hat & _); [split; reflexivity|].
    exists w'. split; [exact E|exact Hat].
  - intros ph.
    destruct (find_program_header_far (set_errno EIO (world_of far_image)) far_image 0 ph
                PT_LOAD UINT64_MAX) as (w' & E & _); [split; reflexivity|].
    exists w'. exact E.
Qed.

(** ** The scan of the dynamic section when it can be read *)

Lemma find_program_header_seek w fd hdr data pos :
  ELF_FIELD hdr e_phnum < 0xffff ->
  KNOWN_PHENTSIZE hdr (ELF_FIELD hdr e_phentsize) = true ->
  at_offset w fd data pos -> seek_ok (ELF_FIELD hdr e_phoff) ->
  exists w1,
    at_offset w1 fd data (ELF_FIELD hdr e_phoff)
    /\ alloc_faults w1 = alloc_faults w
    /\ forall ph type address,
        find_program_header w fd hdr ph type address
        = find_program_header_loop (Z.to_nat (ELF_FIELD hdr e_phnum)) w1 fd hdr
                                   (ELF_FIELD hdr e_phentsize) ph type address.
Proof.
  intros Hn Hk Hat Hseek.
  destruct (lseek_at w fd data pos _ Hat Hseek) as (w1 & Hl & Hat1 & Ha).
  exists w1. split; [exact Hat1|]. split; [exact Ha|].
  intros ph type address. unfold find_program_header.
  destruct (Z.leb_spec 0xffff (ELF_FIELD hdr e_phnum)); [lia|]. rewrite Hk. simpl.
  rewrite Hl. destruct Hseek as [_ Hint].
  destruct (Z.ltb_spec (to_int (ELF_FIELD hdr e_phoff)) 0); [lia|]. reflexivity.
Qed.

Lemma DYNAMIC_FIELD_store hdr buffer got name :
  Z.of_nat (length got) = dynamic_entry_size hdr ->
  DYNAMIC_FIELD hdr (store buffer got) name = DYNAMIC_FIELD hdr got name.
Proof.
  unfold dynamic_entry_size, DYNAMIC_FIELD, IS_CLASS32, IS_CLASS64,
    sizeof_DynamicEntry32, sizeof_DynamicEntry64.
  intros Hl.
  destruct (Z.eqb_spec (ELF_CLASS hdr) 1) as [E|E];
    destruct (Z.eqb_spec (ELF_CLASS hdr) 2) as [E2|E2]; try lia;
    destruct name; rewrite field_store by lia; reflexivity.
Qed.

Lemma DYNAMIC_FIELD_val_range hdr entry : 0 <= DYNAMIC_FIELD hdr entry d_val <= UINT64_MAX.
Proof.
  unfold DYNAMIC_FIELD, UINT64_MAX.
  destruct (IS_CLASS64 hdr);
    match goal with |- context [field ?b ?o ?s] => pose proof (field_bound b o s) as H end;
    simpl in H; lia.
Qed.

Lemma dynamic_entry_size_pos hdr : 0 < dynamic_entry_size hdr.
Proof. unfold dynamic_entry_size. destruct (IS_CLASS32 hdr); reflexivity. Qed.

(** One turn of the loop on an entry that lies in the file. *)
Lemma FOREACH_DYNAMIC_ENTRY_step {S : Type} n i w fd hdr data pos off type
    (code : Z -> S -> World -> Flow S) (s : S) :
  at_offset w fd data pos -> 0 <= i ->
  seek_ok (off + i * dynamic_entry_size hdr) ->
  off + (i + 1) * dynamic_entry_size hdr <= Z.of_nat (length data) ->
  exists w2,
    at_offset w2 fd data (off + (i + 1) * dynamic_entry_size hdr)
    /\ alloc_faults w2 = alloc_faults w
    /\ FOREACH_DYNAMIC_ENTRY (Datatypes.S n) i w fd hdr off (dynamic_entry_size hdr) type code s
       = if negb (DYNAMIC_FIELD hdr (dynamic_entry data hdr off i) d_tag =? type)
         then FOREACH_DYNAMIC_ENTRY n (i + 1) w2 fd hdr off (dynamic_entry_size hdr) type code s
         else match code (DYNAMIC_FIELD hdr (dynamic_entry data hdr off i) d_val) s w2 with
              | Next s w =>
                FOREACH_DYNAMIC_ENTRY n (i + 1) w fd hdr off (dynamic_entry_size hdr) type code s
              | Break s w => (None, s, w)
              | Return status s w => (Some status, s, w)
              end.
Proof.
  intros Hat Hi Hseek Hlen.
  pose proof (dynamic_entry_size_pos hdr) as Hsz.
  set (esz := dynamic_entry_size hdr) in *.
  cbn [FOREACH_DYNAMIC_ENTRY].
  destruct (indeterminate (Z.to_nat sizeof_DynamicEntry) w) as [buffer w0] eqn:Ei.
  assert (at_offset w0 fd data pos /\ alloc_faults w0 = alloc_faults w) as [Hat0 Ha0].
  { injection Ei as _ <-. split; [exact Hat|reflexivity]. }
  assert (to_uint64 (off + i * esz) = off + i * esz) as ->.
  { apply to_uint64_small. destruct Hseek as [? _]. unfold UINT64_MAX. lia. }
  destruct (lseek_at w0 fd data pos _ Hat0 Hseek) as (w1 & Hl & Hat1 & Ha1).
  rewrite Hl. destruct Hseek as [Hoff Hint].
  destruct (Z.ltb_spec (to_int (off + i * esz)) 0); [lia|].
  assert (Z.of_nat (length (dynamic_entry data hdr off i)) = esz) as Hlen'
    by (apply bytes_at_length; lia).
  destruct (read_at w1 fd data _ esz Hat1 ltac:(lia)) as (w2 & Hr & Hat2 & Ha2).
  change (bytes_at data (off + i * esz) esz) with (dynamic_entry data hdr off i) in Hr, Hat2.
  rewrite Hlen' in Hr, Hat2.
  replace (off + i * esz + esz) with (off + (i + 1) * esz) in Hat2 by lia.
  rewrite Hr. destruct (Z.ltb_spec esz 0); [lia|].
  rewrite !DYNAMIC_FIELD_store by exact Hlen'.
  exists w2. split; [exact Hat2|]. split; [congruence|]. reflexivity.
Qed.

(** No entry has the tag: the loop runs to its end and the embedded code
    never runs. *)
Lemma FOREACH_DYNAMIC_ENTRY_no_tag {S : Type} fd hdr data off type
    (code : Z -> S -> World -> Flow S) (s : S) n :
  forall i w pos,
  at_offset w fd data pos -> 0 <= i ->
  (forall j, i <= j < i + Z.of_nat n ->
     seek_ok (off + j * dynamic_entry_size hdr)
     /\ off + (j + 1) * dynamic_entry_size hdr <= Z.of_nat (length data)
     /\ DYNAMIC_FIELD hdr (dynamic_entry data hdr off j) d_tag <> type) ->
  exists w', FOREACH_DYNAMIC_ENTRY n i w fd hdr off (dynamic_entry_size hdr) type code s
             = (None, s, w').
Proof.
  induction n as [|n IH]; intros i w pos Hat Hi Hall.
  - exists w. reflexivity.
  - destruct (Hall i ltac:(lia)) as (Hseek & Hlen & Htag).
    destruct (FOREACH_DYNAMIC_ENTRY_step n i w fd hdr data pos off type code s
                Hat Hi Hseek Hlen) as (w2 & Hat2 & _ & ->).
    destruct (Z.eqb_spec (DYNAMIC_FIELD hdr (dynamic_entry data hdr off i) d_tag) type);
      [contradiction|]. simpl.
    apply (IH (i + 1) w2 _ Hat2); [lia|].
    intros j Hj. apply Hall. lia.
Qed.

Lemma field_take buf n offset size :
  (offset + size <= n)%nat -> field (take n buf) offset size = field buf offset size.
Proof.
  intros H. unfold field. f_equal.
  replace n with (offset + (n - offset))%nat by lia.
  rewrite <- take_drop_commute, take_take. f_equal. lia.
Qed.

Lemma PROGRAM_FIELD_take hdr size ph name :
  KNOWN_PHENTSIZE hdr size = true ->
  PROGRAM_FIELD hdr (take (Z.to_nat size) ph) name = PROGRAM_FIELD hdr ph name.
Proof.
  intros Hk. unfold PROGRAM_FIELD.
  destruct (KNOWN_PHENTSIZE_inv _ _ Hk) as [(_ & -> & ->)|(_ & -> & ->)];
    destruct name; simpl; apply field_take; lia.
Qed.

(** What [read_ldso_rpaths] does when its seeks are taken for a success
    ([seek_ok]) and the table of program headers can be read: it
    returns 0 and leaves [*rpaths] and [*runpaths] as they were, first when
    no entry of the table is a PT_DYNAMIC one, and also when the dynamic
    section (of the first PT_DYNAMIC entry) can be read and none of its
    entries has the tag DT_STRTAB. *)
Theorem read_ldso_rpaths_nothing w fd hdr rpaths runpaths data pos :
  let phnum := ELF_FIELD hdr e_phnum in
  let size := ELF_FIELD hdr e_phentsize in
  let phoff := ELF_FIELD hdr e_phoff in
  let entry := table_entry data phoff size in
  at_offset w fd data pos ->
  phnum < 0xffff -> KNOWN_PHENTSIZE hdr size = true -> seek_ok phoff ->
  (phoff + phnum * size <= Z.of_nat (length data) ->
   (forall j : nat, Z.of_nat j < phnum -> PROGRAM_FIELD hdr (entry j) p_type <> PT_DYNAMIC) ->
   exists w', read_ldso_rpaths w fd hdr rpaths runpaths = (0, rpaths, runpaths, w'))
  /\ (forall k : nat,
        Z.of_nat k < phnum ->
        phoff + (Z.of_nat k + 1) * size <= Z.of_nat (length data) ->
        PROGRAM_FIELD hdr (entry k) p_type = PT_DYNAMIC ->
        (forall j : nat, (j < k)%nat -> PROGRAM_FIELD hdr (entry j) p_type <> PT_DYNAMIC) ->
        let off := PROGRAM_FIELD hdr (entry k) p_offset in
        let filesz := PROGRAM_FIELD hdr (entry k) p_filesz in
        let esz := dynamic_entry_size hdr in
        filesz mod esz = 0 ->
        (forall j, 0 <= j < filesz / esz ->
           seek_ok (off + j * esz)
           /\ off + (j + 1) * esz <= Z.of_nat (length data)
           /\ DYNAMIC_FIELD hdr (dynamic_entry data hdr off j) d_tag <> DT_STRTAB) ->
        exists w', read_ldso_rpaths w fd hdr rpaths runpaths = (0, rpaths, runpaths, w')).
Proof.
  intros phnum size phoff entry Hat Hn Hk Hseek.
  pose proof (ELF_FIELD_range hdr e_phoff) as Hoff. fold phoff in Hoff.
  pose proof (ELF_FIELD_range hdr e_phnum) as Hnum. fold phnum in Hnum.
  unfold read_ldso_rpaths.
  destruct (indeterminate (Z.to_nat sizeof_ProgramHeader) w) as [dynamic_segment wa] eqn:Ea.
  assert (at_offset wa fd data pos) as Hata by (injection Ea as _ <-; exact Hat).
  destruct (indeterminate (Z.to_nat sizeof_ProgramHeader) wa) as [strtab_segment wb] eqn:Eb.
  assert (at_offset wb fd data pos) as Hatb by (injection Eb as _ <-; exact Hata).
  destruct (find_program_header_seek wb fd hdr data pos Hn Hk Hatb Hseek)
    as (w1 & Hat1 & _ & ->).
  fold phnum size phoff in Hat1 |- *.
  assert (at_offset w1 fd data (phoff + Z.of_nat 0 * size)) as Hat0
    by (simpl; rewrite Z.add_0_r; exact Hat1).
  split.
  - intros Hlen Hnone.
    destruct (find_program_header_loop_none fd data hdr phoff size PT_DYNAMIC UINT64_MAX
                Hk ltac:(lia) (Z.to_nat phnum) 0%nat w1 dynamic_segment Hat0)
      as (ph' & w' & -> & _).
    + rewrite Z2Nat.id by lia. exact Hlen.
    + intros j Hj. rewrite entry_found_wildcard. apply Z.eqb_neq, Hnone. lia.
    + simpl. eauto.
  - intros k Hlt Hlen Hty Hnone Hmod Hdyn.
    set (off := PROGRAM_FIELD hdr (entry k) p_offset) in *.
    set (filesz := PROGRAM_FIELD hdr (entry k) p_filesz) in *.
    destruct (find_program_header_loop_first fd data hdr phoff size PT_DYNAMIC UINT64_MAX
                Hk ltac:(lia) (Z.to_nat phnum) 0%nat k w1 dynamic_segment Hat0)
      as (ph' & w' & -> & Hat' & Hph & _); try lia.
    + rewrite entry_found_wildcard. apply Z.eqb_eq. exact Hty.
    + intros j Hj. rewrite entry_found_wildcard. apply Z.eqb_neq, Hnone. lia.
    + change (1 <=? 0) with false. cbv iota.
      rewrite <- !(PROGRAM_FIELD_take hdr size ph') by exact Hk.
      rewrite Hph. fold entry off filesz.
      change (if IS_CLASS32 hdr then sizeof_DynamicEntry32 else sizeof_DynamicEntry64) with (dynamic_entry_size hdr).
      rewrite Hmod. simpl negb. cbv iota.
      pose proof (dynamic_entry_size_pos hdr) as Hesz.
      pose proof (PROGRAM_FIELD_range hdr (entry k) p_filesz) as Hfs. fold filesz in Hfs.
      assert (0 <= filesz / dynamic_entry_size hdr) as Hq by (apply Z.div_pos; lia).
      destruct (FOREACH_DYNAMIC_ENTRY_no_tag fd hdr data off DT_STRTAB strtab_code UINT64_MAX
                  (Z.to_nat (filesz / dynamic_entry_size hdr)) 0 w' _ Hat' ltac:(lia)) as (w'' & ->).
      * intros j Hj. apply Hdyn. lia.
      * simpl. eauto.
Qed.

Lemma read_ldso_rpaths_nothing_witness :
  (exists w', read_ldso_rpaths (world_of static_image) 3 (take 64 static_image) None None
              = (0, None, None, w'))
  /\ (exists w', read_ldso_rpaths (world_of no_strtab) 3 (take 64 no_strtab) None None
                 = (0, None, None, w')).
Proof.
  split.
  - apply (proj1 (read_ldso_rpaths_nothing
                    (world_of static_image) 3 (take 64 static_image) None None
                    static_image 0 ltac:(split; reflexivity)
                    ltac:(vm_compute; reflexivity) ltac:(vm_compute; reflexivity)
                    ltac:(apply seek_ok_small; vm_compute; split; [discriminate|reflexivity]))).
    + vm_compute. discriminate.
    + intros j Hj. assert (j = 0%nat) as ->.
      { change (ELF_FIELD (take 64 static_image) e_phnum) with 1 in Hj. lia. }
      vm_compute. discriminate.
  - apply (proj2 (read_ldso_rpaths_nothing
                    (world_of no_strtab) 3 (take 64 no_strtab) None None
                    no_strtab 0 ltac:(split; reflexivity)
                    ltac:(vm_compute; reflexivity) ltac:(vm_compute; reflexivity)
                    ltac:(apply seek_ok_small; vm_compute; split; [discriminate|reflexivity]))
                 1%nat).
    + vm_compute. reflexivity.
    + vm_compute. discriminate.
    + vm_compute. reflexivity.
    + intros j Hj. assert (j = 0%nat) as -> by lia. vm_compute. discriminate.
    + vm_compute. reflexivity.
    + intros j Hj.
      assert (j = 0) as ->.
      { revert Hj.
        change (PROGRAM_FIELD (take 64 no_strtab)
                  (table_entry no_strtab (ELF_FIELD (take 64 no_strtab) e_phoff)
                     (ELF_FIELD (take 64 no_strtab) e_phentsize) 1) p_filesz
                / dynamic_entry_size (take 64 no_strtab)) with 1. lia. }
      split; [apply seek_ok_small; vm_compute; split; [discriminate|reflexivity]|].
      split; [vm_compute; discriminate|vm_compute; discriminate].
Defined.

(** The call on any file whose header is the one of [far_image]: what
    stops the first search is returned. *)
Lemma read_ldso_rpaths_far w data pos rpaths runpaths :
  at_offset w 3 data pos -> 0 <= errno w ->
  exists w',
    read_ldso_rpaths w 3 (elf64_header 62 (2 ^ 31) 56 1) rpaths runpaths
    = (- errno w, rpaths, runpaths, w').
Proof.
  intros Hat He. unfold read_ldso_rpaths.
  destruct (indeterminate (Z.to_nat sizeof_ProgramHeader) w) as [b1 wa] eqn:Ea.
  assert (at_offset wa 3 data pos /\ errno wa = errno w) as [Hata Hea].
  { injection Ea as _ <-. split; [exact Hat|reflexivity]. }
  destruct (indeterminate (Z.to_nat sizeof_ProgramHeader) wa) as [b2 wb] eqn:Eb.
  assert (at_offset wb 3 data pos /\ errno wb = errno w) as [Hatb Heb].
  { injection Eb as _ <-. split; [exact Hata|exact Hea]. }
  destruct (find_program_header_far wb data pos b1 PT_DYNAMIC UINT64_MAX Hatb)
    as (w' & -> & _).
  rewrite Heb. destruct (Z.leb_spec (- errno w) 0); [eauto|lia].
Qed.

(** C9: the image [far_image] has no dynamic segment: the one entry of its
    program header table, at offset [2^31], is a PT_LOAD one.  The first
    search of [read_ldso_rpaths] seeks that offset with success, takes
    [(int) lseek(...)] for a failure and returns [-errno] with the [errno]
    that was there before the call, and [read_ldso_rpaths] returns it: in
    a process whose last failure was ENOENT the image without dynamic
    segment gets the error [-ENOENT], not 0. *)
Theorem read_ldso_rpaths_far_table :
  let hdr := take 64 far_image in
  let entry := table_entry far_image (ELF_FIELD hdr e_phoff) (ELF_FIELD hdr e_phentsize) 0 in
  (ELF_FIELD hdr e_phnum = 1
   /\ PROGRAM_FIELD hdr entry p_type = PT_LOAD /\ PT_LOAD <> PT_DYNAMIC)
  /\ (forall rpaths runpaths, exists w',
        read_ldso_rpaths (set_errno ENOENT (world_of far_image)) 3 hdr rpaths runpaths
        = (- ENOENT, rpaths, runpaths, w'))
  /\ - ENOENT < 0.
Proof.
  intros hdr entry. subst entry hdr. rewrite far_image_header.
  destruct far_image_fields as (Hnum & Hsize & Hoff & Hknown & Htype).
  rewrite Hsize, Hoff, far_image_table.
  split; [split; [exact Hnum|]; split; [exact Htype|discriminate]|].
  split; [|reflexivity].
  intros rpaths runpaths.
  destruct (read_ldso_rpaths_far (set_errno ENOENT (world_of far_image)) far_image 0
              rpaths runpaths) as (w' & E); [split; reflexivity|discriminate|].
  exists w'. exact E.
Qed.

(** ** The offset of a path list *)



(** ** Reading a path list *)

(** Before the NUL that ends the string. *)
Lemma strnlen_nul a b m :
  Forall (fun c => c <> Byte.x00) a -> (length a < m)%nat ->
  strnlen (a ++ Byte.x00 :: b) m = length a.
Proof.
  intros Ha. revert m. induction Ha as [|c a Hc Ha IH]; intros m Hm.
  - destruct m; [lia|]. reflexivity.
  - destruct m as [|m]; [simpl in Hm; lia|]. simpl.
    destruct (Byte.eqb c Byte.x00) eqn:E; [apply Byte.byte_dec_bl in E; contradiction|].
    f_equal. apply IH. simpl in Hm. lia.
Qed.

(** No NUL among the first [m] bytes. *)
Lemma strnlen_full a b m :
  Forall (fun c => c <> Byte.x00) a -> (m <= length a)%nat ->
  strnlen (a ++ b) m = m.
Proof.
  intros Ha. revert m. induction Ha as [|c a Hc Ha IH]; intros m Hm.
  - simpl in Hm. assert (m = 0%nat) as -> by lia. destruct b; reflexivity.
  - destruct m as [|m]; [reflexivity|]. simpl.
    destruct (Byte.eqb c Byte.x00) eqn:E; [apply Byte.byte_dec_bl in E; contradiction|].
    f_equal. apply IH. simpl in Hm. lia.
Qed.

Lemma c_string_nul a b :
  Forall (fun c => c <> Byte.x00) a -> c_string (a ++ Byte.x00 :: b) = a.
Proof.
  intros Ha. unfold c_string. rewrite strnlen_nul; [apply take_app_length|exact Ha|].
  rewrite length_app. simpl. lia.
Qed.

Lemma indeterminate_length n w : length (indeterminate n w).1 = n.
Proof. simpl. rewrite length_take, length_app, repeat_length. lia. Qed.

(** The loop of [add_xpaths] on a string that ends in the file: it stops
    at the NUL, with the string in [paths]. *)
Lemma read_paths_text fd data fuel : forall w pos done rest post,
  at_offset w fd data pos -> alloc_faults w = [] -> 0 <= pos ->
  drop (Z.to_nat pos) data = rest ++ Byte.x00 :: post ->
  Forall (fun c => c <> Byte.x00) rest ->
  (length rest < fuel * 1024)%nat ->
  exists status tail w',
    read_paths fuel w fd done (length done)
    = Some (status, done ++ rest ++ Byte.x00 :: tail, (length done + length rest)%nat, w')
    /\ 0 <= status /\ alloc_faults w' = [] /\ exists pos', at_offset w' fd data pos'.
Proof.
  induction fuel as [|fuel IH]; intros w pos done rest post Hat Ha Hpos Hdata Hrest Hfuel;
    [simpl in Hfuel; lia|].
  cbn [read_paths].
  (* the block grows by 1024 bytes *)
  unfold talloc_realloc, next_alloc. rewrite Ha.
  replace (Z.to_nat (Z.of_nat (length done + 1024)) - length done)%nat with 1024%nat by lia.
  destruct (indeterminate 1024 w) as [more w1] eqn:Ei.
  assert (length more = 1024%nat) as Hmore.
  { pose proof (indeterminate_length 1024 w) as H. rewrite Ei in H. exact H. }
  assert (at_offset w1 fd data pos /\ alloc_faults w1 = []) as [Hat1 Ha1].
  { injection Ei as _ <-. split; [exact Hat|exact Ha]. }
  rewrite Nat2Z.id, take_ge by (rewrite length_app; lia).
  (* the read *)
  destruct (read_at w1 fd data pos 1024 Hat1 Hpos) as (w2 & -> & Hat2 & Ha2).
  rewrite Ha1 in Ha2.
  set (got := bytes_at data pos 1024) in *.
  assert (got = take 1024 (rest ++ Byte.x00 :: post)) as Hgot
    by (unfold got, bytes_at; rewrite Hdata; reflexivity).
  destruct (Z.ltb_spec (Z.of_nat (length got)) 0) as [|_]; [lia|].
  cbv zeta.
  rewrite take_app_length, !drop_app_length.
  destruct (Nat.lt_ge_cases (length rest) 1024) as [Hshort|Hlong].
  - (* the NUL is in this chunk *)
    assert (got = rest ++ Byte.x00 :: take (1023 - length rest) post) as Hgot'.
    { rewrite Hgot, take_app_ge by lia.
      replace (1024 - length rest)%nat with (S (1023 - length rest)) by lia. reflexivity. }
    assert (strnlen (store more got) 1024 = length rest) as Hn.
    { unfold store. rewrite Hgot' at 1. rewrite <- !app_assoc. simpl.
      apply strnlen_nul; assumption. }
    rewrite Hn.
    destruct (Nat.eqb_spec (length done + length rest) (length done + 1024)); [lia|].
    assert (done ++ store more got
            = done ++ rest ++ Byte.x00 :: (take (1023 - length rest) post
                                            ++ drop (length got) more)) as ->.
    { unfold store. rewrite Hgot' at 1. rewrite <- !app_assoc. reflexivity. }
    eexists _, _, w2. split; [reflexivity|]. split; [lia|]. split; [exact Ha2|eauto].
  - (* the chunk is full of text: another turn *)
    assert (got = take 1024 rest) as Hgot' by (rewrite Hgot, take_app_le by lia; reflexivity).
    assert (length got = 1024%nat) as Hlg by (rewrite Hgot', length_take; lia).
    assert (store more got = got) as Hst.
    { unfold store. rewrite drop_ge by lia. apply app_nil_r. }
    rewrite Hst.
    assert (strnlen got 1024 = 1024%nat) as Hn.
    { rewrite <- (app_nil_r got). apply strnlen_full; [|lia].
      rewrite Hgot'. apply Forall_take. exact Hrest. }
    rewrite Hn, Nat.eqb_refl.
    rewrite Hlg in Hat2.
    destruct (IH w2 (pos + 1024) (done ++ got) (drop 1024 rest) post Hat2 Ha2)
      as (status & tail & w' & Hrec & Hstatus & Ha' & Hat').
    + lia.
    + replace (Z.to_nat (pos + 1024)) with (Z.to_nat pos + 1024)%nat by lia.
      rewrite <- drop_drop, Hdata, drop_app_le by lia. reflexivity.
    + apply Forall_drop. exact Hrest.
    + rewrite length_drop. lia.
    + rewrite length_app, Hlg in Hrec. rewrite Hrec.
      exists status, tail, w'. split; [|auto].
      assert ((done ++ got) ++ drop 1024 rest ++ Byte.x00 :: tail
              = done ++ rest ++ Byte.x00 :: tail) as ->.
      { rewrite <- app_assoc. f_equal. rewrite app_assoc. f_equal.
        rewrite Hgot'. apply take_drop. }
      replace (length done + 1024 + length (drop 1024 rest))%nat
        with (length done + length rest)%nat by (rewrite length_drop; lia).
      reflexivity.
Qed.

(** [add_xpaths] on a string that ends in the file, when no call fails:
    the string is merged into the accumulator. *)
Lemma add_xpaths_text w fd data pos offset text post xpaths :
  at_offset w fd data pos -> alloc_faults w = [] -> seek_ok offset ->
  drop (Z.to_nat offset) data = text ++ Byte.x00 :: post ->
  Forall (fun c => c <> Byte.x00) text ->
  exists w',
    add_xpaths w fd offset xpaths
    = (0, Some (merge xpaths text), w')
    /\ alloc_faults w' = [] /\ exists pos', at_offset w' fd data pos'.
Proof.
  intros Hat Ha Hseek Hdata Htext.
  destruct (lseek_at w fd data pos offset Hat Hseek) as (w1 & Hl & Hat1 & Ha1).
  rewrite Ha in Ha1. destruct Hseek as [Hoff Hint].
  unfold add_xpaths. rewrite Hl.
  destruct (Z.ltb_spec (to_int offset) 0); [lia|].
  assert (length text < paths_fuel w1 fd * 1024)%nat as Hfuel.
  { unfold paths_fuel. destruct Hat1 as [_ ->]. simpl of_data.
    apply (f_equal length) in Hdata. rewrite length_drop, length_app in Hdata.
    simpl in Hdata. lia. }
  destruct (read_paths_text fd data (paths_fuel w1 fd) w1 offset [] text post
              Hat1 Ha1 ltac:(lia) Hdata Htext Hfuel)
    as (status & tail & w2 & Hrp & Hstatus & Ha2 & pos2 & Hat2).
  cbn [length app Nat.add] in Hrp. rewrite Hrp.
  destruct (Z.ltb_spec status 0); [lia|].
  rewrite c_string_nul by exact Htext.
  unfold merge. destruct xpaths as [old|].
  - unfold talloc_realloc, next_alloc. rewrite Ha2.
    destruct (indeterminate _ w2) as [more w3] eqn:Ei.
    exists w3. split; [reflexivity|].
    injection Ei as _ <-. split; [exact Ha2|]. exists pos2. exact Hat2.
  - unfold talloc_array, next_alloc. rewrite Ha2.
    destruct (indeterminate _ w2) as [more w3] eqn:Ei.
    exists w3. split; [reflexivity|].
    injection Ei as _ <-. split; [exact Ha2|]. exists pos2. exact Hat2.
Qed.

Lemma c_string_cons b l :
  c_string (b :: l) = if Byte.eqb b Byte.x00 then [] else b :: c_string l.
Proof. unfold c_string. simpl. destruct (Byte.eqb b Byte.x00); reflexivity. Qed.

(** A buffer that holds a NUL is its C string, the NUL and a rest. *)
Lemma c_string_split l :
  In Byte.x00 l ->
  Forall (fun c => c <> Byte.x00) (c_string l)
  /\ exists post, l = c_string l ++ Byte.x00 :: post.
Proof.
  induction l as [|b l IH]; intros Hin; [destruct Hin|].
  rewrite c_string_cons.
  destruct (Byte.eqb b Byte.x00) eqn:E.
  - apply Byte.byte_dec_bl in E as ->. split; [constructor|]. exists l. reflexivity.
  - destruct Hin as [->|Hin]; [discriminate|].
    destruct (IH Hin) as (Hall & post & Hl). split.
    + constructor; [|exact Hall]. intros ->. discriminate.
    + exists post. simpl. f_equal. exact Hl.
Qed.

(** The scan for the tag [type] with the code of lines 339 to 355, when
    the dynamic section and the strings it names can be read: every entry
    with the tag has its path list merged, in the order of the table. *)
Lemma FOREACH_DYNAMIC_ENTRY_xpaths fd hdr data off strtab_offset type n :
  0 <= strtab_offset ->
  forall i w pos xpaths,
  at_offset w fd data pos -> alloc_faults w = [] -> 0 <= i ->
  (forall j, i <= j < i + Z.of_nat n ->
     seek_ok (off + j * dynamic_entry_size hdr)
     /\ off + (j + 1) * dynamic_entry_size hdr <= Z.of_nat (length data)
     /\ (DYNAMIC_FIELD hdr (dynamic_entry data hdr off j) d_tag = type ->
         let o := strtab_offset + DYNAMIC_FIELD hdr (dynamic_entry data hdr off j) d_val in
         seek_ok o /\ In Byte.x00 (drop (Z.to_nat o) data))) ->
  exists w',
    FOREACH_DYNAMIC_ENTRY n i w fd hdr off (dynamic_entry_size hdr) type
                          (xpaths_code fd strtab_offset) xpaths
    = (None, merged_paths data hdr off strtab_offset type n i xpaths, w')
    /\ alloc_faults w' = [] /\ exists pos', at_offset w' fd data pos'.
Proof.
  intros Hso. induction n as [|n IH]; intros i w pos xpaths Hat Ha Hi Hall.
  - exists w. simpl. eauto.
  - destruct (Hall i ltac:(lia)) as (Hseek & Hlen & Hstr).
    destruct (FOREACH_DYNAMIC_ENTRY_step n i w fd hdr data pos off type
                (xpaths_code fd strtab_offset) xpaths Hat Hi Hseek Hlen)
      as (w2 & Hat2 & Ha2 & ->).
    rewrite Ha in Ha2. cbn [merged_paths].
    set (entry := dynamic_entry data hdr off i) in *.
    destruct (Z.eqb_spec (DYNAMIC_FIELD hdr entry d_tag) type) as [Htag|Htag]; simpl negb; cbv iota.
    + destruct (Hstr Htag) as [Hseeko Hnul].
      pose proof (DYNAMIC_FIELD_val_range hdr entry) as Hval.
      set (value := DYNAMIC_FIELD hdr entry d_val) in *.
      destruct (c_string_split _ Hnul) as (Htext & post & Hdata).
      destruct (add_xpaths_text w2 fd data _ (strtab_offset + value) _ post xpaths
                  Hat2 Ha2 Hseeko Hdata Htext) as (w3 & Hadd & Ha3 & pos3 & Hat3).
      assert (xpaths_code fd strtab_offset value xpaths w2
              = Next (Some (merge xpaths (path_list data hdr strtab_offset entry))) w3) as ->.
      { unfold xpaths_code. destruct Hseeko as [Ho _].
        destruct (Z.ltb_spec strtab_offset 0); [lia|]. simpl.
        rewrite to_uint64_small by (unfold UINT64_MAX; lia).
        destruct (Z.ltb_spec (UINT64_MAX - value) strtab_offset);
          [unfold UINT64_MAX in *; lia|].
        rewrite to_uint64_small by (unfold UINT64_MAX; lia).
        rewrite Hadd. reflexivity. }
      apply (IH (i + 1) w3 pos3); auto; [lia|].
      intros j Hj. apply Hall. lia.
    + apply (IH (i + 1) w2 (off + (i + 1) * dynamic_entry_size hdr)); auto; [lia|].
      intros j Hj. apply Hall. lia.
Qed.


(** The scan for DT_STRTAB stops at the first entry with that tag, with
    its value in [strtab_address]. *)
Lemma FOREACH_DYNAMIC_ENTRY_strtab fd hdr data off s n :
  forall i w pos strtab_address,
  at_offset w fd data pos -> 0 <= i -> i <= s < i + Z.of_nat n ->
  (forall j, i <= j <= s ->
     seek_ok (off + j * dynamic_entry_size hdr)
     /\ off + (j + 1) * dynamic_entry_size hdr <= Z.of_nat (length data)) ->
  (forall j, i <= j < s ->
     DYNAMIC_FIELD hdr (dynamic_entry data hdr off j) d_tag <> DT_STRTAB) ->
  DYNAMIC_FIELD hdr (dynamic_entry data hdr off s) d_tag = DT_STRTAB ->
  exists w',
    FOREACH_DYNAMIC_ENTRY n i w fd hdr off (dynamic_entry_size hdr) DT_STRTAB
                          strtab_code strtab_address
    = (None, DYNAMIC_FIELD hdr (dynamic_entry data hdr off s) d_val, w')
    /\ alloc_faults w' = alloc_faults w /\ exists pos', at_offset w' fd data pos'.
Proof.
  induction n as [|n IH]; intros i w pos strtab_address Hat Hi Hs Hall Hnone Htag; [lia|].
  destruct (Hall i ltac:(lia)) as (Hseek & Hlen).
  destruct (FOREACH_DYNAMIC_ENTRY_step n i w fd hdr data pos off DT_STRTAB
              strtab_code strtab_address Hat Hi Hseek Hlen) as (w2 & Hat2 & Ha2 & ->).
  destruct (decide (s = i)) as [->|Hne].
  - rewrite Htag, Z.eqb_refl. simpl. eauto.
  - destruct (Z.eqb_spec (DYNAMIC_FIELD hdr (dynamic_entry data hdr off i) d_tag) DT_STRTAB)
      as [E|_]; [destruct (Hnone i ltac:(lia) E)|]. simpl.
    rewrite <- Ha2.
    apply (IH (i + 1) w2 (off + (i + 1) * dynamic_entry_size hdr)); auto; try lia.
    + intros j Hj. apply Hall. lia.
    + intros j Hj. apply Hnone. lia.
Qed.

(** [read_ldso_rpaths] on an image whose tables and strings can be read:
    entry [k] of the program header table is the first PT_DYNAMIC one,
    entry [s] of the dynamic section the first DT_STRTAB one, entry [l] of
    the table the first PT_LOAD one that contains the address of the string
    table.  The function returns 0, with the path lists of all RPATH
    entries merged into [*rpaths] and those of all RUNPATH entries merged
    into [*runpaths], each in the order of the dynamic section. *)
Lemma read_ldso_rpaths_paths w fd hdr data pos rpaths runpaths (k l : nat) (s : Z) :
  let phnum := ELF_FIELD hdr e_phnum in
  let size := ELF_FIELD hdr e_phentsize in
  let phoff := ELF_FIELD hdr e_phoff in
  let entry := table_entry data phoff size in
  let off := PROGRAM_FIELD hdr (entry k) p_offset in
  let filesz := PROGRAM_FIELD hdr (entry k) p_filesz in
  let esz := dynamic_entry_size hdr in
  let dyn := dynamic_entry data hdr off in
  let strtab_address := DYNAMIC_FIELD hdr (dyn s) d_val in
  let strtab_offset :=
    to_off_t (to_uint64 (PROGRAM_FIELD hdr (entry l) p_offset
                         + to_uint64 (strtab_address - PROGRAM_FIELD hdr (entry l) p_vaddr))) in
  at_offset w fd data pos -> alloc_faults w = [] ->
  phnum < 0xffff -> KNOWN_PHENTSIZE hdr size = true -> seek_ok phoff ->
  phoff + phnum * size <= Z.of_nat (length data) ->
  Z.of_nat k < phnum ->
  PROGRAM_FIELD hdr (entry k) p_type = PT_DYNAMIC ->
  (forall j : nat, (j < k)%nat -> PROGRAM_FIELD hdr (entry j) p_type <> PT_DYNAMIC) ->
  filesz mod esz = 0 ->
  (forall j, 0 <= j < filesz / esz ->
     seek_ok (off + j * esz) /\ off + (j + 1) * esz <= Z.of_nat (length data)) ->
  0 <= s < filesz / esz ->
  DYNAMIC_FIELD hdr (dyn s) d_tag = DT_STRTAB ->
  (forall j, 0 <= j < s -> DYNAMIC_FIELD hdr (dyn j) d_tag <> DT_STRTAB) ->
  strtab_address <> UINT64_MAX ->
  Z.of_nat l < phnum ->
  entry_found hdr (entry l) PT_LOAD strtab_address = true ->
  (forall j : nat, (j < l)%nat -> entry_found hdr (entry j) PT_LOAD strtab_address = false) ->
  0 <= strtab_offset ->
  (forall j, 0 <= j < filesz / esz ->
     DYNAMIC_FIELD hdr (dyn j) d_tag = DT_RPATH
     \/ DYNAMIC_FIELD hdr (dyn j) d_tag = DT_RUNPATH ->
     let o := strtab_offset + DYNAMIC_FIELD hdr (dyn j) d_val in
     seek_ok o /\ In Byte.x00 (drop (Z.to_nat o) data)) ->
  exists w',
    read_ldso_rpaths w fd hdr rpaths runpaths
    = (0,
       merged_paths data hdr off strtab_offset DT_RPATH (Z.to_nat (filesz / esz)) 0 rpaths,
       merged_paths data hdr off strtab_offset DT_RUNPATH (Z.to_nat (filesz / esz)) 0 runpaths,
       w').
Proof.
  intros phnum size phoff entry off filesz esz dyn strtab_address strtab_offset
         Hat Ha Hn Hk Hseek Htable Hkn Hkty Hkfirst Hmod Hdyn Hs Hstag Hsfirst Hsaddr
         Hln Hlfound Hlfirst Hso Hstr.
  subst esz.
  pose proof (ELF_FIELD_range hdr e_phoff) as Hoff. fold phoff in Hoff.
  pose proof (ELF_FIELD_range hdr e_phnum) as Hnum. fold phnum in Hnum.
  pose proof (size_pos hdr size Hk) as Hsize.
  pose proof (dynamic_entry_size_pos hdr) as Hesz.
  unfold read_ldso_rpaths.
  destruct (indeterminate (Z.to_nat sizeof_ProgramHeader) w) as [dynamic_segment wa] eqn:Ea.
  assert (at_offset wa fd data pos /\ alloc_faults wa = []) as [Hata Haa]
    by (injection Ea as _ <-; split; [exact Hat|exact Ha]).
  destruct (indeterminate (Z.to_nat sizeof_ProgramHeader) wa) as [strtab_segment wb] eqn:Eb.
  assert (at_offset wb fd data pos /\ alloc_faults wb = []) as [Hatb Hab]
    by (injection Eb as _ <-; split; [exact Hata|exact Haa]).
  (* the dynamic segment *)
  destruct (find_program_header_seek wb fd hdr data pos Hn Hk Hatb Hseek)
    as (w1 & Hat1 & Ha1 & ->).
  fold phnum size phoff in Hat1 |- *. rewrite Hab in Ha1.
  assert (at_offset w1 fd data (phoff + Z.of_nat 0 * size)) as Hat0
    by (simpl; rewrite Z.add_0_r; exact Hat1).
  destruct (find_program_header_loop_first fd data hdr phoff size PT_DYNAMIC UINT64_MAX
              Hk ltac:(lia) (Z.to_nat phnum) 0%nat k w1 dynamic_segment Hat0)
    as (ph' & w2 & -> & Hat2 & Hph & Ha2); try lia; try nia.
  { rewrite entry_found_wildcard. apply Z.eqb_eq. exact Hkty. }
  { intros j Hj. rewrite entry_found_wildcard. apply Z.eqb_neq, Hkfirst. lia. }
  rewrite Ha1 in Ha2.
  change (1 <=? 0) with false. cbv iota.
  rewrite <- !(PROGRAM_FIELD_take hdr size ph') by exact Hk.
  rewrite Hph. fold entry off filesz.
  change (if IS_CLASS32 hdr then sizeof_DynamicEntry32 else sizeof_DynamicEntry64) with (dynamic_entry_size hdr).
  rewrite Hmod. simpl negb. cbv iota.
  pose proof (PROGRAM_FIELD_range hdr (entry k) p_filesz) as Hfs. fold filesz in Hfs.
  assert (0 <= filesz / dynamic_entry_size hdr) as Hq by (apply Z.div_pos; lia).
  (* the string table *)
  destruct (FOREACH_DYNAMIC_ENTRY_strtab fd hdr data off s (Z.to_nat (filesz / dynamic_entry_size hdr))
              0 w2 _ UINT64_MAX Hat2 ltac:(lia))
    as (w3 & -> & Ha3 & pos3 & Hat3); auto; try lia.
  { intros j Hj. apply Hdyn. lia. }
  rewrite Ha2 in Ha3. fold dyn strtab_address.
  destruct (Z.eqb_spec strtab_address UINT64_MAX) as [|_]; [contradiction|].
  destruct (find_program_header_seek w3 fd hdr data pos3 Hn Hk Hat3 Hseek)
    as (w4 & Hat4 & Ha4 & ->).
  fold phnum size phoff in Hat4 |- *. rewrite Ha3 in Ha4.
  assert (at_offset w4 fd data (phoff + Z.of_nat 0 * size)) as Hat40
    by (simpl; rewrite Z.add_0_r; exact Hat4).
  destruct (find_program_header_loop_first fd data hdr phoff size PT_LOAD strtab_address
              Hk ltac:(lia) (Z.to_nat phnum) 0%nat l w4 strtab_segment Hat40)
    as (ph'' & w5 & -> & Hat5 & Hph' & Ha5); try lia; try nia; auto.
  { intros j Hj. apply Hlfirst. lia. }
  rewrite Ha4 in Ha5.
  change (1 <? 0) with false. cbv iota.
  rewrite <- !(PROGRAM_FIELD_take hdr size ph'') by exact Hk.
  rewrite Hph'. fold entry strtab_offset.
  (* the path lists *)
  destruct (FOREACH_DYNAMIC_ENTRY_xpaths fd hdr data off strtab_offset DT_RPATH
              (Z.to_nat (filesz / dynamic_entry_size hdr)) Hso 0 w5 _ rpaths Hat5 Ha5 ltac:(lia))
    as (w6 & -> & Ha6 & pos6 & Hat6).
  { intros j Hj. destruct (Hdyn j ltac:(lia)) as [H1 H2].
    split; [exact H1|]. split; [exact H2|]. intros Htag. apply Hstr; [lia|]. left. exact Htag. }
  destruct (FOREACH_DYNAMIC_ENTRY_xpaths fd hdr data off strtab_offset DT_RUNPATH
              (Z.to_nat (filesz / dynamic_entry_size hdr)) Hso 0 w6 _ runpaths Hat6 Ha6 ltac:(lia))
    as (w7 & -> & _).
  { intros j Hj. destruct (Hdyn j ltac:(lia)) as [H1 H2].
    split; [exact H1|]. split; [exact H2|]. intros Htag. apply Hstr; [lia|]. right. exact Htag. }
  eauto.
Qed.

(** ** The loop of [add_xpaths] ends *)

Lemma strnlen_lookup_nul l : forall m i,
  l !! i = Some Byte.x00 -> (strnlen l m <= i)%nat.
Proof.
  induction l as [|b l IH]; intros m i Hi; [rewrite lookup_nil in Hi; discriminate|].
  destruct m as [|m]; simpl; [lia|].
  destruct i as [|i]; simpl in Hi.
  - injection Hi as ->. simpl. lia.
  - destruct (Byte.eqb b Byte.x00); [lia|]. specialize (IH m i Hi). lia.
Qed.

Lemma lookup_repeat {A : Type} (x : A) n i :
  (i < n)%nat -> repeat x n !! i = Some x.
Proof.
  revert i. induction n as [|n IH]; intros i Hi; [lia|].
  destruct i as [|i]; simpl; [reflexivity|]. apply IH. lia.
Qed.

Lemma read_paths_enough fd fuel : forall w paths,
  (paths_measure w fd < fuel)%nat ->
  read_paths fuel w fd paths (length paths) <> None.
Proof.
  induction fuel as [|fuel IH]; intros w paths Hfuel; [lia|].
  cbn [read_paths].
  unfold talloc_realloc.
  destruct (next_alloc w) as [fail w0] eqn:En.
  assert (uninit w0 = uninit w /\ fd_lookup w0 fd = fd_lookup w fd) as [Hu0 Hl0].
  { unfold next_alloc in En. destruct (alloc_faults w); injection En as _ <-; auto. }
  destruct fail; [discriminate|].
  replace (Z.to_nat (Z.of_nat (length paths + 1024)) - length paths)%nat with 1024%nat by lia.
  destruct (indeterminate 1024 w0) as [more w1] eqn:Ei.
  assert (length more = 1024%nat) as Hmore.
  { pose proof (indeterminate_length 1024 w0) as H. rewrite Ei in H. exact H. }
  assert (more = take 1024 (uninit w ++ repeat Byte.x00 1024)
          /\ uninit w1 = drop 1024 (uninit w)
          /\ fd_lookup w1 fd = fd_lookup w fd) as (Hm & Hu1 & Hl1).
  { unfold indeterminate in Ei. injection Ei as <- <-. rewrite Hu0. auto. }
  rewrite Nat2Z.id, take_ge by (rewrite length_app; lia).
  destruct (read w1 fd 1024) as [[status got] w2] eqn:Er.
  destruct (Z.ltb_spec status 0) as [|Hst]; [discriminate|].
  cbv zeta. rewrite take_app_length, !drop_app_length.
  destruct (Nat.eqb_spec (length paths + strnlen (store more got) 1024) (length paths + 1024))
    as [Hfull|]; [|discriminate].
  apply read_inv in Er as [(-> & _)|(file & Hfile & Hgot & Hn & ->)]; [lia|].
  assert (length (paths ++ store more got) = length paths + strnlen (store more got) 1024)%nat
    as Hlen.
  { pose proof (file_bytes_length (of_data file) (of_pos file) 1024) as Hc.
    rewrite <- Hgot in Hc. change (Z.to_nat 1024) with 1024%nat in Hc.
    rewrite Hfull. unfold store. rewrite !length_app, length_drop. lia. }
  rewrite <- Hlen. apply IH.
  (* the measure went down *)
  assert (length got <= 1024)%nat as Hg.
  { pose proof (file_bytes_length (of_data file) (of_pos file) 1024) as Hc.
    rewrite <- Hgot in Hc. change (Z.to_nat 1024) with 1024%nat in Hc. lia. }
  apply fd_lookup_Some_inv in Hfile as Hfile'. destruct Hfile' as [Hfd Hfile'].
  rewrite Hl1 in Hfile.
  unfold paths_measure in *.
  rewrite <- (next_fault_fds w1).
  rewrite fd_lookup_insert by assumption.
  rewrite decide_True by (split; [reflexivity|rewrite next_fault_fds, Hfile'; eauto]).
  rewrite Hfile in Hfuel. simpl of_data. simpl of_pos.
  assert (uninit (set_fds (<[Z.to_nat fd:=Some {| of_data := of_data file; of_pos := of_pos file + status |}]>
                            (fds (next_fault w1).2)) (next_fault w1).2) = uninit w1) as ->.
  { unfold next_fault. destruct (faults w1); reflexivity. }
  rewrite Hu1, length_drop.
  destruct (uninit w) as [|u0 urest] eqn:Eu.
  - (* the fresh bytes are zeros: the read gave 1024 bytes *)
    assert (length got = 1024%nat) as Hg1024.
    { destruct (decide (length got = 1024%nat)) as [|Hne]; [assumption|exfalso].
      assert (store more got !! length got = Some Byte.x00) as Hz.
      { unfold store. rewrite lookup_app_r, Nat.sub_diag by lia.
        rewrite lookup_drop, Nat.add_0_r, Hm, app_nil_l.
        rewrite take_ge by (rewrite repeat_length; lia).
        apply lookup_repeat. lia. }
      pose proof (strnlen_lookup_nul _ 1024 _ Hz). lia. }
    revert Hgot Hfuel. unfold file_bytes. simpl length.
    destruct (Z.ltb_spec (of_pos file) 0); simpl.
    { intros ->. simpl in Hg1024. lia. }
    destruct (Z.leb_spec (Z.of_nat (length (of_data file))) (of_pos file)).
    { intros ->. simpl in Hg1024. lia. }
    intros Hgot Hfuel.
    destruct (Z.ltb_spec (of_pos file + status) 0); [lia|].
    assert (status = 1024) as Hs by lia.
    rewrite Hgot, length_take, length_drop in Hg1024. lia.
  - simpl length in *.
    assert ((if (of_pos file + status <? 0)%Z then 0
             else length (of_data file) - Z.to_nat (of_pos file + status))
            <= (if (of_pos file <? 0)%Z then 0
                else length (of_data file) - Z.to_nat (of_pos file)))%nat as Hrem.
    { destruct (Z.ltb_spec (of_pos file) 0).
      - assert (got = []) as ->.
        { rewrite Hgot. unfold file_bytes.
          destruct (Z.ltb_spec (of_pos file) 0); [reflexivity|lia]. }
        simpl in Hn. subst status. rewrite Z.add_0_r.
        destruct (Z.ltb_spec (of_pos file) 0); lia.
      - destruct (Z.ltb_spec (of_pos file + status) 0); lia. }
    lia.
Qed.

(** [paths_fuel] turns are enough for [add_xpaths]: the case [None] of its
    definition is never taken. *)
Lemma read_paths_fuel w fd : read_paths (paths_fuel w fd) w fd [] 0 <> None.
Proof.
  apply (read_paths_enough fd (paths_fuel w fd) w []).
  unfold paths_fuel, paths_measure.
  destruct (fd_lookup w fd) as [file|]; [|lia].
  destruct (of_pos file <? 0); lia.
Qed.


Lemma two_runpaths_readable : readable_image (take 64 two_runpaths) two_runpaths 1 0 0.
Proof.
  assert (forall j, 0 <= j < 3 -> j = 0 \/ j = 1 \/ j = 2) as Hthree by (intros; lia).
  unfold readable_image.
  change (dynamic_count (take 64 two_runpaths) two_runpaths 1) with 3.
  split; [|split; [|split; [|split; [|split]]]].
  - split; [reflexivity|]. split; [reflexivity|].
    split; [apply seek_ok_small; vm_compute; split; [discriminate|reflexivity]|].
    vm_compute. discriminate.
  - split; [reflexivity|]. split; [reflexivity|].
    intros j Hj. assert (j = 0%nat) as -> by lia. vm_compute. discriminate.
  - split; [reflexivity|].
    intros j Hj.
    destruct (Hthree j Hj) as [-> | [-> | ->]];
      (split; [apply seek_ok_small; vm_compute; split; [discriminate|reflexivity]
              |vm_compute; discriminate]).
  - split; [lia|]. split; [reflexivity|]. split; [intros j Hj; lia|].
    vm_compute. discriminate.
  - split; [reflexivity|]. split; [reflexivity|]. intros j Hj. lia.
  - split; [vm_compute; discriminate|].
    intros j Hj Htag.
    destruct (Hthree j Hj) as [-> | [-> | ->]].
    + exfalso. revert Htag. vm_compute. intros [H|H]; discriminate.
    + split; [apply seek_ok_small; vm_compute; split; [discriminate|reflexivity]|].
      vm_compute. tauto.
    + split; [apply seek_ok_small; vm_compute; split; [discriminate|reflexivity]|].
      vm_compute. tauto.
Qed.



(** ** [add_xpaths] leaves the accumulator alone when it fails *)

(** C10: on every error return of [add_xpaths] (seek failure, negative
    read, allocation failure) the accumulator is what it was before the
    call: it changes on the success path only. *)
Theorem add_xpaths_error_keeps_accumulator w fd offset xpaths status xpaths' w' :
  add_xpaths w fd offset xpaths = (status, xpaths', w') ->
  status < 0 ->
  xpaths' = xpaths.
Proof.
  unfold add_xpaths. intros H Hneg.
  destruct (lseek w fd (to_off_t offset)) as [ret w1].
  destruct (to_int ret <? 0); [congruence|].
  destruct (read_paths (paths_fuel w1 fd) w1 fd [] 0) as [[[[st paths] len] w2]|] eqn:Er;
    [|destruct (read_paths_fuel w1 fd Er)].
  destruct (st <? 0); [congruence|].
  destruct xpaths as [old|].
  - destruct (talloc_realloc w2 (old ++ [Byte.x00]) _) as [[tmp|] w3].
    + injection H as <- _ _. lia.
    + congruence.
  - destruct (talloc_array w2 _) as [[block|] w3].
    + injection H as <- _ _. lia.
    + congruence.
Qed.

Lemma add_xpaths_error_keeps_accumulator_witness :
  (add_xpaths (with_faults [] [false; true] (world_of lib_file)) 3 0
              (Some (bytes_of "/usr/lib"))).1.2
  = Some (bytes_of "/usr/lib").
Proof.
  apply (add_xpaths_error_keeps_accumulator
           (with_faults [] [false; true] (world_of lib_file)) 3 0
           (Some (bytes_of "/usr/lib")) (- ENOMEM) _
           (add_xpaths (with_faults [] [false; true] (world_of lib_file)) 3 0
              (Some (bytes_of "/usr/lib"))).2).
  - vm_compute. reflexivity.
  - vm_compute. reflexivity.
Defined.

(** ** [is_host_elf] *)

Lemma host_elf_machine_loop_spec l m :
  host_elf_machine_loop l m = true <-> accepted_machine l m.
Proof.
  induction l as [|x l IH]; simpl.
  - split; [discriminate|]. intros (i & Hi & _). rewrite lookup_nil in Hi. discriminate.
  - destruct (Z.eqb_spec x 0) as [->|Hx].
    { split; [discriminate|]. intros ([|i] & Hi & Hm & Hz).
      - simpl in Hi. congruence.
      - exfalso. apply (Hz 0%nat); [lia|reflexivity]. }
    destruct (Z.eqb_spec x m) as [->|Hxm].
    { split; [|reflexivity]. intros _. exists 0%nat. repeat split; auto. intros j Hj. lia. }
    rewrite IH. split.
    + intros (i & Hi & Hm & Hz). exists (S i). repeat split; auto.
      intros [|j] Hj; simpl; [congruence|]. apply Hz. lia.
    + intros ([|i] & Hi & Hm & Hz); simpl in Hi; [congruence|].
      exists i. repeat split; auto. intros j Hj. apply (Hz (S j)). lia.
Qed.

Lemma same_settings_trans w1 w2 w3 :
  same_settings w1 w2 -> same_settings w2 w3 -> same_settings w1 w3.
Proof. unfold same_settings. intros [] []. split; congruence. Qed.

Lemma next_fault_settings w : same_settings w (next_fault w).2.
Proof. unfold next_fault. destruct (faults w); split; reflexivity. Qed.

Lemma open_settings w path : same_settings w (open w path).2.
Proof.
  unfold open. pose proof (next_fault_settings w) as H.
  destruct (next_fault w) as [[e|] w0]; simpl in *; [exact H|].
  destruct (fs w0 !! path); exact H.
Qed.

Lemma read_settings w fd count : same_settings w (read w fd count).2.
Proof.
  unfold read. pose proof (next_fault_settings w) as H.
  destruct (next_fault w) as [[e|] w0]; simpl in *; [exact H|].
  destruct (fd_lookup w0 fd); exact H.
Qed.

Lemma close_settings w fd : same_settings w (close w fd).2.
Proof. unfold close. destruct (fd_lookup w fd); split; reflexivity. Qed.

Lemma open_elf_settings w path buffer : same_settings w (open_elf w path buffer).2.
Proof.
  unfold open_elf. pose proof (open_settings w path) as Ho.
  destruct (open w path) as [fd w1]. simpl in Ho.
  destruct (fd <? 0); [exact Ho|].
  pose proof (read_settings w1 fd sizeof_ElfHeader) as Hr.
  destruct (read w1 fd sizeof_ElfHeader) as [[n got] w2]. simpl in Hr.
  pose proof (close_settings w2 fd) as Hc.
  destruct (close w2 fd) as [r w3]. simpl in Hc.
  destruct (_ <? 0); simpl; eauto using same_settings_trans.
Qed.

(** C8: with the memo of the toggle in step with the environment (as it
    is on the first call, and after every call), [is_host_elf] is true
    exactly when PROOT_FORCE_FOREIGN_BINARY is unset, [tracee->qemu] is
    set, [open_elf] succeeds on the file and the machine of its header is
    in [HOST_ELF_MACHINE] before the zero that ends it.  In every other
    case it is false: it has no error to return. *)
Theorem is_host_elf_spec HOST_ELF_MACHINE w tracee host_path :
  force_foreign w < 0 \/ force_foreign w = force_foreign_toggle w ->
  let '(buffer, w0) := indeterminate (Z.to_nat sizeof_ElfHeader) (memoize_force_foreign w) in
  let '(fd, elf_header, w1) := open_elf w0 host_path buffer in
  let '(result, w') := is_host_elf HOST_ELF_MACHINE w tracee host_path in
  (result = true <->
     getenv w "PROOT_FORCE_FOREIGN_BINARY" = None
     /\ is_Some (qemu tracee)
     /\ 0 <= fd
     /\ accepted_machine HOST_ELF_MACHINE (ELF_FIELD elf_header e_machine))
  /\ force_foreign w' = force_foreign_toggle w'.
Proof.
  intros Hmemo. unfold is_host_elf.
  assert (force_foreign (memoize_force_foreign w) = force_foreign_toggle w) as Hff.
  { unfold memoize_force_foreign. destruct (Z.ltb_spec (force_foreign w) 0); [reflexivity|lia]. }
  assert (forall w2, env w2 = env w -> force_foreign w2 = force_foreign_toggle w ->
                     force_foreign w2 = force_foreign_toggle w2) as Hkeep.
  { intros w2 He ->. unfold force_foreign_toggle, getenv. rewrite He. reflexivity. }
  assert (env (memoize_force_foreign w) = env w) as Henv.
  { unfold memoize_force_foreign. destruct (_ <? _); reflexivity. }
  assert (getenv w "PROOT_FORCE_FOREIGN_BINARY" = None <-> force_foreign_toggle w = 0) as Htog.
  { unfold force_foreign_toggle. destruct (getenv w _); simpl; split; congruence. }
  destruct (indeterminate _ (memoize_force_foreign w)) as [buffer w0] eqn:Ei.
  assert (env w0 = env w /\ force_foreign w0 = force_foreign_toggle w) as [Henv0 Hff0].
  { injection Ei as _ <-. simpl. auto. }
  destruct (open_elf w0 host_path buffer) as [[fd elf_header] w1] eqn:Eo.
  assert (env w1 = env w /\ force_foreign w1 = force_foreign_toggle w) as [Henv1 Hff1].
  { pose proof (open_elf_settings w0 host_path buffer) as [H1 H2].
    rewrite Eo in H1, H2. simpl in H1, H2. split; congruence. }
  rewrite Hff.
  destruct (Z.ltb_spec 0 (force_foreign_toggle w)) as [Hset|Hunset]; simpl.
  { split; [|apply Hkeep; auto].
    split; [discriminate|]. intros (Hn & _). apply Htog in Hn. lia. }
  assert (force_foreign_toggle w = 0) as Hzero.
  { unfold force_foreign_toggle in *. destruct (is_non_null _); lia. }
  destruct (qemu tracee) as [q|] eqn:Eq; simpl.
  2:{ split; [|apply Hkeep; auto]. split; [discriminate|]. intros (_ & [? [=]] & _). }
  destruct (Z.ltb_spec fd 0) as [Hfd|Hfd].
  { split; [|apply Hkeep; auto]. split; [discriminate|]. intros (_ & _ & ? & _). lia. }
  destruct (close w1 fd) as [r w2] eqn:Ec.
  assert (env w2 = env w /\ force_foreign w2 = force_foreign_toggle w) as [Henv2 Hff2].
  { pose proof (close_settings w1 fd) as [H1 H2].
    rewrite Ec in H1, H2. simpl in H1, H2. split; congruence. }
  pose proof (host_elf_machine_loop_spec HOST_ELF_MACHINE (ELF_FIELD elf_header e_machine)) as Hl.
  destruct (host_elf_machine_loop HOST_ELF_MACHINE (ELF_FIELD elf_header e_machine)).
  - split.
    + split; [|reflexivity]. intros _. rewrite Htog. repeat split; eauto. apply Hl. reflexivity.
    + apply Hkeep; unfold VERBOSE; destruct (_ <=? _); simpl; auto.
  - split; [|apply Hkeep; auto].
    split; [discriminate|]. intros (_ & _ & _ & Ha). apply Hl in Ha. discriminate.
Qed.

Lemma is_host_elf_spec_witness :
  (is_host_elf x86_64_machines host_world host_tracee "/bin/true").1 = true
  <-> getenv host_world "PROOT_FORCE_FOREIGN_BINARY" = None
      /\ is_Some (qemu host_tracee)
      /\ 0 <= 3
      /\ accepted_machine x86_64_machines 62.
Proof.
  pose proof (is_host_elf_spec x86_64_machines host_world host_tracee "/bin/true"
                               (or_introl eq_refl)) as H.
  vm_compute in H. vm_compute. exact (proj1 H).
Defined.

(** ** Where the code leaves its documentation *)

(** C1: the image [stray_strtab] has a DT_STRTAB entry whose address no
    PT_LOAD segment contains, so the second call of [find_program_header]
    returns 0.  [read_ldso_rpaths] goes on all the same, with the entry the
    search read last (the PT_DYNAMIC one) in [strtab_segment]: it returns 0
    with an RPATH read at offset 176 + 32, not [-ENOEXEC]. *)
Theorem read_ldso_rpaths_stray_strtab :
  locate stray_strtab PT_LOAD 0x9000 = 0
  /\ (read_ldso_rpaths (world_of stray_strtab) 3 (take 64 stray_strtab) None None).1
     = (0, Some (bytes_of "/opt/lib"), None)
  /\ 0 <> - ENOEXEC.
Proof. repeat split; vm_compute; (reflexivity || discriminate). Qed.

(** C2: when read(2) fails with EIO in [add_xpaths], and in the scan of the
    dynamic section, the function returns what read(2) returned, -1 (which
    reads as [-EPERM]), while [errno] is EIO; [find_program_header] and
    [open_elf] return [-EIO] for the same failure. *)
Theorem read_failure_status :
  let w := with_faults [None; Some 5%positive] [] (world_of lib_file) in
  let scan := with_faults [None; None; None; None; Some 5%positive] []
                          (world_of two_runpaths) in
  let table := with_faults [None; Some 5%positive] [] (world_of two_runpaths) in
  let hdr := take 64 two_runpaths in
  ((add_xpaths w 3 0 None).1.1 = -1 /\ errno (add_xpaths w 3 0 None).2 = EIO)
  /\ ((read_ldso_rpaths scan 3 hdr None None).1.1.1 = -1
      /\ errno (read_ldso_rpaths scan 3 hdr None None).2 = EIO)
  /\ (find_program_header table 3 hdr (repeat Byte.x00 56) PT_DYNAMIC UINT64_MAX).1.1 = - EIO
  /\ (open_elf (with_faults [None; Some 5%positive] [] host_world) "/bin/true"
               (repeat Byte.x00 64)).1.1 = - EIO
  /\ -1 = - EPERM /\ - EPERM <> - EIO.
Proof. repeat split; vm_compute; (reflexivity || discriminate). Qed.

(** * Further properties *)

(** ** What the system calls leave as it was *)

Lemma moved_only_refl fd w : moved_only fd w w.
Proof. repeat split; reflexivity. Qed.

Lemma moved_only_trans fd w1 w2 w3 :
  moved_only fd w1 w2 -> moved_only fd w2 w3 -> moved_only fd w1 w3.
Proof.
  intros (Hfs & Ho & Hd) (Hfs' & Ho' & Hd'). split; [congruence|]. split.
  - intros fd' Hne. rewrite Ho', Ho by assumption. reflexivity.
  - congruence.
Qed.

Lemma moved_only_same fd w w' :
  fs w' = fs w -> fds w' = fds w -> moved_only fd w w'.
Proof.
  intros Hfs Hfds. unfold moved_only, fd_lookup. rewrite Hfs, Hfds. auto.
Qed.

Lemma next_fault_fs w : fs (next_fault w).2 = fs w.
Proof. unfold next_fault. destruct (faults w); reflexivity. Qed.

Lemma next_fault_errno w : errno (next_fault w).2 = errno w.
Proof. unfold next_fault. destruct (faults w); reflexivity. Qed.

Lemma moved_only_offset fd w file pos :
  fd_lookup w fd = Some file ->
  moved_only fd w
    (set_fds (<[Z.to_nat fd := Some (mkOpenFile (of_data file) pos)]> (fds w)) w).
Proof.
  intros Hf. pose proof Hf as Hf'. apply fd_lookup_Some_inv in Hf' as [Hfd Hl].
  split; [reflexivity|]. split.
  - intros fd' Hne. rewrite fd_lookup_insert by assumption.
    rewrite decide_False by tauto. reflexivity.
  - rewrite fd_lookup_insert by assumption.
    rewrite decide_True by (rewrite Hl; eauto). rewrite Hf. reflexivity.
Qed.

Lemma lseek_moved w fd offset : moved_only fd w (lseek w fd offset).2.
Proof.
  unfold lseek. destruct (next_fault w) as [f w0] eqn:E.
  assert (w0 = (next_fault w).2) as -> by (rewrite E; reflexivity).
  assert (moved_only fd w (next_fault w).2) as H0.
  { apply moved_only_same; [apply next_fault_fs|apply next_fault_fds]. }
  destruct f as [e|]; [exact H0|].
  destruct (fd_lookup (next_fault w).2 fd) as [file|] eqn:Hf; [|exact H0].
  destruct (offset <? 0); [exact H0|].
  eapply moved_only_trans; [exact H0|]. apply moved_only_offset. exact Hf.
Qed.

Lemma read_moved w fd count : moved_only fd w (read w fd count).2.
Proof.
  unfold read. destruct (next_fault w) as [f w0] eqn:E.
  assert (w0 = (next_fault w).2) as -> by (rewrite E; reflexivity).
  assert (moved_only fd w (next_fault w).2) as H0.
  { apply moved_only_same; [apply next_fault_fs|apply next_fault_fds]. }
  destruct f as [e|]; [exact H0|].
  destruct (fd_lookup (next_fault w).2 fd) as [file|] eqn:Hf; [|exact H0].
  eapply moved_only_trans; [exact H0|]. apply moved_only_offset. exact Hf.
Qed.

(** A system call that fails leaves a positive [errno]; one that succeeds
    leaves [errno] as it was. *)
Lemma lseek_errno w fd offset ret w1 :
  lseek w fd offset = (ret, w1) ->
  (ret = -1 /\ 0 < errno w1) \/ (ret = offset /\ 0 <= offset /\ errno w1 = errno w).
Proof.
  unfold lseek. destruct (next_fault w) as [f w0] eqn:E.
  assert (w0 = (next_fault w).2) as -> by (rewrite E; reflexivity).
  destruct f as [e|]; [intros [= <- <-]; left; simpl; lia|].
  destruct (fd_lookup (next_fault w).2 fd) as [file|];
    [|intros [= <- <-]; left; simpl; unfold EBADF; lia].
  destruct (Z.ltb_spec offset 0); intros [= <- <-].
  - left; simpl; unfold EINVAL; lia.
  - right. simpl. rewrite next_fault_errno. auto.
Qed.

Lemma read_errno w fd count n got w1 :
  read w fd count = (n, got, w1) ->
  (n = -1 /\ 0 < errno w1) \/ (0 <= n /\ errno w1 = errno w).
Proof.
  intros H. pose proof H as H'.
  apply read_inv in H as [(-> & _ & _ & He)|(file & _ & _ & -> & ->)].
  - left. auto.
  - right. simpl. rewrite next_fault_errno. split; [lia|reflexivity].
Qed.


(** ** [find_program_header]: what it touches and what its answer means *)

Lemma notice_moved fd w message : moved_only fd w (notice w message).
Proof. apply moved_only_same; reflexivity. Qed.

Lemma find_program_header_loop_moved n : forall w fd hdr size ph type address,
  moved_only fd w (find_program_header_loop n w fd hdr size ph type address).2.
Proof.
  induction n as [|n IH]; intros w fd hdr size ph type address; simpl.
  - apply moved_only_refl.
  - pose proof (read_moved w fd size) as Hr.
    destruct (read w fd size) as [[status got] w1]. simpl in Hr.
    destruct (negb _); [exact Hr|].
    destruct (entry_found _ _ _ _); [exact Hr|].
    eapply moved_only_trans; [exact Hr|apply IH].
Qed.

Lemma find_program_header_moves_only_aux w fd hdr ph type address :
  moved_only fd w (find_program_header w fd hdr ph type address).2.
Proof.
  unfold find_program_header.
  destruct (0xffff <=? _); [apply notice_moved|].
  destruct (negb _); [apply notice_moved|].
  pose proof (lseek_moved w fd (to_off_t (ELF_FIELD hdr e_phoff))) as Hs.
  destruct (lseek w fd _) as [ret w1]. simpl in Hs.
  destruct (to_int ret <? 0); [exact Hs|].
  eapply moved_only_trans; [exact Hs|apply find_program_header_loop_moved].
Qed.

(** X1: whatever the operating system does, [find_program_header] opens
    and closes nothing and leaves every file as it is: all it changes in
    the descriptor table is the file offset of [fd]. *)
Theorem find_program_header_moves_only w fd hdr ph type address :
  moved_only fd w (find_program_header w fd hdr ph type address).2.
Proof. apply find_program_header_moves_only_aux. Qed.

Lemma find_program_header_loop_sound n :
  forall w fd hdr size ph type address status ph' w',
  find_program_header_loop n w fd hdr size ph type address = (status, ph', w') ->
  0 <= errno w ->
  status <= 1
  /\ (status = 1 -> entry_found hdr ph' type address = true)
  /\ 0 <= errno w'.
Proof.
  induction n as [|n IH]; intros w fd hdr size ph type address status ph' w'; simpl.
  - intros [= <- <- <-] He. split; [lia|]. split; [lia|exact He].
  - destruct (read w fd size) as [[n0 got] w1] eqn:Hr.
    pose proof (read_errno _ _ _ _ _ _ Hr) as Herr.
    destruct (negb (n0 =? size)).
    + intros [= <- <- <-] He. unfold ENOTSUP.
      destruct (Z.ltb_spec n0 0); repeat split; lia.
    + destruct (entry_found hdr (store ph got) type address) eqn:Hfound.
      * intros [= <- <- <-] He. split; [lia|]. split; [intros _; exact Hfound|lia].
      * intros Hloop He. eapply IH; [exact Hloop|lia].
Qed.

(** X2: an answer 1 of [find_program_header] is never wrong, whatever the
    operating system does: the entry it leaves in [program_header] has the
    requested type and, unless the address is the wildcard, contains the
    address (the test of lines 143 to 157 holds of it).  No other
    positive value is returned.  ([errno] is not negative, as in every
    process; the call keeps it so.) *)
Theorem find_program_header_sound w fd hdr ph type address status ph' w' :
  0 <= errno w ->
  find_program_header w fd hdr ph type address = (status, ph', w') ->
  status <= 1
  /\ (status = 1 -> entry_found hdr ph' type address = true)
  /\ 0 <= errno w'.
Proof.
  intros He. unfold find_program_header.
  destruct (0xffff <=? _).
  { intros [= <- <- <-]. unfold ENOTSUP. repeat split; simpl; lia. }
  destruct (negb _).
  { intros [= <- <- <-]. unfold ENOTSUP. repeat split; simpl; lia. }
  destruct (lseek w fd _) as [ret w1] eqn:Hs.
  apply lseek_errno in Hs.
  destruct (to_int ret <? 0).
  - intros [= <- <- <-]. repeat split; lia.
  - intros Hloop. eapply find_program_header_loop_sound; [exact Hloop|lia].
Qed.

Lemma find_program_header_sound_witness :
  (find_program_header (world_of one_load_segment) 3 (take 64 one_load_segment)
                       (repeat Byte.x00 56) PT_LOAD 0x2000).1.1 <= 1
  /\ entry_found (take 64 one_load_segment)
                 (find_program_header (world_of one_load_segment) 3
                    (take 64 one_load_segment) (repeat Byte.x00 56) PT_LOAD 0x2000).1.2
                 PT_LOAD 0x2000 = true.
Proof.
  pose proof (find_program_header_sound
                (world_of one_load_segment) 3 (take 64 one_load_segment)
                (repeat Byte.x00 56) PT_LOAD 0x2000) as H.
  destruct (find_program_header _ _ _ _ _ _) as [[status ph'] w'] eqn:E.
  specialize (H status ph' w' ltac:(simpl; lia) eq_refl) as (H1 & H2 & _).
  split; [exact H1|]. apply H2.
  apply (f_equal (fun r => r.1.1)) in E. vm_compute in E. symmetry. exact E.
Defined.

(** X3: the table offset goes through [(int) lseek(...)]: when bit 31 of
    [e_phoff] is set (and no higher one), the seek succeeds and moves the
    file offset, but its result is taken for negative.  The function then
    returns [-errno] with the [errno] that was there before the call, and
    reads no entry. *)
Theorem find_program_header_seek_truncated w fd hdr ph type address data pos :
  ELF_FIELD hdr e_phnum < 0xffff ->
  KNOWN_PHENTSIZE hdr (ELF_FIELD hdr e_phentsize) = true ->
  at_offset w fd data pos ->
  2 ^ 31 <= ELF_FIELD hdr e_phoff < 2 ^ 32 ->
  exists w',
    find_program_header w fd hdr ph type address = (- errno w, ph, w')
    /\ at_offset w' fd data (ELF_FIELD hdr e_phoff)
    /\ errno w' = errno w.
Proof.
  intros Hnum Hknown [Hf Hfd] Hoff. unfold find_program_header.
  destruct (Z.leb_spec 0xffff (ELF_FIELD hdr e_phnum)); [lia|].
  rewrite Hknown. simpl negb. cbv iota.
  assert (to_off_t (ELF_FIELD hdr e_phoff) = ELF_FIELD hdr e_phoff) as ->.
  { apply to_signed_small; lia. }
  unfold lseek, next_fault. rewrite Hf, Hfd.
  destruct (Z.ltb_spec (ELF_FIELD hdr e_phoff) 0); [lia|].
  assert ((to_int (ELF_FIELD hdr e_phoff) <? 0) = true) as ->.
  { apply Z.ltb_lt. unfold to_int, to_signed.
    replace (ELF_FIELD hdr e_phoff + 2 ^ (32 - 1))
      with (ELF_FIELD hdr e_phoff - 2 ^ 31 + 1 * 2 ^ 32) by lia.
    rewrite Z.mod_add by lia. rewrite Z.mod_small by lia. lia. }
  eexists. split; [reflexivity|]. split; [|reflexivity].
  apply at_offset_set with (data := data) (pos := pos). split; assumption.
Qed.

Lemma find_program_header_seek_truncated_witness :
  exists w',
    find_program_header (world_of motd) 3 (elf64_header 62 0x80000000 56 1)
                        (repeat Byte.x00 56) PT_LOAD UINT64_MAX
    = (- errno (world_of motd), repeat Byte.x00 56, w')
    /\ at_offset w' 3 motd (ELF_FIELD (elf64_header 62 0x80000000 56 1) e_phoff)
    /\ errno w' = errno (world_of motd).
Proof.
  apply (find_program_header_seek_truncated
           (world_of motd) 3 (elf64_header 62 0x80000000 56 1)
           (repeat Byte.x00 56) PT_LOAD UINT64_MAX motd 0).
  - vm_compute. reflexivity.
  - vm_compute. reflexivity.
  - split; reflexivity.
  - vm_compute. split; [discriminate|reflexivity].
Defined.

(** X4: on a table that can be sought and read, [find_program_header]
    returns 1 at the first entry that has the requested type and contains
    the address (entries of the type that do not contain it are passed
    over): that entry is left in [program_header], and the file offset
    just after it. *)
Theorem find_program_header_first_match w fd hdr ph type address data pos (k : nat) :
  let phnum := ELF_FIELD hdr e_phnum in
  let size := ELF_FIELD hdr e_phentsize in
  let phoff := ELF_FIELD hdr e_phoff in
  let entry := table_entry data phoff size in
  phnum < 0xffff -> KNOWN_PHENTSIZE hdr size = true ->
  at_offset w fd data pos -> seek_ok phoff ->
  Z.of_nat k < phnum ->
  phoff + (Z.of_nat k + 1) * size <= Z.of_nat (length data) ->
  entry_found hdr (entry k) type address = true ->
  (forall j : nat, (j < k)%nat -> entry_found hdr (entry j) type address = false) ->
  exists ph' w',
    find_program_header w fd hdr ph type address = (1, ph', w')
    /\ take (Z.to_nat size) ph' = entry k
    /\ at_offset w' fd data (phoff + (Z.of_nat k + 1) * size).
Proof.
  intros phnum size phoff entry Hnum Hknown Hat Hseek Hk Hfit Hfound Hbefore.
  destruct (find_program_header_seek w fd hdr data pos Hnum Hknown Hat Hseek)
    as (w1 & Hat1 & _ & ->).
  assert (0 <= phoff) as Hpos by (destruct Hseek; lia).
  destruct (find_program_header_loop_first fd data hdr phoff size type address
              Hknown Hpos (Z.to_nat phnum) 0 k w1 ph) as (ph' & w' & E & Hat' & Hph & _).
  - replace (phoff + Z.of_nat 0 * size) with phoff by lia. exact Hat1.
  - lia.
  - exact Hfit.
  - exact Hfound.
  - intros j Hj. apply Hbefore. lia.
  - exists ph', w'. auto.
Qed.

Lemma find_program_header_first_match_witness :
  exists ph' w',
    find_program_header (world_of two_runpaths) 3 (take 64 two_runpaths)
                        (repeat Byte.x00 56) PT_LOAD 0x10e0 = (1, ph', w')
    /\ take (Z.to_nat (ELF_FIELD (take 64 two_runpaths) e_phentsize)) ph'
       = table_entry two_runpaths (ELF_FIELD (take 64 two_runpaths) e_phoff)
                     (ELF_FIELD (take 64 two_runpaths) e_phentsize) 0
    /\ at_offset w' 3 two_runpaths
         (ELF_FIELD (take 64 two_runpaths) e_phoff
          + (Z.of_nat 0 + 1) * ELF_FIELD (take 64 two_runpaths) e_phentsize).
Proof.
  apply (find_program_header_first_match
           (world_of two_runpaths) 3 (take 64 two_runpaths) (repeat Byte.x00 56)
           PT_LOAD 0x10e0 two_runpaths 0 0).
  - vm_compute. reflexivity.
  - vm_compute. reflexivity.
  - split; reflexivity.
  - apply seek_ok_small. vm_compute. split; [discriminate|reflexivity].
  - vm_compute. reflexivity.
  - vm_compute. discriminate.
  - vm_compute. reflexivity.
  - intros j Hj. lia.
Defined.

(** X5: on a table that can be sought and read and has no entry of the
    requested type that contains the address, [find_program_header]
    returns 0 with the file offset at the end of the table; what it leaves
    in [program_header] is the last entry of the table (the caller's bytes
    only when the table is empty). *)
Theorem find_program_header_no_match w fd hdr ph type address data pos :
  let phnum := ELF_FIELD hdr e_phnum in
  let size := ELF_FIELD hdr e_phentsize in
  let phoff := ELF_FIELD hdr e_phoff in
  let entry := table_entry data phoff size in
  phnum < 0xffff -> KNOWN_PHENTSIZE hdr size = true ->
  at_offset w fd data pos -> seek_ok phoff ->
  phoff + phnum * size <= Z.of_nat (length data) ->
  (forall j : nat, Z.of_nat j < phnum -> entry_found hdr (entry j) type address = false) ->
  exists ph' w',
    find_program_header w fd hdr ph type address = (0, ph', w')
    /\ at_offset w' fd data (phoff + phnum * size)
    /\ (phnum = 0 -> ph' = ph)
    /\ (0 < phnum -> take (Z.to_nat size) ph' = entry (Z.to_nat phnum - 1)%nat).
Proof.
  intros phnum size phoff entry Hnum Hknown Hat Hseek Hfit Hnone.
  destruct (find_program_header_seek w fd hdr data pos Hnum Hknown Hat Hseek)
    as (w1 & Hat1 & _ & ->).
  assert (0 <= phoff) as Hpos by (destruct Hseek; lia).
  pose proof (ELF_FIELD_range hdr e_phnum) as Hrange. fold phnum in Hrange.
  destruct (find_program_header_loop_none fd data hdr phoff size type address
              Hknown Hpos (Z.to_nat phnum) 0 w1 ph) as (ph' & w' & E & Hat' & Hph & _).
  - replace (phoff + Z.of_nat 0 * size) with phoff by lia. exact Hat1.
  - rewrite Z2Nat.id by lia. simpl. exact Hfit.
  - intros j Hj. apply Hnone. lia.
  - exists ph', w'. split; [exact E|]. split.
    { rewrite Z2Nat.id in Hat' by lia. exact Hat'. }
    split.
    + intros H0. fold phnum in Hph. rewrite H0 in Hph. exact Hph.
    + intros H0. fold phnum in Hph.
      destruct (Z.to_nat phnum) as [|m] eqn:Em; [lia|].
      simpl in Hph. rewrite Hph. unfold entry. f_equal. lia.
Qed.

Lemma find_program_header_no_match_witness :
  exists ph' w',
    find_program_header (world_of two_runpaths) 3 (take 64 two_runpaths)
                        (repeat Byte.x00 56) PT_LOAD 0x9000 = (0, ph', w')
    /\ at_offset w' 3 two_runpaths
         (ELF_FIELD (take 64 two_runpaths) e_phoff
          + ELF_FIELD (take 64 two_runpaths) e_phnum
            * ELF_FIELD (take 64 two_runpaths) e_phentsize)
    /\ (ELF_FIELD (take 64 two_runpaths) e_phnum = 0 -> ph' = repeat Byte.x00 56)
    /\ (0 < ELF_FIELD (take 64 two_runpaths) e_phnum ->
        take (Z.to_nat (ELF_FIELD (take 64 two_runpaths) e_phentsize)) ph'
        = table_entry two_runpaths (ELF_FIELD (take 64 two_runpaths) e_phoff)
            (ELF_FIELD (take 64 two_runpaths) e_phentsize)
            (Z.to_nat (ELF_FIELD (take 64 two_runpaths) e_phnum) - 1)%nat).
Proof.
  apply (find_program_header_no_match
           (world_of two_runpaths) 3 (take 64 two_runpaths) (repeat Byte.x00 56)
           PT_LOAD 0x9000 two_runpaths 0).
  - vm_compute. reflexivity.
  - vm_compute. reflexivity.
  - split; reflexivity.
  - apply seek_ok_small. vm_compute. split; [discriminate|reflexivity].
  - vm_compute. discriminate.
  - intros j Hj.
    assert (ELF_FIELD (take 64 two_runpaths) e_phnum = 2) as E by (vm_compute; reflexivity).
    rewrite E in Hj.
    assert (j = 0 \/ j = 1)%nat as [-> | ->] by lia; vm_compute; reflexivity.
Defined.


(** ** [open_elf]: its outcomes *)

Lemma open_fs w path : fs (open w path).2 = fs w.
Proof.
  unfold open, next_fault.
  destruct (faults w) as [|[e|] rest]; simpl; try reflexivity;
    destruct (fs w !! path); reflexivity.
Qed.

Lemma close_fs w fd : fs (close w fd).2 = fs w.
Proof. unfold close. destruct (fd_lookup w fd); reflexivity. Qed.

Lemma read_fs w fd count : fs (read w fd count).2 = fs w.
Proof. apply (read_moved w fd count). Qed.

(** open(2) fails with [-1], a positive [errno] and the table as it was,
    or returns a descriptor. *)
Lemma open_inv w path fd w1 :
  open w path = (fd, w1) ->
  (fd = -1 /\ 0 < errno w1 /\ fds w1 = fds w) \/ 0 <= fd.
Proof.
  unfold open, next_fault.
  destruct (faults w) as [|[e|] rest]; simpl.
  - destruct (fs w !! path); intros [= <- <-]; [right; lia|left].
    simpl. unfold ENOENT. auto with lia.
  - intros [= <- <-]. left. simpl. auto with lia.
  - destruct (fs w !! path); intros [= <- <-]; [right; lia|left].
    simpl. unfold ENOENT. auto with lia.
Qed.

(** The paths through [open_elf]: the open fails; the read fails; the
    header is refused; the header is accepted. *)
Lemma open_elf_cases w t_path buf :
  (exists w1,
     open w t_path = (-1, w1) /\ 0 < errno w1 /\ fds w1 = fds w
     /\ open_elf w t_path buf = (- errno w1, buf, w1))
  \/ (exists fd w1 n got w2,
        open w t_path = (fd, w1) /\ 0 <= fd
        /\ read w1 fd sizeof_ElfHeader = (n, got, w2)
        /\ ((n = -1 /\ 0 < errno w2
             /\ open_elf w t_path buf = (- errno w2, store buf got, (close w2 fd).2))
            \/ (0 <= n /\ ~ (sizeof_ElfHeader <= n /\ valid_elf_header (store buf got))
                /\ open_elf w t_path buf = (- ENOEXEC, store buf got, (close w2 fd).2))
            \/ (0 <= n /\ sizeof_ElfHeader <= n /\ valid_elf_header (store buf got)
                /\ open_elf w t_path buf = (fd, store buf got, w2)))).
Proof.
  unfold open_elf. destruct (open w t_path) as [fd w1] eqn:Ho.
  destruct (open_inv _ _ _ _ Ho) as [(-> & He & Hfds)|Hfd].
  - left. exists w1. auto.
  - right. destruct (Z.ltb_spec fd 0); [lia|].
    destruct (read w1 fd sizeof_ElfHeader) as [[n got] w2] eqn:Hr.
    exists fd, w1, n, got, w2. do 3 (split; [auto|]).
    destruct (read_errno _ _ _ _ _ _ Hr) as [[-> He]|[Hn _]].
    + left. change (-1 <? 0) with true. cbv iota.
      destruct (Z.ltb_spec (- errno w2) 0); [|lia].
      destruct (close w2 fd) as [r w3]. auto.
    + right. destruct (Z.ltb_spec n 0); [lia|].
      destruct (check_elf_header_spec n (store buf got) Hn) as [(-> & Hsz & Hv)|(-> & Hbad)].
      * right. change (0 <? 0) with false. cbv iota. auto.
      * left. change (- ENOEXEC <? 0) with true. cbv iota.
        destruct (close w2 fd) as [r w3]. auto.
Qed.

(** Closing the descriptor that open(2) gave brings the table back. *)
Lemma open_read_close_lookup w path fd w1 count n got w2 fd' :
  open w path = (fd, w1) -> 0 <= fd ->
  read w1 fd count = (n, got, w2) ->
  fd_lookup (close w2 fd).2 fd' = fd_lookup w fd'.
Proof.
  intros Ho Hfd Hr.
  destruct (close w2 fd) as [r w3] eqn:Ec. simpl.
  rewrite (close_fd_lookup _ _ _ _ fd' Ec).
  destruct (open_fd_lookup w path fd w1 fd' Ho Hfd) as (Hfree & _ & Hother).
  destruct (decide (fd' = fd)) as [->|Hne].
  - symmetry. exact Hfree.
  - rewrite (proj1 (read_fd_lookup w1 fd _ n got w2 fd' Hr)) by assumption.
    apply Hother. assumption.
Qed.

Lemma file_bytes_start data count : file_bytes data 0 count = take (Z.to_nat count) data.
Proof.
  unfold file_bytes. destruct (Z.leb_spec (Z.of_nat (length data)) 0); simpl; [|reflexivity].
  destruct data; [|simpl in *; lia]. rewrite take_nil. reflexivity.
Qed.

(** X6: whatever the operating system does, [open_elf] leaves no
    descriptor behind when it fails (its status is negative and every
    descriptor is what it was), and when it succeeds the status is a
    descriptor that was free, now open on the file named by [t_path] with
    the file offset just after the header; the caller's buffer holds the
    first 64 bytes of that file, and no other descriptor has changed.  The
    files are as they were in both cases. *)
Theorem open_elf_descriptors w t_path buf status hdr' w' :
  open_elf w t_path buf = (status, hdr', w') ->
  fs w' = fs w
  /\ (status < 0 -> forall fd', fd_lookup w' fd' = fd_lookup w fd')
  /\ (0 <= status ->
      fd_lookup w status = None
      /\ (exists data,
            fs w !! t_path = Some data
            /\ fd_lookup w' status = Some (mkOpenFile data sizeof_ElfHeader)
            /\ hdr' = store buf (take 64 data))
      /\ forall fd', fd' <> status -> fd_lookup w' fd' = fd_lookup w fd').
Proof.
  intros H.
  destruct (open_elf_cases w t_path buf) as
    [(w1 & Ho & He & Hfds & E)
    |(fd & w1 & n & got & w2 & Ho & Hfd & Hr & [(-> & He & E)|[(Hn & Hbad & E)|(Hn & Hsz & Hv & E)]])];
    rewrite E in H; injection H as <- <- <-.
  - split; [rewrite <- (open_fs w t_path), Ho; reflexivity|].
    split; [|intros; lia]. intros _ fd'. unfold fd_lookup. rewrite Hfds. reflexivity.
  - split.
    { rewrite close_fs, <- (open_fs w t_path), Ho. simpl.
      rewrite <- (read_fs w1 fd sizeof_ElfHeader), Hr. reflexivity. }
    split; [|intros; lia]. intros _ fd'.
    eapply open_read_close_lookup; eassumption.
  - split.
    { rewrite close_fs, <- (open_fs w t_path), Ho. simpl.
      rewrite <- (read_fs w1 fd sizeof_ElfHeader), Hr. reflexivity. }
    split; [|unfold ENOEXEC; intros; lia]. intros _ fd'.
    eapply open_read_close_lookup; eassumption.
  - split.
    { rewrite <- (open_fs w t_path), Ho. simpl.
      rewrite <- (read_fs w1 fd sizeof_ElfHeader), Hr. reflexivity. }
    split; [intros; lia|]. intros _.
    pose proof (fun fd' => open_fd_lookup w t_path fd w1 fd' Ho Hfd) as Hopen.
    destruct (Hopen fd) as (Hfree & (data & Hdata & Hl) & _).
    split; [exact Hfree|]. split.
    + exists data. split; [exact Hdata|].
      pose proof (read_count _ _ _ _ _ _ Hr ltac:(discriminate)) as [Hle _].
      pose proof Hr as Hr'.
      apply read_inv in Hr' as [(-> & _)|(file & Hf & Hgot & Hlen & ->)]; [lia|].
      rewrite Hl in Hf. injection Hf as <-. simpl in Hgot, Hlen |- *.
      rewrite file_bytes_start in Hgot.
      pose proof Hl as Hl'. apply fd_lookup_Some_inv in Hl' as [_ Hl'].
      rewrite <- (next_fault_fds w1), fd_lookup_insert, next_fault_fds by assumption.
      rewrite decide_True by (rewrite Hl'; eauto).
      split; [|rewrite Hgot; reflexivity]. do 2 f_equal. lia.
    + intros fd' Hne.
      rewrite (proj1 (read_fd_lookup w1 fd _ n got w2 fd' Hr)) by assumption.
      apply Hopen. assumption.
Qed.

Lemma open_elf_descriptors_witness :
  fd_lookup host_world 3 = None
  /\ (exists data,
        fs host_world !! "/bin/true"%string = Some data
        /\ fd_lookup (open_elf host_world "/bin/true" (repeat Byte.x00 64)).2 3
           = Some (mkOpenFile data sizeof_ElfHeader)
        /\ (open_elf host_world "/bin/true" (repeat Byte.x00 64)).1.2
           = store (repeat Byte.x00 64) (take 64 data))
  /\ forall fd', fd' <> 3 ->
       fd_lookup (open_elf host_world "/bin/true" (repeat Byte.x00 64)).2 fd'
       = fd_lookup host_world fd'.
Proof.
  pose proof (open_elf_descriptors host_world "/bin/true" (repeat Byte.x00 64)) as H.
  destruct (open_elf host_world "/bin/true" (repeat Byte.x00 64)) as [[status hdr'] w'] eqn:E.
  assert (status = 3) as ->.
  { apply (f_equal (fun r => r.1.1)) in E. vm_compute in E. symmetry. exact E. }
  destruct (H 3 hdr' w' eq_refl) as (_ & _ & Hok).
  apply Hok. lia.
Defined.

(** X7: the error [open_elf] returns is the one of the system call that
    failed: [-ENOENT] when no file has the name, [-e] when open(2) fails
    with [errno = e], and also [-e] when read(2) then fails with
    [errno = e]: the close(2) that follows does not change the status, and
    the table of descriptors is what it was. *)
Theorem open_elf_errors w t_path buf :
  (fs w !! t_path = None -> faults w = [] ->
   open_elf w t_path buf = (- ENOENT, buf, set_errno ENOENT w))
  /\ (forall e rest,
        faults w = Some e :: rest ->
        open_elf w t_path buf = (- Z.pos e, buf, set_errno (Z.pos e) (set_faults rest w)))
  /\ (forall e rest data,
        faults w = None :: Some e :: rest -> fs w !! t_path = Some data ->
        exists w',
          open_elf w t_path buf = (- Z.pos e, buf, w')
          /\ errno w' = Z.pos e /\ faults w' = rest
          /\ forall fd', fd_lookup w' fd' = fd_lookup w fd').
Proof.
  split; [|split].
  - intros Hnone Hf. unfold open_elf, open, next_fault. rewrite Hf, Hnone. reflexivity.
  - intros e rest Hf. unfold open_elf, open, next_fault. rewrite Hf. reflexivity.
  - intros e rest data Hf Hdata.
    destruct (open w t_path) as [fd w1] eqn:Ho.
    assert (0 <= fd /\ faults w1 = Some e :: rest) as [Hfd Hf1].
    { revert Ho. unfold open, next_fault. rewrite Hf. simpl. rewrite Hdata.
      intros [= <- <-]. split; [lia|reflexivity]. }
    destruct (read w1 fd sizeof_ElfHeader) as [[n got] w2] eqn:Hr.
    assert (n = -1 /\ got = [] /\ w2 = set_errno (Z.pos e) (set_faults rest w1))
      as (-> & -> & Hw2).
    { revert Hr. unfold read, next_fault. rewrite Hf1. intros [= <- <- <-]. auto. }
    exists (close w2 fd).2. split; [|split; [|split]].
    + unfold open_elf. rewrite Ho.
      destruct (Z.ltb_spec fd 0); [lia|]. rewrite Hr.
      change (-1 <? 0) with true. cbv iota.
      assert (errno w2 = Z.pos e) as -> by (rewrite Hw2; reflexivity).
      change (- Z.pos e <? 0) with true. cbv iota.
      destruct (close w2 fd) as [r w3]. reflexivity.
    + unfold close.
      assert (is_Some (fd_lookup w2 fd)) as [file ->].
      { apply (proj2 (read_fd_lookup w1 fd _ _ _ w2 fd Hr)).
        destruct (open_fd_lookup w t_path fd w1 fd Ho Hfd) as (_ & (d & _ & ->) & _). eauto. }
      rewrite Hw2. reflexivity.
    + unfold close.
      assert (is_Some (fd_lookup w2 fd)) as [file ->].
      { apply (proj2 (read_fd_lookup w1 fd _ _ _ w2 fd Hr)).
        destruct (open_fd_lookup w t_path fd w1 fd Ho Hfd) as (_ & (d & _ & ->) & _). eauto. }
      rewrite Hw2. reflexivity.
    + intros fd'. eapply open_read_close_lookup; eassumption.
Qed.

Lemma open_elf_errors_witness :
  open_elf host_world "/bin/false" (repeat Byte.x00 64)
  = (- ENOENT, repeat Byte.x00 64, set_errno ENOENT host_world)
  /\ open_elf (with_faults [Some 13%positive] [] host_world) "/bin/true" (repeat Byte.x00 64)
     = (- 13, repeat Byte.x00 64,
        set_errno 13 (set_faults [] (with_faults [Some 13%positive] [] host_world)))
  /\ exists w',
       open_elf (with_faults [None; Some 5%positive] [] host_world) "/bin/true"
                (repeat Byte.x00 64)
       = (- 5, repeat Byte.x00 64, w')
       /\ errno w' = 5 /\ faults w' = []
       /\ forall fd', fd_lookup w' fd'
                      = fd_lookup (with_faults [None; Some 5%positive] [] host_world) fd'.
Proof.
  split; [|split].
  - apply (proj1 (open_elf_errors host_world "/bin/false" (repeat Byte.x00 64)));
      vm_compute; reflexivity.
  - apply (proj1 (proj2 (open_elf_errors (with_faults [Some 13%positive] [] host_world)
                           "/bin/true" (repeat Byte.x00 64))) 13%positive []).
    reflexivity.
  - apply (proj2 (proj2 (open_elf_errors (with_faults [None; Some 5%positive] [] host_world)
                           "/bin/true" (repeat Byte.x00 64))) 5%positive [] two_runpaths).
    + reflexivity.
    + vm_compute. reflexivity.
Defined.


Lemma valid_elf_header_store buf data :
  64 <= Z.of_nat (length data) ->
  valid_elf_header (store buf (take 64 data)) <-> valid_elf_header data.
Proof.
  intros Hlen.
  assert (forall i, (i < 64)%nat -> ELF_IDENT (store buf (take 64 data)) i = ELF_IDENT data i)
    as Hid.
  { intros i Hi. unfold ELF_IDENT.
    rewrite field_store by (rewrite length_take; lia).
    apply field_take. lia. }
  unfold valid_elf_header, ELF_CLASS. rewrite !Hid by lia. reflexivity.
Qed.

(** What [open_elf] makes of a file, when the operating system lets the
    calls through. *)
Lemma open_elf_on_file w t_path buf data :
  faults w = [] -> fs w !! t_path = Some data ->
  let fd := Z.of_nat (lowest_free (fds w)) in
  let accepted := 64 <= Z.of_nat (length data) /\ valid_elf_header data in
  (accepted ->
   exists w',
     open_elf w t_path buf = (fd, store buf (take 64 data), w')
     /\ at_offset w' fd data 64)
  /\ (~ accepted ->
      exists w',
        open_elf w t_path buf = (- ENOEXEC, store buf (take 64 data), w')
        /\ same_descriptors w w').
Proof.
  intros Hf Hdata fd accepted.
  assert (open w t_path = (fd, set_fds (install (fds w) (mkOpenFile data 0)) w)) as Ho.
  { unfold open, next_fault. rewrite Hf, Hdata. reflexivity. }
  assert (0 <= fd) as Hfd by (unfold fd; lia).
  set (w1 := set_fds (install (fds w) (mkOpenFile data 0)) w) in *.
  assert (at_offset w1 fd data 0) as Hat.
  { split; [exact Hf|].
    destruct (open_fd_lookup w t_path fd w1 fd Ho Hfd) as (_ & (d & Hd & Hl) & _).
    rewrite Hl. congruence. }
  destruct (read_at w1 fd data 0 sizeof_ElfHeader Hat ltac:(lia)) as (w2 & Hr & Hat2 & _).
  assert (bytes_at data 0 sizeof_ElfHeader = take 64 data) as Hgot by reflexivity.
  rewrite Hgot in Hr, Hat2.
  assert (accepted ->
          sizeof_ElfHeader <= Z.of_nat (length (take 64 data))
          /\ valid_elf_header (store buf (take 64 data))) as Hyes.
  { intros [Hlen Hv]. split.
    - rewrite length_take. unfold sizeof_ElfHeader. lia.
    - apply valid_elf_header_store; assumption. }
  assert (sizeof_ElfHeader <= Z.of_nat (length (take 64 data))
          /\ valid_elf_header (store buf (take 64 data)) -> accepted) as Hno.
  { intros [Hlen Hv]. rewrite length_take in Hlen. unfold sizeof_ElfHeader in Hlen.
    assert (64 <= Z.of_nat (length data)) as Hlen' by lia.
    split; [exact Hlen'|]. apply (valid_elf_header_store buf); assumption. }
  destruct (open_elf_cases w t_path buf) as
    [(w1' & Ho' & _)
    |(fd' & w1' & n & got & w2' & Ho' & _ & Hr' & Hcases)].
  { rewrite Ho in Ho'. injection Ho' as Ho' _. lia. }
  rewrite Ho in Ho'. injection Ho' as <- <-.
  rewrite Hr in Hr'. injection Hr' as <- <- <-.
  destruct Hcases as [(Hn & _)|[(_ & Hbad & E)|(_ & Hsz & Hv & E)]]; [lia| |].
  - split; [intros Hacc; tauto|]. intros _.
    exists (close w2 fd).2. split; [exact E|]. split.
    + rewrite close_fs. pose proof (read_fs w1 fd sizeof_ElfHeader) as Hfs.
      rewrite Hr in Hfs. exact Hfs.
    + intros fd'. eapply open_read_close_lookup; eassumption.
  - split; [|intros Hacc; tauto]. intros _.
    exists w2. split; [exact E|].
    rewrite length_take in Hat2.
    rewrite length_take in Hsz. unfold sizeof_ElfHeader in Hsz.
    replace (0 + Z.of_nat (64 `min` length data)) with 64 in Hat2 by lia.
    exact Hat2.
Qed.

(** X8: when the operating system lets the calls through, [open_elf]
    succeeds exactly on the files that have at least 64 bytes, start with
    0x7F 'E' 'L' 'F' and have the class byte 1 or 2.  It then returns the
    lowest free descriptor, open on the file at offset 64, with the first
    64 bytes of the file in the caller's buffer; every other file gives
    [-ENOEXEC] and a table of descriptors that is what it was. *)
Theorem open_elf_accepts w t_path buf data :
  faults w = [] -> fs w !! t_path = Some data ->
  let fd := Z.of_nat (lowest_free (fds w)) in
  let accepted := 64 <= Z.of_nat (length data) /\ valid_elf_header data in
  (accepted ->
   exists w',
     open_elf w t_path buf = (fd, store buf (take 64 data), w')
     /\ at_offset w' fd data 64)
  /\ (~ accepted ->
      exists w',
        open_elf w t_path buf = (- ENOEXEC, store buf (take 64 data), w')
        /\ same_descriptors w w').
Proof. exact (open_elf_on_file w t_path buf data). Qed.

Lemma open_elf_accepts_witness :
  (exists w',
     open_elf host_world "/bin/true" (repeat Byte.x00 64)
     = (3, store (repeat Byte.x00 64) (take 64 two_runpaths), w')
     /\ at_offset w' 3 two_runpaths 64)
  /\ (exists w',
        open_elf host_world "/etc/motd" (repeat Byte.x00 64)
        = (- ENOEXEC, store (repeat Byte.x00 64) (take 64 motd), w')
        /\ same_descriptors host_world w').
Proof.
  split.
  - apply (proj1 (open_elf_accepts host_world "/bin/true" (repeat Byte.x00 64) two_runpaths
                    eq_refl ltac:(vm_compute; reflexivity))).
    split; [vm_compute; discriminate|].
    vm_compute. repeat split; auto.
  - apply (proj2 (open_elf_accepts host_world "/etc/motd" (repeat Byte.x00 64) motd
                    eq_refl ltac:(vm_compute; reflexivity))).
    intros [_ Hv]. vm_compute in Hv. destruct Hv as [Hv _]. discriminate.
Defined.


(** ** [is_host_elf]: descriptors, files, memo, diagnostics *)

(** After [open_elf], and the close(2) of the descriptor when there is
    one, the files and descriptors are what they were. *)
Lemma open_elf_closed w path buf :
  same_descriptors w
    (if (open_elf w path buf).1.1 <? 0 then (open_elf w path buf).2
     else (close (open_elf w path buf).2 (open_elf w path buf).1.1).2).
Proof.
  destruct (open_elf_cases w path buf) as
    [(w1 & Ho & He & Hfds & E)
    |(fd & w1 & n & got & w2 & Ho & Hfd & Hr & [(-> & He & E)|[(Hn & Hbad & E)|(Hn & Hsz & Hv & E)]])];
    rewrite E; simpl.
  - destruct (Z.ltb_spec (- errno w1) 0); [|lia]. split.
    + rewrite <- (open_fs w path), Ho. reflexivity.
    + intros fd'. unfold fd_lookup. rewrite Hfds. reflexivity.
  - assert (fs w2 = fs w) as Hfs.
    { rewrite <- (open_fs w path), Ho. simpl.
      rewrite <- (read_fs w1 fd sizeof_ElfHeader), Hr. reflexivity. }
    destruct (Z.ltb_spec (- errno w2) 0); [|lia]. split.
    + rewrite close_fs. exact Hfs.
    + intros fd'. eapply open_read_close_lookup; eassumption.
  - assert (fs w2 = fs w) as Hfs.
    { rewrite <- (open_fs w path), Ho. simpl.
      rewrite <- (read_fs w1 fd sizeof_ElfHeader), Hr. reflexivity. }
    change (- ENOEXEC <? 0) with true. cbv iota. split.
    + rewrite close_fs. exact Hfs.
    + intros fd'. eapply open_read_close_lookup; eassumption.
  - assert (fs w2 = fs w) as Hfs.
    { rewrite <- (open_fs w path), Ho. simpl.
      rewrite <- (read_fs w1 fd sizeof_ElfHeader), Hr. reflexivity. }
    destruct (Z.ltb_spec fd 0); [lia|]. split.
    + rewrite close_fs. exact Hfs.
    + intros fd'. eapply open_read_close_lookup; eassumption.
Qed.

Lemma same_descriptors_same w w' :
  fs w' = fs w -> fds w' = fds w -> same_descriptors w w'.
Proof. intros Hfs Hfds. unfold same_descriptors, fd_lookup. rewrite Hfs, Hfds. auto. Qed.

Lemma same_descriptors_trans w1 w2 w3 :
  same_descriptors w1 w2 -> same_descriptors w2 w3 -> same_descriptors w1 w3.
Proof.
  intros [Hfs Hl] [Hfs' Hl']. split; [congruence|].
  intros fd. rewrite Hl', Hl. reflexivity.
Qed.

Lemma memoize_force_foreign_same w :
  fs (memoize_force_foreign w) = fs w /\ fds (memoize_force_foreign w) = fds w
  /\ faults (memoize_force_foreign w) = faults w
  /\ notices (memoize_force_foreign w) = notices w
  /\ env (memoize_force_foreign w) = env w.
Proof. unfold memoize_force_foreign. destruct (_ <? _); simpl; auto. Qed.

Lemma VERBOSE_same w tracee level message :
  fs (VERBOSE w tracee level message) = fs w
  /\ fds (VERBOSE w tracee level message) = fds w.
Proof. unfold VERBOSE. destruct (_ <=? _); simpl; auto. Qed.

(** X9: whatever the operating system does and whatever the answer is,
    [is_host_elf] leaves no descriptor open: after the call the files and
    every descriptor are what they were before it. *)
Theorem is_host_elf_no_leak HOST_ELF_MACHINE w tracee host_path :
  same_descriptors w (is_host_elf HOST_ELF_MACHINE w tracee host_path).2.
Proof.
  unfold is_host_elf.
  destruct (memoize_force_foreign_same w) as (Hfs0 & Hfds0 & _).
  set (w0 := memoize_force_foreign w) in *.
  destruct (_ || _); [apply same_descriptors_same; assumption|].
  unfold indeterminate.
  set (buf := take _ _). set (w1 := set_uninit _ w0).
  assert (same_descriptors w w1) as H1.
  { apply same_descriptors_same; assumption. }
  pose proof (open_elf_closed w1 host_path buf) as Hc.
  destruct (open_elf w1 host_path buf) as [[fd hdr] w2]. simpl in Hc.
  destruct (fd <? 0); [eapply same_descriptors_trans; eassumption|].
  destruct (close w2 fd) as [r w3]. simpl in Hc.
  assert (same_descriptors w w3) as H3 by (eapply same_descriptors_trans; eassumption).
  destruct (host_elf_machine_loop _ _); [|exact H3].
  destruct (VERBOSE_same w3 tracee 1 "'%s' is a host ELF") as [Hfs Hfds].
  eapply same_descriptors_trans; [exact H3|]. apply same_descriptors_same; assumption.
Qed.

Lemma ELF_FIELD_store buf data name :
  64 <= Z.of_nat (length data) ->
  ELF_FIELD (store buf (take 64 data)) name = ELF_FIELD data name.
Proof.
  intros Hlen.
  assert (forall o s, (o + s <= 64)%nat ->
            field (store buf (take 64 data)) o s = field data o s) as Hf.
  { intros o s Hos. rewrite field_store by (rewrite length_take; lia).
    apply field_take. lia. }
  unfold ELF_FIELD, IS_CLASS64, ELF_CLASS, ELF_IDENT.
  rewrite (Hf 4%nat 1%nat) by lia.
  destruct (field data 4 1 =? 2); destruct name; simpl; apply Hf; lia.
Qed.

Lemma accepted_dec (data : list byte) :
  let accepted := 64 <= Z.of_nat (length data) /\ valid_elf_header data in
  accepted \/ ~ accepted.
Proof. unfold valid_elf_header. lia. Qed.

(** X10: when the operating system lets the calls through and the memo of
    the toggle is in step with the environment, [is_host_elf] is true
    exactly when PROOT_FORCE_FOREIGN_BINARY is unset, [tracee->qemu] is
    set, and [host_path] names a file of at least 64 bytes that starts
    with 0x7F 'E' 'L' 'F', has the class byte 1 or 2 and whose [e_machine]
    (read according to the class) is in [HOST_ELF_MACHINE] before the zero
    that ends it.  A name that no file has gives false. *)
Theorem is_host_elf_files HOST_ELF_MACHINE w tracee host_path :
  faults w = [] ->
  force_foreign w < 0 \/ force_foreign w = force_foreign_toggle w ->
  (is_host_elf HOST_ELF_MACHINE w tracee host_path).1 = true
  <-> getenv w "PROOT_FORCE_FOREIGN_BINARY" = None
      /\ is_Some (qemu tracee)
      /\ exists data,
           fs w !! host_path = Some data
           /\ 64 <= Z.of_nat (length data) /\ valid_elf_header data
           /\ accepted_machine HOST_ELF_MACHINE (ELF_FIELD data e_machine).
Proof.
  intros Hf Hmemo. unfold is_host_elf.
  assert (force_foreign (memoize_force_foreign w) = force_foreign_toggle w) as Hff.
  { unfold memoize_force_foreign. destruct (Z.ltb_spec (force_foreign w) 0); [reflexivity|lia]. }
  assert (getenv w "PROOT_FORCE_FOREIGN_BINARY" = None <-> force_foreign_toggle w = 0) as Htog.
  { unfold force_foreign_toggle. destruct (getenv w _); simpl; split; congruence. }
  destruct (memoize_force_foreign_same w) as (Hfs0 & Hfds0 & Hf0 & _).
  rewrite Hff.
  set (w0 := memoize_force_foreign w) in *.
  destruct (Z.ltb_spec 0 (force_foreign_toggle w)) as [Hset|Hunset]; simpl.
  { split; [discriminate|]. intros (Hn & _). apply Htog in Hn. lia. }
  assert (force_foreign_toggle w = 0) as Hzero.
  { unfold force_foreign_toggle in *. destruct (is_non_null _); lia. }
  destruct (qemu tracee) as [q|] eqn:Eq; simpl.
  2:{ split; [discriminate|]. intros (_ & [? [=]] & _). }
  set (buf := take _ _). set (w1 := set_uninit _ w0).
  assert (faults w1 = [] /\ fs w1 = fs w) as [Hf1 Hfs1].
  { unfold w1. simpl. split; congruence. }
  destruct (fs w !! host_path) as [data|] eqn:Hdata.
  - rewrite <- Hfs1 in Hdata.
    destruct (open_elf_on_file w1 host_path buf data Hf1 Hdata) as [Hyes Hno].
    destruct (accepted_dec data) as [Hacc|Hacc].
    + destruct (Hyes Hacc) as (w2 & E & _). rewrite E.
      destruct (Z.ltb_spec (Z.of_nat (lowest_free (fds w1))) 0); [lia|].
      destruct (close w2 _) as [r w3].
      rewrite ELF_FIELD_store by tauto.
      pose proof (host_elf_machine_loop_spec HOST_ELF_MACHINE (ELF_FIELD data e_machine)) as Hl.
      destruct (host_elf_machine_loop HOST_ELF_MACHINE (ELF_FIELD data e_machine)); simpl.
      * split; [|reflexivity]. intros _. rewrite Htog.
        split; [exact Hzero|]. split; [eauto|].
        exists data. split; [reflexivity|]. split; [tauto|]. split; [tauto|].
        apply Hl. reflexivity.
      * split; [discriminate|]. intros (_ & _ & d & [= <-] & _ & _ & Ha).
        apply Hl in Ha. discriminate.
    + destruct (Hno Hacc) as (w2 & E & _). rewrite E.
      change (- ENOEXEC <? 0) with true. cbv iota. simpl.
      split; [discriminate|]. intros (_ & _ & d & [= <-] & Hlen & Hv & _). tauto.
  - assert (open_elf w1 host_path buf = (- ENOENT, buf, set_errno ENOENT w1)) as ->.
    { unfold open_elf, open, next_fault. rewrite Hf1, Hfs1, Hdata. reflexivity. }
    simpl. split; [discriminate|]. intros (_ & _ & d & [=] & _).
Qed.


Lemma is_host_elf_files_witness :
  (is_host_elf x86_64_machines host_world host_tracee "/bin/true").1 = true
  <-> getenv host_world "PROOT_FORCE_FOREIGN_BINARY" = None
      /\ is_Some (qemu host_tracee)
      /\ exists data,
           fs host_world !! "/bin/true"%string = Some data
           /\ 64 <= Z.of_nat (length data) /\ valid_elf_header data
           /\ accepted_machine x86_64_machines (ELF_FIELD data e_machine).
Proof.
  apply (is_host_elf_files x86_64_machines host_world host_tracee "/bin/true").
  - reflexivity.
  - left. reflexivity.
Defined.

(** The system calls do not look at the environment. *)
Lemma open_set_env e w path :
  open (set_env e w) path = ((open w path).1, set_env e (open w path).2).
Proof.
  unfold open, next_fault. destruct w as [fs0 fds0 errno0 [|[x|] rest] a u n en ff]; simpl;
    try reflexivity; destruct (fs0 !! path); reflexivity.
Qed.

Lemma read_set_env e w fd count :
  read (set_env e w) fd count = ((read w fd count).1, set_env e (read w fd count).2).
Proof.
  unfold read, next_fault, fd_lookup.
  destruct w as [fs0 fds0 errno0 [|[x|] rest] a u n en ff]; simpl;
    try reflexivity; destruct (fd <? 0); try reflexivity;
    destruct (mjoin (fds0 !! Z.to_nat fd)); reflexivity.
Qed.

Lemma close_set_env e w fd :
  close (set_env e w) fd = ((close w fd).1, set_env e (close w fd).2).
Proof.
  unfold close, fd_lookup. destruct w as [fs0 fds0 errno0 f a u n en ff]; simpl.
  destruct (fd <? 0); try reflexivity.
  destruct (mjoin (fds0 !! Z.to_nat fd)); reflexivity.
Qed.

Lemma open_elf_set_env e w path buf :
  open_elf (set_env e w) path buf
  = ((open_elf w path buf).1, set_env e (open_elf w path buf).2).
Proof.
  unfold open_elf. rewrite open_set_env.
  destruct (open w path) as [fd w1]. simpl.
  destruct (fd <? 0); [reflexivity|].
  rewrite read_set_env.
  destruct (read w1 fd sizeof_ElfHeader) as [[n got] w2]. simpl.
  destruct (n <? 0).
  - change (errno (set_env e w2)) with (errno w2).
    destruct (- errno w2 <? 0); [|reflexivity].
    rewrite close_set_env. destruct (close w2 fd). reflexivity.
  - destruct (check_elf_header n (store buf got) <? 0); [|reflexivity].
    rewrite close_set_env. destruct (close w2 fd). reflexivity.
Qed.

(** X11: [force_foreign] is a memo: every call leaves it set (not
    negative), and a call that finds it set does not look at the
    environment: with another environment it gives the same answer and
    does the same to the process.  So PROOT_FORCE_FOREIGN_BINARY counts
    as it is on the first call, and setting or unsetting it later changes
    nothing. *)
Theorem is_host_elf_memo HOST_ELF_MACHINE w tracee host_path :
  0 <= force_foreign (is_host_elf HOST_ELF_MACHINE w tracee host_path).2
  /\ (0 <= force_foreign w ->
      forall e,
        is_host_elf HOST_ELF_MACHINE (set_env e w) tracee host_path
        = ((is_host_elf HOST_ELF_MACHINE w tracee host_path).1,
           set_env e (is_host_elf HOST_ELF_MACHINE w tracee host_path).2)).
Proof.
  split.
  - unfold is_host_elf.
    assert (0 <= force_foreign (memoize_force_foreign w)) as H0.
    { unfold memoize_force_foreign, force_foreign_toggle.
      destruct (Z.ltb_spec (force_foreign w) 0); [|assumption].
      simpl. destruct (is_non_null _); lia. }
    set (w0 := memoize_force_foreign w) in *.
    destruct (_ || _); [exact H0|].
    unfold indeterminate. set (buf := take _ _). set (w1 := set_uninit _ w0).
    assert (force_foreign w1 = force_foreign w0) as H1 by reflexivity.
    pose proof (open_elf_settings w1 host_path buf) as [_ H2].
    destruct (open_elf w1 host_path buf) as [[fd hdr] w2]. simpl in H2.
    destruct (fd <? 0); [simpl; lia|].
    pose proof (close_settings w2 fd) as [_ H3].
    destruct (close w2 fd) as [r w3]. simpl in H3.
    destruct (host_elf_machine_loop _ _); simpl; [|lia].
    unfold VERBOSE. destruct (_ <=? _); simpl; lia.
  - intros Hset e. unfold is_host_elf.
    assert (memoize_force_foreign w = w) as ->.
    { unfold memoize_force_foreign. destruct (Z.ltb_spec (force_foreign w) 0); [lia|reflexivity]. }
    assert (memoize_force_foreign (set_env e w) = set_env e w) as ->.
    { unfold memoize_force_foreign. simpl.
      destruct (Z.ltb_spec (force_foreign w) 0); [lia|reflexivity]. }
    change (force_foreign (set_env e w)) with (force_foreign w).
    destruct (_ || _); [reflexivity|].
    unfold indeterminate.
    change (uninit (set_env e w)) with (uninit w).
    set (buf := take _ _).
    change (set_uninit (drop (Z.to_nat sizeof_ElfHeader) (uninit w)) (set_env e w))
      with (set_env e (set_uninit (drop (Z.to_nat sizeof_ElfHeader) (uninit w)) w)).
    set (w1 := set_uninit _ w).
    rewrite open_elf_set_env.
    destruct (open_elf w1 host_path buf) as [[fd hdr] w2]. simpl.
    destruct (fd <? 0); [reflexivity|].
    rewrite close_set_env. destruct (close w2 fd) as [r w3]. simpl.
    destruct (host_elf_machine_loop _ _); [|reflexivity].
    unfold VERBOSE. destruct (_ <=? _); reflexivity.
Qed.

Lemma is_host_elf_memo_witness :
  is_host_elf x86_64_machines
    (set_env [("PROOT_FORCE_FOREIGN_BINARY", "1")]%string (set_force_foreign 0 host_world))
    host_tracee "/bin/true"
  = ((is_host_elf x86_64_machines (set_force_foreign 0 host_world)
                  host_tracee "/bin/true").1,
     set_env [("PROOT_FORCE_FOREIGN_BINARY", "1")]%string
       (is_host_elf x86_64_machines (set_force_foreign 0 host_world)
                    host_tracee "/bin/true").2).
Proof.
  apply (proj2 (is_host_elf_memo x86_64_machines (set_force_foreign 0 host_world)
                  host_tracee "/bin/true")).
  simpl. lia.
Defined.

(** The calls of [open_elf] report nothing. *)
Lemma open_elf_notices w path buf : notices (open_elf w path buf).2 = notices w.
Proof.
  assert (forall w0, notices (next_fault w0).2 = notices w0) as Hnf.
  { intros w0. unfold next_fault. destruct (faults w0); reflexivity. }
  assert (forall w0 p, notices (open w0 p).2 = notices w0) as Hopen.
  { intros w0 p. unfold open. pose proof (Hnf w0) as H.
    destruct (next_fault w0) as [[x|] w1]; simpl in *; [exact H|].
    destruct (fs w1 !! p); exact H. }
  assert (forall w0 fd c, notices (read w0 fd c).2 = notices w0) as Hread.
  { intros w0 fd c. unfold read. pose proof (Hnf w0) as H.
    destruct (next_fault w0) as [[x|] w1]; simpl in *; [exact H|].
    destruct (fd_lookup w1 fd); exact H. }
  assert (forall w0 fd, notices (close w0 fd).2 = notices w0) as Hclose.
  { intros w0 fd. unfold close. destruct (fd_lookup w0 fd); reflexivity. }
  unfold open_elf. pose proof (Hopen w path) as Ho.
  destruct (open w path) as [fd w1]. simpl in Ho.
  destruct (fd <? 0); [exact Ho|].
  pose proof (Hread w1 fd sizeof_ElfHeader) as Hr.
  destruct (read w1 fd sizeof_ElfHeader) as [[n got] w2]. simpl in Hr.
  pose proof (Hclose w2 fd) as Hc.
  destruct (close w2 fd) as [r w3]. simpl in Hc.
  destruct (_ <? 0); simpl; congruence.
Qed.

Lemma close_notices w fd : notices (close w fd).2 = notices w.
Proof. unfold close. destruct (fd_lookup w fd); reflexivity. Qed.

(** X12: [is_host_elf] reports one thing only, and through [VERBOSE] at
    level 1: the message "'%s' is a host ELF", once, when its answer is
    true.  A refusal, of whatever kind, is silent. *)
Theorem is_host_elf_notices HOST_ELF_MACHINE w tracee host_path :
  notices (is_host_elf HOST_ELF_MACHINE w tracee host_path).2
  = notices (if (is_host_elf HOST_ELF_MACHINE w tracee host_path).1
             then VERBOSE w tracee 1 "'%s' is a host ELF"
             else w).
Proof.
  unfold is_host_elf.
  destruct (memoize_force_foreign_same w) as (_ & _ & _ & Hn0 & _).
  set (w0 := memoize_force_foreign w) in *.
  destruct (_ || _); simpl; [exact Hn0|].
  set (buf := take _ _). set (w1 := set_uninit _ w0).
  assert (notices w1 = notices w) as Hn1 by exact Hn0.
  pose proof (open_elf_notices w1 host_path buf) as Hn2.
  destruct (open_elf w1 host_path buf) as [[fd hdr] w2]. simpl in Hn2.
  destruct (fd <? 0); simpl; [congruence|].
  pose proof (close_notices w2 fd) as Hn3.
  destruct (close w2 fd) as [r w3]. simpl in Hn3.
  destruct (host_elf_machine_loop _ _); simpl; [|congruence].
  unfold VERBOSE, notice. destruct (1 <=? verbose tracee); simpl; congruence.
Qed.


(** ** [add_xpaths]: its outcomes *)

(** The allocations touch neither files nor descriptors nor [errno]. *)
Lemma talloc_realloc_same w old size :
  fs (talloc_realloc w old size).2 = fs w
  /\ fds (talloc_realloc w old size).2 = fds w
  /\ errno (talloc_realloc w old size).2 = errno w.
Proof.
  unfold talloc_realloc, next_alloc, indeterminate.
  destruct (alloc_faults w) as [|[|] rest]; simpl; auto.
Qed.

Lemma talloc_array_same w size :
  fs (talloc_array w size).2 = fs w
  /\ fds (talloc_array w size).2 = fds w
  /\ errno (talloc_array w size).2 = errno w.
Proof.
  unfold talloc_array, next_alloc, indeterminate.
  destruct (alloc_faults w) as [|[|] rest]; simpl; auto.
Qed.

Lemma strnlen_no_nul s : forall m, no_nul (take (strnlen s m) s).
Proof.
  unfold no_nul.
  induction s as [|b s IH]; intros [|m]; simpl; try (apply Forall_nil; exact I).
  destruct (Byte.eqb b Byte.x00) eqn:E; simpl; [apply Forall_nil; exact I|].
  apply Forall_cons. split; [|apply IH].
  intros ->. cbv in E. discriminate.
Qed.

Lemma c_string_no_nul buf : no_nul (c_string buf).
Proof. apply strnlen_no_nul. Qed.

(** What the loop of [add_xpaths] can end with: an allocation that
    failed, a read that failed, or a read that succeeded. *)
Lemma read_paths_outcome fuel : forall w fd paths len status paths' len' w',
  read_paths fuel w fd paths len = Some (status, paths', len', w') ->
  (status = - ENOMEM \/ status = -1 \/ 0 <= status)
  /\ moved_only fd w w'
  /\ (0 <= errno w -> 0 <= errno w').
Proof.
  induction fuel as [|fuel IH]; intros w fd paths len status paths' len' w'; simpl;
    [discriminate|].
  destruct (talloc_realloc_same w paths (Z.of_nat (len + 1024))) as (Hfs & Hfds & Herr).
  destruct (talloc_realloc w paths (Z.of_nat (len + 1024))) as [[tmp|] w1]; simpl in *.
  2:{ intros [= <- <- <- <-]. split; [auto|]. split; [|lia].
      apply moved_only_same; assumption. }
  assert (moved_only fd w w1) as H1 by (apply moved_only_same; assumption).
  pose proof (read_moved w1 fd 1024) as Hm.
  destruct (read w1 fd 1024) as [[n got] w2] eqn:Hr. simpl in Hm.
  pose proof (read_errno _ _ _ _ _ _ Hr) as He.
  assert (moved_only fd w w2) as H2 by (eapply moved_only_trans; eassumption).
  destruct (Z.ltb_spec n 0).
  { intros [= <- <- <- <-]. split; [lia|]. split; [exact H2|lia]. }
  destruct (_ =? _)%nat.
  - intros Hloop. apply IH in Hloop as (Hs & Hm' & He').
    split; [exact Hs|]. split; [eapply moved_only_trans; eassumption|].
    intros H0. apply He'. lia.
  - intros [= <- <- <- <-]. split; [lia|]. split; [exact H2|lia].
Qed.

(** The outcomes of [add_xpaths], whatever the operating system does. *)
Lemma add_xpaths_cases w fd offset xpaths status xpaths' w' :
  add_xpaths w fd offset xpaths = (status, xpaths', w') ->
  ((status = 0 /\ exists text, no_nul text /\ xpaths' = Some (merge xpaths text))
   \/ (xpaths' = xpaths
       /\ (status = - ENOMEM \/ status = -1 \/ status = - errno w')))
  /\ moved_only fd w w'
  /\ (0 <= errno w -> 0 <= errno w').
Proof.
  unfold add_xpaths.
  pose proof (lseek_moved w fd (to_off_t offset)) as Hm.
  destruct (lseek w fd (to_off_t offset)) as [ret w1] eqn:Hs. simpl in Hm.
  apply lseek_errno in Hs.
  destruct (to_int ret <? 0).
  { intros [= <- <- <-]. split; [right; auto|]. split; [exact Hm|lia]. }
  pose proof (read_paths_fuel w1 fd) as Hfuel.
  destruct (read_paths (paths_fuel w1 fd) w1 fd [] 0) as [[[[st paths] len] w2]|] eqn:Hrp;
    [|congruence].
  apply read_paths_outcome in Hrp as (Hst & Hm2 & He2).
  assert (moved_only fd w w2) as H2 by (eapply moved_only_trans; eassumption).
  assert (0 <= errno w -> 0 <= errno w2) as He by (intros; apply He2; lia).
  destruct (Z.ltb_spec st 0).
  { intros [= <- <- <-]. split; [right; split; [reflexivity|lia]|]. auto. }
  destruct xpaths as [old|].
  - destruct (talloc_realloc_same w2 (old ++ [Byte.x00])
                (Z.of_nat (len + length old + 1) + 1)) as (Hfs & Hfds & Herr).
    destruct (talloc_realloc w2 _ _) as [[tmp|] w3]; simpl in *;
      intros [= <- <- <-];
      (split; [|split; [eapply moved_only_trans;
                          [exact H2|apply moved_only_same; assumption]|lia]]).
    + left. split; [reflexivity|]. exists (c_string paths).
      split; [apply c_string_no_nul|reflexivity].
    + right. auto.
  - destruct (talloc_array_same w2 (Z.of_nat len + 1)) as (Hfs & Hfds & Herr).
    destruct (talloc_array w2 _) as [[block|] w3]; simpl in *;
      intros [= <- <- <-];
      (split; [|split; [eapply moved_only_trans;
                          [exact H2|apply moved_only_same; assumption]|lia]]).
    + left. split; [reflexivity|]. exists (c_string paths).
      split; [apply c_string_no_nul|reflexivity].
    + right. auto.
Qed.

(** X13: whatever the operating system does, [add_xpaths] ends in one of
    two ways.  Either it returns 0 and the accumulator is the old one
    merged with a text without NUL (the text alone for a NULL accumulator,
    the old content, ':' and the text otherwise); or the accumulator is
    what it was and the status is [-ENOMEM] (an allocation failed), [-1]
    (the read failed) or [-errno] (the seek was taken for failed). *)
Theorem add_xpaths_outcomes w fd offset xpaths status xpaths' w' :
  add_xpaths w fd offset xpaths = (status, xpaths', w') ->
  (status = 0 /\ exists text, no_nul text /\ xpaths' = Some (merge xpaths text))
  \/ (xpaths' = xpaths
      /\ (status = - ENOMEM \/ status = -1 \/ status = - errno w')).
Proof. intros H. apply (add_xpaths_cases _ _ _ _ _ _ _ H). Qed.

Lemma add_xpaths_outcomes_witness :
  ((add_xpaths (world_of lib_file) 3 0 (Some (bytes_of "/usr/lib"))).1.1 = 0
   /\ exists text,
        no_nul text
        /\ (add_xpaths (world_of lib_file) 3 0 (Some (bytes_of "/usr/lib"))).1.2
           = Some (merge (Some (bytes_of "/usr/lib")) text))
  \/ ((add_xpaths (world_of lib_file) 3 0 (Some (bytes_of "/usr/lib"))).1.2
      = Some (bytes_of "/usr/lib")
      /\ ((add_xpaths (world_of lib_file) 3 0 (Some (bytes_of "/usr/lib"))).1.1 = - ENOMEM
          \/ (add_xpaths (world_of lib_file) 3 0 (Some (bytes_of "/usr/lib"))).1.1 = -1
          \/ (add_xpaths (world_of lib_file) 3 0 (Some (bytes_of "/usr/lib"))).1.1
             = - errno (add_xpaths (world_of lib_file) 3 0 (Some (bytes_of "/usr/lib"))).2)).
Proof.
  destruct (add_xpaths (world_of lib_file) 3 0 (Some (bytes_of "/usr/lib")))
    as [[status xpaths'] w'] eqn:E.
  exact (add_xpaths_outcomes _ _ _ _ _ _ _ E).
Defined.

(** X14: whatever the operating system does, [add_xpaths] opens and
    closes nothing and leaves every file as it is: all it changes in the
    descriptor table is the file offset of [fd]. *)
Theorem add_xpaths_moves_only w fd offset xpaths :
  moved_only fd w (add_xpaths w fd offset xpaths).2.
Proof.
  destruct (add_xpaths w fd offset xpaths) as [[status xpaths'] w'] eqn:E.
  apply (add_xpaths_cases _ _ _ _ _ _ _ E).
Qed.


(** X15: the two ways a seek is refused.  On a descriptor that is not
    open [add_xpaths] returns [-EBADF], and for an offset from [2^63] on,
    which is negative as an [off_t], [-EINVAL].  In both cases nothing is
    read or allocated and the accumulator is what it was. *)
Theorem add_xpaths_seek_errors w fd offset xpaths :
  faults w = [] ->
  (fd_lookup w fd = None ->
   add_xpaths w fd offset xpaths = (- EBADF, xpaths, set_errno EBADF w))
  /\ (is_Some (fd_lookup w fd) -> 2 ^ 63 <= offset <= UINT64_MAX ->
      add_xpaths w fd offset xpaths = (- EINVAL, xpaths, set_errno EINVAL w)).
Proof.
  intros Hf. split.
  - intros Hfd. unfold add_xpaths, lseek, next_fault. rewrite Hf, Hfd. reflexivity.
  - intros [file Hfd] Hoff. unfold add_xpaths, lseek, next_fault. rewrite Hf, Hfd.
    assert (to_off_t offset < 0) as Hneg.
    { unfold to_off_t, to_signed, UINT64_MAX in *.
      replace (offset + 2 ^ (64 - 1)) with (offset - 2 ^ 63 + 1 * 2 ^ 64) by lia.
      rewrite Z.mod_add by lia. rewrite Z.mod_small by lia. lia. }
    destruct (Z.ltb_spec (to_off_t offset) 0); [reflexivity|lia].
Qed.

Lemma add_xpaths_seek_errors_witness :
  add_xpaths (world_of lib_file) 7 0 None
  = (- EBADF, None, set_errno EBADF (world_of lib_file))
  /\ add_xpaths (world_of lib_file) 3 (2 ^ 63) None
     = (- EINVAL, None, set_errno EINVAL (world_of lib_file)).
Proof.
  split.
  - apply (proj1 (add_xpaths_seek_errors (world_of lib_file) 7 0 None eq_refl)).
    reflexivity.
  - apply (proj2 (add_xpaths_seek_errors (world_of lib_file) 3 (2 ^ 63) None eq_refl)).
    + vm_compute. eauto.
    + vm_compute. split; discriminate.
Defined.

(** More turns than the loop needs change nothing. *)
Lemma read_paths_more fuel : forall w fd paths len r,
  read_paths fuel w fd paths len = Some r ->
  read_paths (S fuel) w fd paths len = Some r.
Proof.
  induction fuel as [|fuel IH]; intros w fd paths len r; [discriminate|].
  intros H. change (read_paths (S (S fuel)) w fd paths len) with
    (let size := (len + 1024)%nat in
     let '(tmp, w) := talloc_realloc w paths (Z.of_nat size) in
     match tmp with
     | None => Some (- ENOMEM, paths, len, w)
     | Some paths =>
       let '(status, got, w) := read w fd 1024 in
       if status <? 0 then Some (status, paths, len, w)
       else
         let paths := take len paths ++ store (drop len paths) got in
         let len := (len + strnlen (drop len paths) 1024)%nat in
         if (len =? size)%nat then read_paths (S fuel) w fd paths len
         else Some (status, paths, len, w)
     end).
  simpl in H |- *.
  destruct (talloc_realloc w paths (Z.of_nat (len + 1024))) as [[tmp|] w1]; [|exact H].
  destruct (read w1 fd 1024) as [[n got] w2].
  destruct (n <? 0); [exact H|].
  destruct (_ =? _)%nat; [|exact H].
  apply IH. exact H.
Qed.

(** X16: the loop of lines 218 to 231 always ends.  It goes on only after
    a turn that found 1024 bytes without a NUL, and such a turn uses up
    bytes of the file or of the memory that was never written (which is
    zero once the supply [uninit] is used up): after at most
    [paths_fuel w fd] turns the loop is over, and a larger bound on the
    number of turns gives the same result. *)
Theorem read_paths_terminates w fd n :
  (paths_fuel w fd <= n)%nat ->
  exists r,
    read_paths (paths_fuel w fd) w fd [] 0 = Some r
    /\ read_paths n w fd [] 0 = Some r.
Proof.
  intros Hn. pose proof (read_paths_fuel w fd) as Hfuel.
  destruct (read_paths (paths_fuel w fd) w fd [] 0) as [r|] eqn:E; [|congruence].
  exists r. split; [reflexivity|].
  replace n with ((n - paths_fuel w fd) + paths_fuel w fd)%nat by lia.
  induction (n - paths_fuel w fd)%nat as [|k IH]; [exact E|].
  apply read_paths_more. exact IH.
Qed.

Lemma read_paths_terminates_witness :
  exists r,
    read_paths (paths_fuel (world_of lib_file) 3) (world_of lib_file) 3 [] 0 = Some r
    /\ read_paths 100 (world_of lib_file) 3 [] 0 = Some r.
Proof.
  apply (read_paths_terminates (world_of lib_file) 3 100).
  vm_compute. repeat constructor.
Defined.


(** ** [read_ldso_rpaths]: what holds of every call *)

(** [extends] is an order, and a merge extends what it is given and keeps
    a C string one. *)
Lemma extends_refl x : extends x x.
Proof. destruct x as [old|]; simpl; [|exact I]. exists []. rewrite app_nil_r. reflexivity. Qed.

Lemma extends_trans a b c : extends a b -> extends b c -> extends a c.
Proof.
  destruct a as [old|]; simpl; [|auto].
  intros [m ->]. simpl. intros [m' ->]. exists (m ++ m'). rewrite app_assoc. reflexivity.
Qed.

Lemma merge_extends x text : extends x (Some (merge x text)).
Proof. destruct x as [old|]; simpl; eauto. Qed.

Lemma merge_no_nul x text :
  c_string_or_null x -> no_nul text -> no_nul (merge x text).
Proof.
  destruct x as [old|]; simpl; [|auto].
  unfold no_nul. intros Hold Htext.
  apply Forall_app. split; [exact Hold|].
  apply Forall_cons. split; [discriminate|exact Htext].
Qed.

(** The relation between an accumulator and what a scan makes of it. *)
Lemma accumulates_trans a b c :
  extends a b /\ (c_string_or_null a -> c_string_or_null b) ->
  extends b c /\ (c_string_or_null b -> c_string_or_null c) ->
  extends a c /\ (c_string_or_null a -> c_string_or_null c).
Proof. intros [H1 H2] [H3 H4]. split; [eapply extends_trans; eassumption|auto]. Qed.

(** What the code embedded for RPATH and RUNPATH entries does: it goes on
    with an accumulator that was merged or is what it was, or returns a
    negative status with the accumulator as it was; it never breaks. *)
Lemma xpaths_code_cases fd strtab_offset value xpaths w :
  match xpaths_code fd strtab_offset value xpaths w with
  | Next xpaths' w' =>
    (extends xpaths xpaths' /\ (c_string_or_null xpaths -> c_string_or_null xpaths'))
    /\ moved_only fd w w' /\ (0 <= errno w -> 0 <= errno w')
  | Break _ _ => False
  | Return status xpaths' w' =>
    (xpaths' = xpaths /\ status < 0)
    /\ moved_only fd w w' /\ (0 <= errno w -> 0 <= errno w')
  end.
Proof.
  unfold xpaths_code.
  destruct (_ || _).
  { split; [split; [reflexivity|unfold ENOEXEC; lia]|].
    split; [apply moved_only_refl|auto]. }
  destruct (add_xpaths w fd (to_uint64 (strtab_offset + value)) xpaths)
    as [[status xpaths'] w'] eqn:E.
  apply add_xpaths_cases in E as (Hcases & Hm & He).
  destruct (Z.ltb_spec status 0) as [Hneg|Hpos].
  - split; [|auto]. split; [|exact Hneg].
    destruct Hcases as [(-> & _)|(-> & _)]; [lia|reflexivity].
  - split; [|auto].
    destruct Hcases as [(_ & text & Htext & ->)|(-> & _)].
    + split; [apply merge_extends|]. intros Hx. simpl. apply merge_no_nul; assumption.
    + split; [apply extends_refl|auto].
Qed.

(** Chains of moves of the offset of one descriptor. *)
Ltac moved :=
  match goal with
  | |- moved_only _ ?a ?a => apply moved_only_refl
  | H : moved_only ?fd ?a ?b |- moved_only ?fd ?a ?b => exact H
  | H1 : moved_only ?fd ?a ?b, H2 : moved_only ?fd ?b ?c |- moved_only ?fd ?a ?c =>
    exact (moved_only_trans _ _ _ _ H1 H2)
  | H1 : moved_only ?fd ?a ?b, H2 : moved_only ?fd ?b ?c, H3 : moved_only ?fd ?c ?d
    |- moved_only ?fd ?a ?d =>
    exact (moved_only_trans _ _ _ _ H1 (moved_only_trans _ _ _ _ H2 H3))
  end.

(** What the scan of the dynamic section keeps, for a code that keeps it. *)
Lemma FOREACH_DYNAMIC_ENTRY_keeps {S : Type} (R : S -> S -> Prop) fd
    (code : Z -> S -> World -> Flow S) :
  (forall s, R s s) ->
  (forall a b c, R a b -> R b c -> R a c) ->
  (forall value s w,
     match code value s w with
     | Next s' w' | Break s' w' =>
       R s s' /\ moved_only fd w w' /\ (0 <= errno w -> 0 <= errno w')
     | Return status s' w' =>
       (R s s' /\ status <= 0) /\ moved_only fd w w' /\ (0 <= errno w -> 0 <= errno w')
     end) ->
  forall n i w hdr off esz type s,
    let r := FOREACH_DYNAMIC_ENTRY n i w fd hdr off esz type code s in
    R s r.1.2
    /\ moved_only fd w r.2
    /\ (0 <= errno w -> 0 <= errno r.2 /\ forall status, r.1.1 = Some status -> status <= 0).
Proof.
  intros Hrefl Htrans Hcode.
  induction n as [|n IH]; intros i w hdr off esz type s; simpl.
  { split; [apply Hrefl|]. split; [apply moved_only_refl|].
    intros He. split; [exact He|]. intros status [=]. }
  change (lseek (set_uninit (drop (Z.to_nat sizeof_DynamicEntry) (uninit w)) w) fd
                (to_off_t (to_uint64 (off + i * esz))))
    with (lseek (set_uninit (drop 16 (uninit w)) w) fd (to_off_t (to_uint64 (off + i * esz)))).
  set (wu := set_uninit (drop 16 (uninit w)) w).
  assert (moved_only fd w wu) as Hmu by (apply moved_only_same; reflexivity).
  pose proof (lseek_moved wu fd (to_off_t (to_uint64 (off + i * esz)))) as Hms.
  destruct (lseek wu fd _) as [ret w1] eqn:Hs. simpl in Hms.
  apply lseek_errno in Hs.
  assert (moved_only fd w w1) as H1 by moved.
  assert (0 <= errno w -> 0 <= errno w1) as He1.
  { intros He. change (errno wu) with (errno w) in Hs. lia. }
  destruct (to_int ret <? 0); simpl.
  { split; [apply Hrefl|]. split; [moved|].
    intros He. split; [auto|]. intros status [= <-]. specialize (He1 He). lia. }
  pose proof (read_moved w1 fd esz) as Hmr.
  destruct (read w1 fd esz) as [[n0 got] w2] eqn:Hr. simpl in Hmr.
  apply read_errno in Hr.
  assert (moved_only fd w w2) as H2 by moved.
  assert (0 <= errno w -> 0 <= errno w2) as He2.
  { intros He. specialize (He1 He). lia. }
  destruct (Z.ltb_spec n0 0); simpl.
  { split; [apply Hrefl|]. split; [moved|].
    intros He. split; [auto|]. intros status [= <-]. lia. }
  destruct (negb _).
  { destruct (IH (i + 1) w2 hdr off esz type s) as (HR & Hm & He).
    split; [exact HR|]. split; [moved|].
    intros H0. apply He. auto. }
  match goal with |- context [code ?v s w2] => specialize (Hcode v s w2);
                                               destruct (code v s w2) as [s' w3|s' w3|st s' w3] end.
  - destruct Hcode as (HR & Hm & He).
    destruct (IH (i + 1) w3 hdr off esz type s') as (HR' & Hm' & He').
    split; [eapply Htrans; eassumption|].
    split; [moved|].
    intros H0. apply He'. auto.
  - destruct Hcode as (HR & Hm & He). simpl.
    split; [exact HR|]. split; [moved|].
    intros H0. split; [auto|]. intros status [=].
  - destruct Hcode as ((HR & Hst) & Hm & He). simpl.
    split; [exact HR|]. split; [moved|].
    intros H0. split; [auto|]. intros status [= <-]. exact Hst.
Qed.

Lemma find_program_header_errno w fd hdr ph type address :
  0 <= errno w ->
  (find_program_header w fd hdr ph type address).1.1 <= 1
  /\ 0 <= errno (find_program_header w fd hdr ph type address).2.
Proof.
  intros He. unfold find_program_header.
  destruct (0xffff <=? _); [unfold ENOTSUP; simpl; lia|].
  destruct (negb _); [unfold ENOTSUP; simpl; lia|].
  destruct (lseek w fd _) as [ret w1] eqn:Hs.
  apply lseek_errno in Hs.
  destruct (to_int ret <? 0); [simpl; lia|].
  destruct (find_program_header_loop _ w1 fd hdr _ ph type address) as [[st ph'] w'] eqn:E.
  apply find_program_header_loop_sound in E as (H1 & _ & H2); [|lia].
  simpl. lia.
Qed.

(** Every call of [read_ldso_rpaths]: the accumulators, the descriptors
    and the status. *)
Lemma read_ldso_rpaths_cases w fd hdr rpaths runpaths :
  let r := read_ldso_rpaths w fd hdr rpaths runpaths in
  ((extends rpaths r.1.1.2 /\ (c_string_or_null rpaths -> c_string_or_null r.1.1.2))
   /\ (extends runpaths r.1.2 /\ (c_string_or_null runpaths -> c_string_or_null r.1.2)))
  /\ moved_only fd w r.2
  /\ (0 <= errno w -> r.1.1.1 <= 0 /\ 0 <= errno r.2).
Proof.
  assert (forall x, extends x x /\ (c_string_or_null x -> c_string_or_null x)) as Hsame.
  { intros x. split; [apply extends_refl|auto]. }
  unfold read_ldso_rpaths, indeterminate.
  set (wb := set_uninit _ (set_uninit _ w)).
  assert (moved_only fd w wb) as Hmb by (apply moved_only_same; reflexivity).
  assert (errno wb = errno w) as Heb by reflexivity.
  set (b1 := take _ _). set (b2 := take _ _).
  pose proof (find_program_header_moves_only_aux wb fd hdr b1 PT_DYNAMIC UINT64_MAX) as Hm1.
  pose proof (find_program_header_errno wb fd hdr b1 PT_DYNAMIC UINT64_MAX) as He1.
  destruct (find_program_header wb fd hdr b1 PT_DYNAMIC UINT64_MAX) as [[st1 dyn] w1].
  simpl in Hm1, He1.
  assert (0 <= errno w -> st1 <= 1 /\ 0 <= errno w1) as He1'.
  { intros He. apply He1. exact He. }
  clear He1. rename He1' into He1.
  assert (moved_only fd w w1) as H1 by moved.
  destruct (Z.leb_spec st1 0); simpl.
  { split; [auto|]. split; [moved|]. intros He. split; [lia|].
    apply He1. exact He. }
  destruct (negb _); simpl.
  { split; [auto|]. split; [moved|]. intros He.
    unfold ENOEXEC. split; [lia|]. apply He1. exact He. }
  set (entries := Z.to_nat _). set (off := PROGRAM_FIELD hdr dyn p_offset).
  set (esz := if IS_CLASS32 hdr then _ else _).
  assert (forall value (s : Z) w0,
            match strtab_code value s w0 with
            | Next s' w' | Break s' w' =>
              True /\ moved_only fd w0 w' /\ (0 <= errno w0 -> 0 <= errno w')
            | Return status s' w' =>
              (True /\ status <= 0)
              /\ moved_only fd w0 w' /\ (0 <= errno w0 -> 0 <= errno w')
            end) as Hstrtab.
  { intros value s w0. simpl. split; [exact I|]. split; [apply moved_only_refl|auto]. }
  destruct (FOREACH_DYNAMIC_ENTRY_keeps (fun _ _ : Z => True) fd strtab_code
              (fun _ => I) (fun _ _ _ _ _ => I) Hstrtab
              entries 0 w1 hdr off esz DT_STRTAB UINT64_MAX) as (_ & Hm2 & He2).
  destruct (FOREACH_DYNAMIC_ENTRY entries 0 w1 fd hdr off esz DT_STRTAB strtab_code UINT64_MAX)
    as [[[st2|] strtab_address] w2]; simpl in Hm2, He2 |- *.
  { split; [auto|]. split; [moved|].
    intros He. destruct (He2 (proj2 (He1 He))) as [He' Hst].
    split; [apply Hst; reflexivity|exact He']. }
  assert (moved_only fd w w2) as H2 by moved.
  assert (0 <= errno w -> 0 <= errno w2) as He2'.
  { intros He. apply He2, He1. exact He. }
  destruct (strtab_address =? UINT64_MAX); simpl.
  { split; [auto|]. split; [moved|]. intros He. split; [lia|auto]. }
  pose proof (find_program_header_moves_only_aux w2 fd hdr b2 PT_LOAD strtab_address) as Hm3.
  pose proof (find_program_header_errno w2 fd hdr b2 PT_LOAD strtab_address) as He3.
  destruct (find_program_header w2 fd hdr b2 PT_LOAD strtab_address) as [[st3 seg] w3].
  simpl in Hm3, He3.
  assert (moved_only fd w w3) as H3 by moved.
  assert (0 <= errno w -> 0 <= errno w3) as He3'.
  { intros He. apply He3, He2'. exact He. }
  destruct (Z.ltb_spec st3 0); simpl.
  { split; [auto|]. split; [moved|]. intros He. split; [lia|auto]. }
  set (strtab_offset := to_off_t _).
  set (R := fun x x' : option (list byte) =>
              extends x x' /\ (c_string_or_null x -> c_string_or_null x')).
  assert (forall value s w0,
            match xpaths_code fd strtab_offset value s w0 with
            | Next s' w' | Break s' w' =>
              R s s' /\ moved_only fd w0 w' /\ (0 <= errno w0 -> 0 <= errno w')
            | Return status s' w' =>
              (R s s' /\ status <= 0)
              /\ moved_only fd w0 w' /\ (0 <= errno w0 -> 0 <= errno w')
            end) as Hcode.
  { intros value s w0. pose proof (xpaths_code_cases fd strtab_offset value s w0) as Hc.
    destruct (xpaths_code fd strtab_offset value s w0) as [s' w'|s' w'|st s' w'].
    - exact Hc.
    - destruct Hc.
    - destruct Hc as ((-> & Hst) & Hrest). split; [|exact Hrest].
      split; [apply Hsame|lia]. }
  destruct (FOREACH_DYNAMIC_ENTRY_keeps R fd (xpaths_code fd strtab_offset)
              Hsame ltac:(intros a b c; apply accumulates_trans) Hcode
              entries 0 w3 hdr off esz DT_RPATH rpaths) as (HR4 & Hm4 & He4).
  destruct (FOREACH_DYNAMIC_ENTRY entries 0 w3 fd hdr off esz DT_RPATH
              (xpaths_code fd strtab_offset) rpaths)
    as [[[st4|] rpaths'] w4]; simpl in HR4, Hm4, He4 |- *.
  { split; [auto|]. split; [moved|].
    intros He. destruct (He4 (He3' He)) as [He' Hst].
    split; [apply Hst; reflexivity|exact He']. }
  assert (moved_only fd w w4) as H4 by moved.
  destruct (FOREACH_DYNAMIC_ENTRY_keeps R fd (xpaths_code fd strtab_offset)
              Hsame ltac:(intros a b c; apply accumulates_trans) Hcode
              entries 0 w4 hdr off esz DT_RUNPATH runpaths) as (HR5 & Hm5 & He5).
  destruct (FOREACH_DYNAMIC_ENTRY entries 0 w4 fd hdr off esz DT_RUNPATH
              (xpaths_code fd strtab_offset) runpaths)
    as [[[st5|] runpaths'] w5]; simpl in HR5, Hm5, He5 |- *.
  - split; [auto|]. split; [moved|].
    intros He. destruct (He5 (proj1 (He4 (He3' He)))) as [He' Hst].
    split; [apply Hst; reflexivity|exact He'].
  - split; [auto|]. split; [moved|].
    intros He. destruct (He5 (proj1 (He4 (He3' He)))) as [He' Hst].
    split; [lia|exact He'].
Qed.


(** X17: whatever the operating system does and whatever the status is,
    [read_ldso_rpaths] loses nothing of what [*rpaths] and [*runpaths]
    held: an accumulator that was not NULL holds its old content, with
    maybe more after it; and an accumulator that was NULL or a C string
    (no NUL among its bytes) is so afterwards. *)
Theorem read_ldso_rpaths_accumulators w fd hdr rpaths runpaths status rpaths' runpaths' w' :
  read_ldso_rpaths w fd hdr rpaths runpaths = (status, rpaths', runpaths', w') ->
  extends rpaths rpaths' /\ extends runpaths runpaths'
  /\ (c_string_or_null rpaths -> c_string_or_null rpaths')
  /\ (c_string_or_null runpaths -> c_string_or_null runpaths').
Proof.
  intros E. pose proof (read_ldso_rpaths_cases w fd hdr rpaths runpaths) as H.
  rewrite E in H. simpl in H. tauto.
Qed.

Lemma read_ldso_rpaths_accumulators_witness :
  extends (Some (bytes_of "/opt"))
          (read_ldso_rpaths (world_of two_runpaths) 3 (take 64 two_runpaths)
                            None (Some (bytes_of "/opt"))).1.2
  /\ c_string_or_null
       (read_ldso_rpaths (world_of two_runpaths) 3 (take 64 two_runpaths)
                         None (Some (bytes_of "/opt"))).1.2.
Proof.
  destruct (read_ldso_rpaths (world_of two_runpaths) 3 (take 64 two_runpaths)
                             None (Some (bytes_of "/opt")))
    as [[[status rpaths'] runpaths'] w'] eqn:E.
  destruct (read_ldso_rpaths_accumulators _ _ _ _ _ _ _ _ _ E) as (_ & H1 & _ & H2).
  split; [exact H1|]. apply H2.
  vm_compute. repeat (apply List.Forall_cons; [discriminate|]). apply List.Forall_nil.
Defined.

(** X18: whatever the operating system does, [read_ldso_rpaths] opens and
    closes nothing and leaves every file as it is: [fd] stays open (the
    caller closes it), and all that changes in the descriptor table is
    the file offset of [fd]. *)
Theorem read_ldso_rpaths_moves_only w fd hdr rpaths runpaths :
  moved_only fd w (read_ldso_rpaths w fd hdr rpaths runpaths).2.
Proof. apply (read_ldso_rpaths_cases w fd hdr rpaths runpaths). Qed.

(** X19: [read_ldso_rpaths] returns 0 or a negative status, never the 1
    that [find_program_header] answers with, whatever the operating
    system does.  ([errno] is not negative, as in every process; the call
    keeps it so.) *)
Theorem read_ldso_rpaths_status w fd hdr rpaths runpaths :
  0 <= errno w ->
  (read_ldso_rpaths w fd hdr rpaths runpaths).1.1.1 <= 0
  /\ 0 <= errno (read_ldso_rpaths w fd hdr rpaths runpaths).2.
Proof. apply (read_ldso_rpaths_cases w fd hdr rpaths runpaths). Qed.

Lemma read_ldso_rpaths_status_witness :
  (read_ldso_rpaths (world_of two_runpaths) 3 (take 64 two_runpaths) None None).1.1.1 <= 0
  /\ 0 <= errno (read_ldso_rpaths (world_of two_runpaths) 3 (take 64 two_runpaths)
                                  None None).2.
Proof.
  apply (read_ldso_rpaths_status (world_of two_runpaths) 3 (take 64 two_runpaths) None None).
  simpl. lia.
Defined.

(** ** [read_ldso_rpaths]: images it refuses or has nothing to take from *)

(** X20: on a program header table that can be sought and read, when the
    size in the file of the first PT_DYNAMIC segment is no multiple of the
    size of a dynamic entry of the class (8 bytes for 32-bit, 16 for
    64-bit), [read_ldso_rpaths] returns [-ENOEXEC] without a look at the
    dynamic section, and leaves the accumulators alone. *)
Theorem read_ldso_rpaths_odd_size w fd hdr rpaths runpaths data pos (k : nat) :
  let phnum := ELF_FIELD hdr e_phnum in
  let size := ELF_FIELD hdr e_phentsize in
  let phoff := ELF_FIELD hdr e_phoff in
  let entry := table_entry data phoff size in
  at_offset w fd data pos ->
  phnum < 0xffff -> KNOWN_PHENTSIZE hdr size = true -> seek_ok phoff ->
  Z.of_nat k < phnum ->
  phoff + (Z.of_nat k + 1) * size <= Z.of_nat (length data) ->
  PROGRAM_FIELD hdr (entry k) p_type = PT_DYNAMIC ->
  (forall j : nat, (j < k)%nat -> PROGRAM_FIELD hdr (entry j) p_type <> PT_DYNAMIC) ->
  PROGRAM_FIELD hdr (entry k) p_filesz mod dynamic_entry_size hdr <> 0 ->
  exists w',
    read_ldso_rpaths w fd hdr rpaths runpaths = (- ENOEXEC, rpaths, runpaths, w')
    /\ at_offset w' fd data (phoff + (Z.of_nat k + 1) * size).
Proof.
  intros phnum size phoff entry Hat Hn Hk Hseek Hlt Hlen Hty Hnone Hmod.
  pose proof (ELF_FIELD_range hdr e_phoff) as Hoff. fold phoff in Hoff.
  pose proof (ELF_FIELD_range hdr e_phnum) as Hnum. fold phnum in Hnum.
  unfold read_ldso_rpaths.
  destruct (indeterminate (Z.to_nat sizeof_ProgramHeader) w) as [b1 wa] eqn:Ea.
  assert (at_offset wa fd data pos) as Hata by (injection Ea as _ <-; exact Hat).
  destruct (indeterminate (Z.to_nat sizeof_ProgramHeader) wa) as [b2 wb] eqn:Eb.
  assert (at_offset wb fd data pos) as Hatb by (injection Eb as _ <-; exact Hata).
  destruct (find_program_header_seek wb fd hdr data pos Hn Hk Hatb Hseek)
    as (w1 & Hat1 & _ & ->).
  fold phnum size phoff in Hat1 |- *.
  assert (at_offset w1 fd data (phoff + Z.of_nat 0 * size)) as Hat0
    by (simpl; rewrite Z.add_0_r; exact Hat1).
  destruct (find_program_header_loop_first fd data hdr phoff size PT_DYNAMIC UINT64_MAX
              Hk ltac:(lia) (Z.to_nat phnum) 0%nat k w1 b1 Hat0)
    as (ph' & w' & -> & Hat' & Hph & _); try lia.
  - rewrite entry_found_wildcard. apply Z.eqb_eq. exact Hty.
  - intros j Hj. rewrite entry_found_wildcard. apply Z.eqb_neq, Hnone. lia.
  - change (1 <=? 0) with false. cbv iota.
    rewrite <- !(PROGRAM_FIELD_take hdr size ph') by exact Hk.
    rewrite Hph. fold entry.
    change (if IS_CLASS32 hdr then sizeof_DynamicEntry32 else sizeof_DynamicEntry64)
      with (dynamic_entry_size hdr).
    destruct (Z.eqb_spec (PROGRAM_FIELD hdr (entry k) p_filesz mod dynamic_entry_size hdr) 0);
      [contradiction|].
    simpl. eauto.
Qed.

Lemma read_ldso_rpaths_odd_size_witness :
  exists w',
    read_ldso_rpaths (world_of odd_dynamic) 3 (take 64 odd_dynamic) None None
    = (- ENOEXEC, None, None, w')
    /\ at_offset w' 3 odd_dynamic
         (ELF_FIELD (take 64 odd_dynamic) e_phoff
          + (Z.of_nat 0 + 1) * ELF_FIELD (take 64 odd_dynamic) e_phentsize).
Proof.
  apply (read_ldso_rpaths_odd_size (world_of odd_dynamic) 3 (take 64 odd_dynamic)
           None None odd_dynamic 0 0).
  - split; reflexivity.
  - vm_compute. reflexivity.
  - vm_compute. reflexivity.
  - apply seek_ok_small. vm_compute. split; [discriminate|reflexivity].
  - vm_compute. reflexivity.
  - vm_compute. discriminate.
  - vm_compute. reflexivity.
  - intros j Hj. lia.
  - vm_compute. discriminate.
Defined.


(** X21: a DT_STRTAB entry whose value is [2^64 - 1] counts as no string
    table at all, that value being what [strtab_address] starts with:
    when the program header table and the dynamic section up to its first
    DT_STRTAB entry can be sought and read and that entry has the value,
    [read_ldso_rpaths] returns 0 and leaves the accumulators alone,
    whatever RPATH and RUNPATH entries the section has. *)
Theorem read_ldso_rpaths_strtab_all_ones w fd hdr rpaths runpaths data pos (k : nat) (s : Z) :
  let phnum := ELF_FIELD hdr e_phnum in
  let size := ELF_FIELD hdr e_phentsize in
  let phoff := ELF_FIELD hdr e_phoff in
  let entry := table_entry data phoff size in
  let off := PROGRAM_FIELD hdr (entry k) p_offset in
  let filesz := PROGRAM_FIELD hdr (entry k) p_filesz in
  let esz := dynamic_entry_size hdr in
  at_offset w fd data pos ->
  phnum < 0xffff -> KNOWN_PHENTSIZE hdr size = true -> seek_ok phoff ->
  Z.of_nat k < phnum ->
  phoff + (Z.of_nat k + 1) * size <= Z.of_nat (length data) ->
  PROGRAM_FIELD hdr (entry k) p_type = PT_DYNAMIC ->
  (forall j : nat, (j < k)%nat -> PROGRAM_FIELD hdr (entry j) p_type <> PT_DYNAMIC) ->
  filesz mod esz = 0 ->
  0 <= s < filesz / esz ->
  (forall j, 0 <= j <= s ->
     seek_ok (off + j * esz) /\ off + (j + 1) * esz <= Z.of_nat (length data)) ->
  (forall j, 0 <= j < s -> DYNAMIC_FIELD hdr (dynamic_entry data hdr off j) d_tag <> DT_STRTAB) ->
  DYNAMIC_FIELD hdr (dynamic_entry data hdr off s) d_tag = DT_STRTAB ->
  DYNAMIC_FIELD hdr (dynamic_entry data hdr off s) d_val = UINT64_MAX ->
  exists w', read_ldso_rpaths w fd hdr rpaths runpaths = (0, rpaths, runpaths, w').
Proof.
  intros phnum size phoff entry off filesz esz Hat Hn Hk Hseek Hlt Hlen Hty Hnone
         Hmod Hs Hdyn Hbefore Htag Hval.
  subst esz.
  pose proof (ELF_FIELD_range hdr e_phoff) as Hoff. fold phoff in Hoff.
  pose proof (ELF_FIELD_range hdr e_phnum) as Hnum. fold phnum in Hnum.
  unfold read_ldso_rpaths.
  destruct (indeterminate (Z.to_nat sizeof_ProgramHeader) w) as [b1 wa] eqn:Ea.
  assert (at_offset wa fd data pos) as Hata by (injection Ea as _ <-; exact Hat).
  destruct (indeterminate (Z.to_nat sizeof_ProgramHeader) wa) as [b2 wb] eqn:Eb.
  assert (at_offset wb fd data pos) as Hatb by (injection Eb as _ <-; exact Hata).
  destruct (find_program_header_seek wb fd hdr data pos Hn Hk Hatb Hseek)
    as (w1 & Hat1 & _ & ->).
  fold phnum size phoff in Hat1 |- *.
  assert (at_offset w1 fd data (phoff + Z.of_nat 0 * size)) as Hat0
    by (simpl; rewrite Z.add_0_r; exact Hat1).
  destruct (find_program_header_loop_first fd data hdr phoff size PT_DYNAMIC UINT64_MAX
              Hk ltac:(lia) (Z.to_nat phnum) 0%nat k w1 b1 Hat0)
    as (ph' & w' & -> & Hat' & Hph & _); try lia.
  - rewrite entry_found_wildcard. apply Z.eqb_eq. exact Hty.
  - intros j Hj. rewrite entry_found_wildcard. apply Z.eqb_neq, Hnone. lia.
  - change (1 <=? 0) with false. cbv iota.
    rewrite <- !(PROGRAM_FIELD_take hdr size ph') by exact Hk.
    rewrite Hph. fold entry off filesz.
    change (if IS_CLASS32 hdr then sizeof_DynamicEntry32 else sizeof_DynamicEntry64)
      with (dynamic_entry_size hdr).
    rewrite Hmod. simpl negb. cbv iota.
    destruct (FOREACH_DYNAMIC_ENTRY_strtab fd hdr data off s (Z.to_nat (filesz / dynamic_entry_size hdr))
                0 w' _ UINT64_MAX Hat' ltac:(lia)) as (w'' & E & _).
    + lia.
    + intros j Hj. apply Hdyn. lia.
    + intros j Hj. apply Hbefore. lia.
    + exact Htag.
    + rewrite E, Hval. rewrite Z.eqb_refl. eauto.
Qed.

Lemma read_ldso_rpaths_strtab_all_ones_witness :
  exists w',
    read_ldso_rpaths (world_of strtab_all_ones) 3 (take 64 strtab_all_ones) None None
    = (0, None, None, w').
Proof.
  apply (read_ldso_rpaths_strtab_all_ones
           (world_of strtab_all_ones) 3 (take 64 strtab_all_ones) None None
           strtab_all_ones 0 1 0).
  - split; reflexivity.
  - vm_compute. reflexivity.
  - vm_compute. reflexivity.
  - apply seek_ok_small. vm_compute. split; [discriminate|reflexivity].
  - vm_compute. reflexivity.
  - vm_compute. discriminate.
  - vm_compute. reflexivity.
  - intros j Hj. assert (j = 0%nat) as -> by lia. vm_compute. discriminate.
  - vm_compute. reflexivity.
  - vm_compute. split; [discriminate|reflexivity].
  - intros j Hj. assert (j = 0) as -> by lia. split.
    + apply seek_ok_small. vm_compute. split; [discriminate|reflexivity].
    + vm_compute. discriminate.
  - intros j Hj. lia.
  - vm_compute. reflexivity.
  - vm_compute. reflexivity.
Defined.

(** X22: [read_ldso_rpaths] passes on what stops the first search of the
    program header table, and leaves the accumulators alone: [-ENOTSUP]
    for a table of [0xffff] entries or more or an entry size that is not
    the one of the class; [-EBADF] for a descriptor that is not open;
    [-e] when the seek fails with [errno = e]; and also [-e] when the
    read of the first entry fails with [errno = e]. *)
Theorem read_ldso_rpaths_table_errors w fd hdr rpaths runpaths :
  let phnum := ELF_FIELD hdr e_phnum in
  let size := ELF_FIELD hdr e_phentsize in
  let phoff := ELF_FIELD hdr e_phoff in
  (0xffff <= phnum \/ KNOWN_PHENTSIZE hdr size = false ->
   exists w', read_ldso_rpaths w fd hdr rpaths runpaths = (- ENOTSUP, rpaths, runpaths, w'))
  /\ (phnum < 0xffff -> KNOWN_PHENTSIZE hdr size = true ->
      (faults w = [] -> fd_lookup w fd = None ->
       exists w', read_ldso_rpaths w fd hdr rpaths runpaths = (- EBADF, rpaths, runpaths, w'))
      /\ (forall e rest,
            faults w = Some e :: rest ->
            exists w',
              read_ldso_rpaths w fd hdr rpaths runpaths = (- Z.pos e, rpaths, runpaths, w'))
      /\ (forall e rest,
            faults w = None :: Some e :: rest ->
            is_Some (fd_lookup w fd) -> seek_ok phoff -> 0 < phnum ->
            exists w',
              read_ldso_rpaths w fd hdr rpaths runpaths = (- Z.pos e, rpaths, runpaths, w'))).
Proof.
  intros phnum size phoff.
  unfold read_ldso_rpaths, indeterminate.
  set (wb := set_uninit _ (set_uninit _ w)).
  set (b1 := take _ _).
  assert (faults wb = faults w) as Hfb by reflexivity.
  assert (forall fd', fd_lookup wb fd' = fd_lookup w fd') as Hlb by reflexivity.
  unfold find_program_header. fold phnum size phoff.
  split.
  - intros [Hbig|Hsize].
    + destruct (Z.leb_spec 0xffff phnum); [|lia]. simpl. eauto.
    + destruct (0xffff <=? phnum); [simpl; eauto|]. rewrite Hsize. simpl. eauto.
  - intros Hnum Hknown.
    destruct (Z.leb_spec 0xffff phnum); [lia|]. rewrite Hknown. simpl negb. cbv iota.
    split; [|split].
    + intros Hf Hfd. unfold lseek, next_fault. rewrite Hfb, Hf, Hlb, Hfd. simpl. eauto.
    + intros e rest Hf. unfold lseek, next_fault. rewrite Hfb, Hf. simpl. eauto.
    + intros e rest Hf [file Hfd] [Hoff Hint] Hpos.
      unfold lseek, next_fault. rewrite Hfb, Hf.
      change (fd_lookup (set_faults [Some e] wb) fd) with (fd_lookup wb fd).
      change (fd_lookup (set_faults (Some e :: rest) wb) fd) with (fd_lookup wb fd).
      rewrite Hlb, Hfd.
      assert (to_off_t phoff = phoff) as -> by (apply to_signed_small; lia).
      destruct (Z.ltb_spec phoff 0); [lia|].
      destruct (Z.ltb_spec (to_int phoff) 0); [lia|].
      destruct (Z.to_nat phnum) as [|n] eqn:En; [lia|].
      unfold find_program_header_loop, read, next_fault. simpl faults. cbv iota beta.
      pose proof (KNOWN_PHENTSIZE_inv hdr size Hknown) as [(_ & _ & ->)|(_ & _ & ->)];
        simpl; eauto.
Qed.

Lemma read_ldso_rpaths_table_errors_witness :
  (exists w',
     read_ldso_rpaths (world_of big_table) 3 (take 64 big_table) None None
     = (- ENOTSUP, None, None, w'))
  /\ (exists w',
        read_ldso_rpaths (world_of two_runpaths) 7 (take 64 two_runpaths) None None
        = (- EBADF, None, None, w'))
  /\ (exists w',
        read_ldso_rpaths (with_faults [Some 5%positive] [] (world_of two_runpaths)) 3
                         (take 64 two_runpaths) None None
        = (- 5, None, None, w'))
  /\ (exists w',
        read_ldso_rpaths (with_faults [None; Some 5%positive] [] (world_of two_runpaths)) 3
                         (take 64 two_runpaths) None None
        = (- 5, None, None, w')).
Proof.
  split; [|split; [|split]].
  - apply (proj1 (read_ldso_rpaths_table_errors (world_of big_table) 3 (take 64 big_table)
                    None None)).
    left. vm_compute. discriminate.
  - apply (proj1 (proj2 (read_ldso_rpaths_table_errors (world_of two_runpaths) 7
                           (take 64 two_runpaths) None None)
                        ltac:(vm_compute; reflexivity) ltac:(vm_compute; reflexivity)));
      reflexivity.
  - apply (proj1 (proj2 (proj2 (read_ldso_rpaths_table_errors
                                  (with_faults [Some 5%positive] [] (world_of two_runpaths)) 3
                                  (take 64 two_runpaths) None None)
                               ltac:(vm_compute; reflexivity) ltac:(vm_compute; reflexivity)))
             5%positive []).
    reflexivity.
  - apply (proj2 (proj2 (proj2 (read_ldso_rpaths_table_errors
                                  (with_faults [None; Some 5%positive] [] (world_of two_runpaths)) 3
                                  (take 64 two_runpaths) None None)
                               ltac:(vm_compute; reflexivity) ltac:(vm_compute; reflexivity)))
             5%positive []).
    + reflexivity.
    + vm_compute. eauto.
    + apply seek_ok_small. vm_compute. split; [discriminate|reflexivity].
    + vm_compute. reflexivity.
Defined.


(** ** From the name of a file to its search paths *)

Lemma open_elf_alloc_faults w path buf : alloc_faults (open_elf w path buf).2 = alloc_faults w.
Proof.
  assert (forall w0, alloc_faults (next_fault w0).2 = alloc_faults w0) as Hnf.
  { intros w0. unfold next_fault. destruct (faults w0); reflexivity. }
  assert (forall w0 p, alloc_faults (open w0 p).2 = alloc_faults w0) as Hopen.
  { intros w0 p. unfold open. pose proof (Hnf w0) as H.
    destruct (next_fault w0) as [[x|] w1]; simpl in *; [exact H|].
    destruct (fs w1 !! p); exact H. }
  assert (forall w0 fd c, alloc_faults (read w0 fd c).2 = alloc_faults w0) as Hread.
  { intros w0 fd c. unfold read. pose proof (Hnf w0) as H.
    destruct (next_fault w0) as [[x|] w1]; simpl in *; [exact H|].
    destruct (fd_lookup w1 fd); exact H. }
  assert (forall w0 fd, alloc_faults (close w0 fd).2 = alloc_faults w0) as Hclose.
  { intros w0 fd. unfold close. destruct (fd_lookup w0 fd); reflexivity. }
  unfold open_elf. pose proof (Hopen w path) as Ho.
  destruct (open w path) as [fd w1]. simpl in Ho.
  destruct (fd <? 0); [exact Ho|].
  pose proof (Hread w1 fd sizeof_ElfHeader) as Hr.
  destruct (read w1 fd sizeof_ElfHeader) as [[n got] w2]. simpl in Hr.
  pose proof (Hclose w2 fd) as Hc.
  destruct (close w2 fd) as [r w3]. simpl in Hc.
  destruct (_ <? 0); simpl; congruence.
Qed.

(** X23: [open_elf] and [read_ldso_rpaths] in a row, as a caller uses
    them.  When [t_path] names a file that starts with a valid header and
    whose tables and strings can be read, and neither a system call nor an
    allocation fails, [open_elf] (given a buffer of the size of a header)
    returns a descriptor and the header of the file, and
    [read_ldso_rpaths] on that descriptor and that header returns 0 with
    the RPATH entries of the file merged in [*rpaths] and its RUNPATH
    entries in [*runpaths], in the order of the dynamic section; the
    descriptor is still open on the file. *)
Theorem open_elf_read_ldso_rpaths w t_path buf data k l s :
  faults w = [] -> alloc_faults w = [] ->
  fs w !! t_path = Some data ->
  length buf = 64%nat ->
  64 <= Z.of_nat (length data) -> valid_elf_header data ->
  readable_image (take 64 data) data k l s ->
  exists fd w1 w2 pos,
    open_elf w t_path buf = (fd, take 64 data, w1)
    /\ read_ldso_rpaths w1 fd (take 64 data) None None
       = (0, paths_of (take 64 data) data k l s DT_RPATH None,
          paths_of (take 64 data) data k l s DT_RUNPATH None, w2)
    /\ fd_lookup w2 fd = Some (mkOpenFile data pos).
Proof.
  intros Hf Ha Hdata Hbuf Hlen Hv Himg.
  destruct (open_elf_on_file w t_path buf data Hf Hdata) as [Hyes _].
  destruct (Hyes (conj Hlen Hv)) as (w1 & E & Hat).
  assert (store buf (take 64 data) = take 64 data) as Hstore.
  { unfold store. rewrite drop_ge, app_nil_r; [reflexivity|].
    rewrite length_take. lia. }
  rewrite Hstore in E.
  assert (alloc_faults w1 = []) as Ha1.
  { pose proof (open_elf_alloc_faults w t_path buf) as H. rewrite E in H. simpl in H.
    congruence. }
  destruct Himg as ((H1 & H2 & H3 & H4) & (H5 & H6 & H7) & (H8 & H9)
                    & (H10 & H11 & H12 & H13) & (H14 & H15 & H16) & (H17 & H18)).
  destruct (read_ldso_rpaths_paths w1 (Z.of_nat (lowest_free (fds w))) (take 64 data) data 64
              None None k l s)
    as (w2 & E2); try assumption.
  pose proof (read_ldso_rpaths_cases w1 (Z.of_nat (lowest_free (fds w))) (take 64 data)
                None None) as (_ & (_ & _ & Hd) & _).
  rewrite E2 in Hd. simpl in Hd. destruct Hat as [_ Hfd]. rewrite Hfd in Hd. simpl in Hd.
  destruct (fd_lookup w2 _) as [[d p]|] eqn:El; [|discriminate].
  injection Hd as ->.
  exists (Z.of_nat (lowest_free (fds w))), w1, w2, p. auto.
Qed.

Lemma open_elf_read_ldso_rpaths_witness :
  exists fd w1 w2 pos,
    open_elf host_world "/bin/true" (repeat Byte.x00 64) = (fd, take 64 two_runpaths, w1)
    /\ read_ldso_rpaths w1 fd (take 64 two_runpaths) None None
       = (0, paths_of (take 64 two_runpaths) two_runpaths 1 0 0 DT_RPATH None,
          paths_of (take 64 two_runpaths) two_runpaths 1 0 0 DT_RUNPATH None, w2)
    /\ fd_lookup w2 fd = Some (mkOpenFile two_runpaths pos).
Proof.
  apply (open_elf_read_ldso_rpaths host_world "/bin/true" (repeat Byte.x00 64)
           two_runpaths 1 0 0).
  - reflexivity.
  - reflexivity.
  - vm_compute. reflexivity.
  - reflexivity.
  - vm_compute. discriminate.
  - vm_compute. repeat split; auto.
  - exact two_runpaths_readable.
Defined.

(** The system calls report nothing. *)
Lemma lseek_notices w fd offset : notices (lseek w fd offset).2 = notices w.
Proof.
  unfold lseek, next_fault.
  destruct (faults w) as [|[e|] rest]; simpl; try reflexivity;
    (match goal with |- context [fd_lookup ?x fd] => destruct (fd_lookup x fd) end;
     [destruct (offset <? 0)|]; reflexivity).
Qed.

Lemma read_notices w fd count : notices (read w fd count).2 = notices w.
Proof.
  unfold read, next_fault.
  destruct (faults w) as [|[e|] rest]; simpl; try reflexivity;
    (match goal with |- context [fd_lookup ?x fd] => destruct (fd_lookup x fd) end;
     reflexivity).
Qed.

Lemma find_program_header_loop_notices n : forall w fd hdr size ph type address,
  notices (find_program_header_loop n w fd hdr size ph type address).2 = notices w.
Proof.
  induction n as [|n IH]; intros w fd hdr size ph type address; simpl; [reflexivity|].
  pose proof (read_notices w fd size) as Hr.
  destruct (read w fd size) as [[status got] w1]. simpl in Hr.
  destruct (negb _); [exact Hr|].
  destruct (entry_found _ _ _ _); [exact Hr|].
  rewrite IH. exact Hr.
Qed.

(** X24: [find_program_header] warns in two cases only, the ones in which
    it refuses the table before any system call: "big PH tables are not
    yet supported" for [e_phnum >= 0xffff], else "unsupported size of
    program header" for an [e_phentsize] that is not the one of the class.
    Every other outcome, the [-ENOTSUP] of a short read and the errors of
    the system calls among them, is silent. *)
Theorem find_program_header_notices w fd hdr ph type address :
  notices (find_program_header w fd hdr ph type address).2
  = notices (if 0xffff <=? ELF_FIELD hdr e_phnum
             then notice w "%d: big PH tables are not yet supported."
             else if KNOWN_PHENTSIZE hdr (ELF_FIELD hdr e_phentsize)
                  then w
                  else notice w "%d: unsupported size of program header.").
Proof.
  unfold find_program_header.
  destruct (0xffff <=? _); [reflexivity|].
  destruct (KNOWN_PHENTSIZE _ _); simpl; [|reflexivity].
  pose proof (lseek_notices w fd (to_off_t (ELF_FIELD hdr e_phoff))) as Hs.
  destruct (lseek w fd _) as [ret w1]. simpl in Hs.
  destruct (to_int ret <? 0); [exact Hs|].
  rewrite find_program_header_loop_notices. exact Hs.
Qed.
